(** * Gmail-To-Asana: a shallow embedding of the extension's logic

    The development follows the components of the extension:

    - [Base64] and [Relay]: the attachment relay encoding
      ([ProjectSelector.blobToBase64] in [src/lib/asana-client.js] and the
      [UPLOAD_ATTACHMENT_BASE64] case of the service worker);
    - [Gateway]: the service worker's message listener and [handleMessage];
    - [Composer]: the [ProjectSelector] modal (workspace change, project
      selection, task creation, comment creation);
    - [Extractor]: [EmailExtractor] (attachment extraction, thread scan);
    - [Injector]: [GmailInjector] (trigger injection into the Gmail DOM).

    JavaScript strings are sequences of UTF-16 code units, modelled as
    [list N].  Platform functions used by the code ([String.prototype.trim],
    [atob], [FileReader.readAsDataURL], [Element.querySelector], ...) are
    modelled after their specifications and are marked as such. *)

From Stdlib Require Import List NArith ZArith Lia Bool String Ascii.
From Stdlib Require Import Strings.Byte DecimalString.
From Stdlib Require DecimalZ.
From stdpp Require Import base list gmap.
Import ListNotations.

Set Warnings "-register-all".

Local Open Scope N_scope.

(** ** JavaScript strings *)

Module JS.

(** A JavaScript string: its UTF-16 code units. *)
Definition jsstring := list N.

(** An ASCII literal of the source, as code units. *)
Definition lit (s : string) : jsstring :=
  map N_of_ascii (list_ascii_of_string s).

(** The decimal digits of an integer, as [String(n)] gives them. *)
Definition decimal (z : Z) : jsstring :=
  lit (DecimalString.NilZero.string_of_int (Z.to_int z)).

(** Truthiness of a string: the empty string is the only falsy one. *)
Definition truthy (s : jsstring) : bool :=
  match s with [] => false | _ => true end.

(** [a || b] on strings. *)
Definition or_else (a b : jsstring) : jsstring :=
  if truthy a then a else b.

(** Whether a value that may be [null] or [undefined] is there. *)
Definition present {A} (x : option A) : bool :=
  match x with Some _ => true | None => false end.

(** Strict equality of strings, as a boolean. *)
Definition str_eqb (a b : jsstring) : bool := bool_decide (a = b).

(** White space and line terminators of ECMAScript (the class [\s] of
    regular expressions, also what [trim] removes). *)
Definition is_space (c : N) : bool :=
  ((9 <=? c) && (c <=? 13)) || (c =? 32) || (c =? 160) || (c =? 5760)
  || ((8192 <=? c) && (c <=? 8202)) || (c =? 8232) || (c =? 8233)
  || (c =? 8239) || (c =? 8287) || (c =? 12288) || (c =? 65279).

Fixpoint trim_start (s : jsstring) : jsstring :=
  match s with
  | c :: r => if is_space c then trim_start r else s
  | [] => []
  end.

Definition trim_end (s : jsstring) : jsstring := rev (trim_start (rev s)).

(** [String.prototype.trim]; also [s.replace(/^\s+|\s+$/g, '')]. *)
Definition trim (s : jsstring) : jsstring := trim_end (trim_start s).

(** [s.split(sep)] for a one-unit separator: the pieces between the
    occurrences of [sep] (always at least one piece). *)
Fixpoint split (sep : N) (s : jsstring) : list jsstring :=
  match s with
  | [] => [[]]
  | c :: r =>
      if c =? sep then [] :: split sep r
      else match split sep r with
           | p :: ps => (c :: p) :: ps
           | [] => [[c]]
           end
  end.

Fixpoint starts_with (p s : jsstring) : bool :=
  match p, s with
  | [], _ => true
  | a :: p', b :: s' => (a =? b) && starts_with p' s'
  | _ :: _, [] => false
  end.

(** [s.includes(p)]. *)
Fixpoint includes (s p : jsstring) : bool :=
  starts_with p s ||
  match s with
  | [] => false
  | _ :: r => includes r p
  end.

End JS.
Export JS.

(** ** Base64, as the platform implements it

    [FileReader.readAsDataURL] encodes with the standard alphabet and [=]
    padding (RFC 4648); [atob] is the forgiving-base64 decoder of the
    WHATWG Infra standard. *)

Module Base64.

Definition alphabet : jsstring :=
  lit "ABCDEFGHIJKLMNOPQRSTUVWXYZabcdefghijklmnopqrstuvwxyz0123456789+/".

Definition pad_char : N := 61.

(** The character of a sextet. *)
Definition char_of (s : N) : N := nth (N.to_nat s) alphabet 0.

Fixpoint index_from (i : N) (c : N) (l : jsstring) : option N :=
  match l with
  | [] => None
  | x :: r => if x =? c then Some i else index_from (i + 1) c r
  end.

(** The sextet of a character of the alphabet. *)
Definition sextet_of (c : N) : option N := index_from 0 c alphabet.

(** The characters of the sextets of [bs], without padding. *)
Fixpoint encode_body (bs : list N) : jsstring :=
  match bs with
  | a :: b :: c :: rest =>
      char_of (a / 4) :: char_of ((a mod 4) * 16 + b / 16)
      :: char_of ((b mod 16) * 4 + c / 64) :: char_of (c mod 64)
      :: encode_body rest
  | [a; b] =>
      [char_of (a / 4); char_of ((a mod 4) * 16 + b / 16);
       char_of ((b mod 16) * 4)]
  | [a] => [char_of (a / 4); char_of ((a mod 4) * 16)]
  | [] => []
  end.

Definition padding (n : nat) : jsstring :=
  match (n mod 3)%nat with
  | 1%nat => [pad_char; pad_char]
  | 2%nat => [pad_char]
  | _ => []
  end.

(** Base64 of a byte sequence. *)
Definition encode (bs : list byte) : jsstring :=
  encode_body (map Byte.to_N bs) ++ padding (length bs).

(** ASCII white space, removed by [atob] before decoding. *)
Definition is_ascii_space (c : N) : bool :=
  (c =? 9) || (c =? 10) || (c =? 12) || (c =? 13) || (c =? 32).

(** Removes one or two trailing [=]. *)
Definition strip_padding (s : jsstring) : jsstring :=
  match rev s with
  | p :: q :: r =>
      if p =? pad_char then
        if q =? pad_char then rev r else rev (q :: r)
      else s
  | [p] => if p =? pad_char then [] else s
  | [] => s
  end.

Fixpoint sextets (s : jsstring) : option (list N) :=
  match s with
  | [] => Some []
  | c :: r =>
      match sextet_of c, sextets r with
      | Some x, Some xs => Some (x :: xs)
      | _, _ => None
      end
  end.

(** Groups of four sextets give three bytes; a final group of three gives
    two bytes and a final group of two gives one (the left-over bits are
    discarded). *)
Fixpoint decode_sextets (xs : list N) : list N :=
  match xs with
  | s1 :: s2 :: s3 :: s4 :: rest =>
      (s1 * 4 + s2 / 16) :: ((s2 mod 16) * 16 + s3 / 4)
      :: ((s3 mod 4) * 64 + s4) :: decode_sextets rest
  | [s1; s2; s3] => [s1 * 4 + s2 / 16; (s2 mod 16) * 16 + s3 / 4]
  | [s1; s2] => [s1 * 4 + s2 / 16]
  | _ => []
  end.

(** [atob]: the decoded binary string (one code unit per byte), or [None]
    where [atob] throws an [InvalidCharacterError]. *)
Definition atob (data : jsstring) : option jsstring :=
  let d1 := List.filter (fun c => negb (is_ascii_space c)) data in
  let d2 := if (length d1 mod 4 =? 0)%nat then strip_padding d1 else d1 in
  if (length d2 mod 4 =? 1)%nat then None
  else match sextets d2 with
       | Some xs => Some (decode_sextets xs)
       | None => None
       end.

End Base64.

(** ** Binary data *)

Module Binary.

(** A [Blob]: its [type] and its bytes. *)
Record blob := Blob { blob_type : jsstring; blob_bytes : list byte }.

(** An element of a [Uint8Array] built from a number: the number modulo
    256. *)
Definition uint8 (n : N) : byte :=
  match Byte.of_N (n mod 256) with Some b => b | None => x00 end.

End Binary.

(** ** The service worker (API gateway) *)

Module Gateway.
Import Binary.

(** Values that cross the message-passing boundary (JSON-like).  Numbers
    are restricted to integers. *)
Inductive value :=
| VUndefined
| VNull
| VBool (b : bool)
| VNum (z : Z)
| VStr (s : jsstring)
| VArr (items : list value)
| VObj (fields : list (jsstring * value)).

(** A thrown value.  Everything thrown on the paths modelled here is an
    [Error] object (created by [new Error(...)] in the source, or by the
    platform: [TypeError], [SyntaxError], [DOMException]), which carries a
    string [message]. *)
Record exn := Error { message : jsstring }.

(** The settlement of a promise, or the completion of a block. *)
Inductive result (A : Type) :=
| Ok (a : A)
| Throw (e : exn).
Arguments Ok {A} a.
Arguments Throw {A} e.

(** Sequencing: a throw skips the rest of the block ([x ← c; k] runs [c]
    and then [k]). *)
#[global] Instance result_ret : MRet result := fun A a => Ok a.
#[global] Instance result_bind : MBind result := fun A B k r =>
  match r with
  | Ok a => k a
  | Throw e => Throw e
  end.

(** [ToString], as template literals and [atob] apply it. *)
Fixpoint toString (v : value) : jsstring :=
  match v with
  | VUndefined => lit "undefined"
  | VNull => lit "null"
  | VBool true => lit "true"
  | VBool false => lit "false"
  | VNum z => decimal z
  | VStr s => s
  | VArr items =>
      (fix join (l : list value) : jsstring :=
         let element x :=
           match x with
           | VUndefined | VNull => []
           | _ => toString x
           end in
         match l with
         | [] => []
         | [x] => element x
         | x :: r => element x ++ lit "," ++ join r
         end) items
  | VObj _ => lit "[object Object]"
  end.

(** Truthiness. *)
Definition is_truthy (v : value) : bool :=
  match v with
  | VUndefined | VNull | VBool false | VNum 0%Z | VStr [] => false
  | _ => true
  end.

Fixpoint assoc (k : jsstring) (fs : list (jsstring * value)) : value :=
  match fs with
  | [] => VUndefined
  | (k', v) :: r => if str_eqb k' k then v else assoc k r
  end.

(** [v.k] for the property names read by the service worker (none of
    them is a built-in property of a string, number, boolean or array). *)
Definition prop (k : string) (v : value) : value :=
  match v with
  | VObj fs => assoc (lit k) fs
  | _ => VUndefined
  end.

(** [v.k] where [v] may be [null] or [undefined]: the access then throws
    a [TypeError]. *)
Definition get (k : string) (v : value) : result value :=
  match v with
  | VUndefined | VNull =>
      Throw (Error (lit "Cannot read properties of " ++ toString v))
  | _ => Ok (prop k v)
  end.

(** The response of [fetch]. *)
Record response := Response {
  ok : bool;
  status : N;
  body : result blob
}.

(** What the service worker calls outside itself: the functions of the
    Asana client that perform network requests, [fetch], and the
    extension's storage.  Each may complete or throw. *)
Record platform := Platform {
  checkSession : result value;
  getWorkspaces : result value;
  getProjects : value -> result value;
  getUsers : value -> result value;
  getTags : value -> result value;
  createTask : value -> result value;
  uploadAttachment : value -> blob -> value -> result value;
  searchTasks : value -> value -> result value;
  addComment : value -> value -> value -> result value;
  getProjectCustomFields : value -> result value;
  getTask : value -> result value;
  showNotification : value -> value -> value -> result unit;
  fetch : value -> result response;
  storage_get : jsstring -> result value;
  storage_set : jsstring -> value -> result unit
}.

(** [asanaClient.getTaskUrl]. *)
Definition getTaskUrl (taskId : value) : value :=
  VStr (lit "https://app.asana.com/0/0/" ++ toString taskId).

Section Worker.
Variable P : platform.

(** [downloadGmailAttachment]. *)
Definition downloadGmailAttachment (url : value) : result blob :=
  response ← fetch P url;
  if negb (ok response) then
    Throw (Error (lit "Failed to download attachment: "
                  ++ decimal (Z.of_N (status response))))
  else
    body response.

(** The blob rebuilt from the message in the [UPLOAD_ATTACHMENT_BASE64]
    case: [atob], the loop over [charCodeAt], [new Uint8Array] and
    [new Blob([byteArray], { type: mimeType })] (the constructor's
    normalisation of the type is left out). *)
Definition blobOfMessage (base64Data mimeType : value) : result blob :=
  match Base64.atob (toString base64Data) with
  | Some byteCharacters =>
      let byteNumbers := byteCharacters in
      let byteArray := map uint8 byteNumbers in
      Ok {| blob_type := match mimeType with
                         | VUndefined => []
                         | ty => toString ty
                         end;
            blob_bytes := byteArray |}
  | None => Throw (Error (lit "Failed to execute 'atob'"))
  end.

(** [handleMessage]: the [switch] on [message.type]. *)
Definition handleMessage (message : value) : result value :=
  type ← get "type" message;
  match type with
  | VStr t =>
      if str_eqb t (lit "CHECK_SESSION") then checkSession P
      else if str_eqb t (lit "GET_WORKSPACES") then getWorkspaces P
      else if str_eqb t (lit "GET_PROJECTS") then
        getProjects P (prop "workspaceId" message)
      else if str_eqb t (lit "GET_USERS") then
        getUsers P (prop "workspaceId" message)
      else if str_eqb t (lit "GET_TAGS") then
        getTags P (prop "workspaceId" message)
      else if str_eqb t (lit "CREATE_TASK") then
        createTask P (prop "taskData" message)
      else if str_eqb t (lit "UPLOAD_ATTACHMENT") then
        let taskId := prop "taskId" message in
        let attachmentUrl := prop "attachmentUrl" message in
        let filename := prop "filename" message in
        blob ← downloadGmailAttachment attachmentUrl;
        uploadAttachment P taskId blob filename
      else if str_eqb t (lit "UPLOAD_ATTACHMENT_BASE64") then
        let taskId := prop "taskId" message in
        let base64Data := prop "base64Data" message in
        let mimeType := prop "mimeType" message in
        let filename := prop "filename" message in
        blob ← blobOfMessage base64Data mimeType;
        uploadAttachment P taskId blob filename
      else if str_eqb t (lit "GET_TASK_URL") then
        Ok (getTaskUrl (prop "taskId" message))
      else if str_eqb t (lit "SEARCH_TASKS") then
        searchTasks P (prop "workspaceId" message) (prop "query" message)
      else if str_eqb t (lit "ADD_COMMENT") then
        addComment P (prop "taskId" message) (prop "text" message)
          (prop "htmlText" message)
      else if str_eqb t (lit "GET_PROJECT_CUSTOM_FIELDS") then
        getProjectCustomFields P (prop "projectId" message)
      else if str_eqb t (lit "GET_TASK") then
        getTask P (prop "taskId" message)
      else if str_eqb t (lit "SHOW_NOTIFICATION") then
        showNotification P (prop "title" message)
          (prop "message" message) (prop "url" message);;
        Ok (VObj [(lit "success", VBool true)])
      else if str_eqb t (lit "SAVE_PREFERENCES") then
        storage_set P (lit "preferences") (prop "preferences" message);;
        Ok (VObj [(lit "success", VBool true)])
      else if str_eqb t (lit "GET_PREFERENCES") then
        data ← storage_get P (lit "preferences");
        let preferences := prop "preferences" data in
        Ok (if is_truthy preferences then preferences else VObj [])
      else
        Throw (Error (lit "Unknown message type: " ++ t))
  | other =>
      Throw (Error (lit "Unknown message type: " ++ toString other))
  end.

(** The object [{ error: error.message }]. *)
Definition errorObject (e : exn) : value :=
  VObj [(lit "error", VStr (message e))].

(** What the listener's promise chain does: the calls of [sendResponse]
    it makes, and how the chain settles.  A chain that settles with
    [Throw] is an unhandled rejection. *)
Record listened := Listened {
  sent : list value;
  chain : result unit
}.

(** The listener registered with [chrome.runtime.onMessage]:
    [handleMessage(message).then(sendResponse)
       .catch(error => sendResponse({ error: error.message }))]. *)
Definition onMessage (message : value) : listened :=
  match handleMessage message with
  | Ok v => {| sent := [v]; chain := Ok tt |}
  | Throw error => {| sent := [errorObject error]; chain := Ok tt |}
  end.

End Worker.

(** The message types of the [switch]. *)
Definition message_types : list jsstring :=
  map lit
    ["CHECK_SESSION"; "GET_WORKSPACES"; "GET_PROJECTS"; "GET_USERS";
     "GET_TAGS"; "CREATE_TASK"; "UPLOAD_ATTACHMENT";
     "UPLOAD_ATTACHMENT_BASE64"; "GET_TASK_URL"; "SEARCH_TASKS";
     "ADD_COMMENT"; "GET_PROJECT_CUSTOM_FIELDS"; "GET_TASK";
     "SHOW_NOTIFICATION"; "SAVE_PREFERENCES"; "GET_PREFERENCES"]%string.

End Gateway.

(** ** The attachment relay, page side *)

Module Relay.
Import Binary Gateway.

(** [FileReader.readAsDataURL] (platform), as Chromium implements it: the
    bare [data:] for a blob without bytes, and otherwise
    [data:<type>;base64,<payload>], where a blob without a type is given
    the type [application/octet-stream].  (Browsers agree on blobs that
    have bytes.) *)
Definition readAsDataURL (b : blob) : jsstring :=
  match blob_bytes b with
  | [] => lit "data:"
  | _ =>
      lit "data:" ++ or_else (blob_type b) (lit "application/octet-stream")
      ++ lit ";base64," ++ Base64.encode (blob_bytes b)
  end.

(** [ProjectSelector.blobToBase64]: [reader.result.split(',')[1]]. *)
Definition blobToBase64 (b : blob) : value :=
  match nth_error (split 44 (readAsDataURL b)) 1 with
  | Some base64 => VStr base64
  | None => VUndefined
  end.

(** The message that [ProjectSelector.uploadBlobToAsana] sends. *)
Definition uploadMessage (taskId : value) (b : blob) (filename : value)
  : value :=
  VObj [(lit "type", VStr (lit "UPLOAD_ATTACHMENT_BASE64"));
        (lit "taskId", taskId);
        (lit "base64Data", blobToBase64 b);
        (lit "mimeType",
         VStr (or_else (blob_type b) (lit "application/octet-stream")));
        (lit "filename", filename)].

(** The blob that the service worker rebuilds from that message. *)
Definition relayed (b : blob) : result blob :=
  let message := uploadMessage VUndefined b VUndefined in
  blobOfMessage (prop "base64Data" message) (prop "mimeType" message).

(** Its bytes, when there is one. *)
Definition relayed_bytes (b : blob) : option (list byte) :=
  match relayed b with
  | Ok b' => Some (blob_bytes b')
  | Throw _ => None
  end.

End Relay.

(** ** The task composer ([ProjectSelector]) *)

Module Composer.
Import Binary Gateway Relay.

(** *** Data *)

Record workspace := Workspace { workspace_gid : jsstring; workspace_name : jsstring }.
Record project := Project { project_gid : jsstring; project_name : jsstring }.
Record user := User { user_gid : jsstring; user_name : jsstring }.
Record tag := Tag { tag_gid : jsstring; tag_name : jsstring; tag_color : jsstring }.
Record customField := CustomField {
  field_gid : jsstring;
  field_name : jsstring;
  field_type : jsstring;
  enumOptions : list (jsstring * jsstring)
}.
Record existingTask := ExistingTask { task_gid : jsstring; task_name : jsstring }.

(** The extracted email.  A field that may be missing ([date] in the
    whole-view extraction) is the empty string here: the composer only
    tests such fields for truthiness before using them. *)
Record emailData := EmailData {
  subject : jsstring;
  body : jsstring;
  sender : jsstring;
  date : jsstring;
  emailUrl : jsstring;
  emlDownloadUrl : option jsstring
}.

(** The preferences object; an unset identifier is the empty string. *)
Record preferences := Preferences {
  defaultWorkspace : jsstring;
  lastWorkspaceId : jsstring;
  defaultProject : jsstring;
  lastProjectId : jsstring;
  autoClose : bool
}.

Definition set_lastProjectId (gid : jsstring) (p : preferences) : preferences :=
  {| defaultWorkspace := defaultWorkspace p;
     lastWorkspaceId := lastWorkspaceId p;
     defaultProject := defaultProject p;
     lastProjectId := gid;
     autoClose := autoClose p |}.

Definition set_lastWorkspaceId (gid : jsstring) (p : preferences) : preferences :=
  {| defaultWorkspace := defaultWorkspace p;
     lastWorkspaceId := gid;
     defaultProject := defaultProject p;
     lastProjectId := lastProjectId p;
     autoClose := autoClose p |}.

Inductive mode_t := create | comment.

(** What the service worker answers: the payload [a], or the object
    [{error: msg}]. *)
Inductive answer (A : Type) :=
| Data (a : A)
| ErrorObject (msg : jsstring).
Arguments Data {A} a.
Arguments ErrorObject {A} msg.

(** The [error] property of an answer, as a string ([undefined] is the
    empty string: the code only tests it for truthiness). *)
Definition error_of {A} (r : answer A) : jsstring :=
  match r with
  | Data _ => []
  | ErrorObject msg => msg
  end.

(** The fields of [ProjectSelector] that hold the draft.  A list loaded
    from the service worker is stored as it was answered. *)
Record selector := Selector {
  email : emailData;
  me : user;
  projects : answer (list project);
  users : answer (list user);
  tags : answer (list tag);
  prefs : preferences;
  selectedProject : option project;
  selectedTags : list tag;
  selectedExistingTask : option existingTask;
  customFields : answer (list customField);
  customFieldValues : gmap jsstring jsstring;
  mode : mode_t
}.

(** The inputs of the modal that the composer reads and the parts of it
    that report the outcome.  Presentational updates (placeholders,
    dropdown contents, visibility of sections) are left out. *)
Record modal := Modal {
  name_input : jsstring;
  workspace_value : jsstring;
  assignee_value : jsstring;
  due_date : jsstring;
  include_body : bool;
  include_link : bool;
  attach_eml : bool;
  add_label : bool;
  checked_attachments : list (jsstring * jsstring);
  project_input : jsstring;
  task_search_input : jsstring;
  status : jsstring * jsstring;
  create_disabled : bool;
  create_text : jsstring
}.

(** The data of a [CREATE_TASK] message. *)
Record taskData := TaskData {
  td_projectId : jsstring;
  td_workspaceId : jsstring;
  td_name : jsstring;
  td_htmlNotes : jsstring;
  td_assignee : option jsstring;
  td_dueDate : option jsstring;
  td_tags : option (list jsstring);
  td_customFields : option (list (jsstring * value))
}.

Record createdTask := CreatedTask { created_gid : jsstring }.

(** The messages the composer sends, indexed by the payload of their
    answer. *)
Inductive request : Type -> Type :=
| SAVE_PREFERENCES (p : preferences) : request unit
| GET_PROJECTS (workspaceId : jsstring) : request (list project)
| GET_USERS (workspaceId : jsstring) : request (list user)
| GET_TAGS (workspaceId : jsstring) : request (list tag)
| GET_PROJECT_CUSTOM_FIELDS (projectId : jsstring) : request (list customField)
| CREATE_TASK (data : taskData) : request createdTask
| ADD_COMMENT (taskId text htmlText : jsstring) : request unit
| UPLOAD_ATTACHMENT_BASE64 (message : value) : request unit
| SHOW_NOTIFICATION (title message url : jsstring) : request unit.

(** Whether a message makes the service worker call the Asana API. *)
Definition is_api_call {A} (r : request A) : bool :=
  match r with
  | SAVE_PREFERENCES _ | SHOW_NOTIFICATION _ _ _ => false
  | _ => true
  end.

(** What the composer does to the outside. *)
Inductive event :=
| Sent {A} (r : request A)
| Fetched (url : jsstring)
| Clicked (what : jsstring)
| Logged (what : jsstring)
| CloseScheduled.

(** The outside: the service worker's answers (a rejected promise is a
    [Throw]), the host page's answers to [fetch], and the label menu of
    the host page ([None]: no labels button; otherwise the texts of the
    menu items).  The first argument is the number of events so far, so
    that the same call may be answered differently at different times. *)
Record environment := Environment {
  gateway : forall A, nat -> request A -> result (answer A);
  page_fetch : nat -> jsstring -> result response;
  label_menu : nat -> result (option (list jsstring))
}.

Record world := World {
  this : selector;
  form : modal;
  trace : list event
}.

(** *** Computations: state, events and exceptions *)

Definition M (A : Type) : Type := world -> result A * world.

#[global] Instance M_ret : MRet M := fun A a w => (Ok a, w).
#[global] Instance M_bind : MBind M := fun A B k m w =>
  match m w with
  | (Ok a, w') => k a w'
  | (Throw e, w') => (Throw e, w')
  end.

Definition throw {A} (e : exn) : M A := fun w => (Throw e, w).

(** [try { body } catch (error) { handler }]. *)
Definition try_catch {A} (body : M A) (handler : exn -> M A) : M A :=
  fun w =>
    match body w with
    | (Ok a, w') => (Ok a, w')
    | (Throw e, w') => handler e w'
    end.

(** A call whose promise is not awaited: what it does happens, its
    rejection is nobody's.  (The call is run to completion at the call
    site; this orders its continuations before those of the caller.) *)
Definition detached {A} (m : M A) : M unit :=
  fun w => (Ok tt, snd (m w)).

Definition get_this : M selector := fun w => (Ok (this w), w).
Definition get_form : M modal := fun w => (Ok (form w), w).
Definition set_this (f : selector -> selector) : M unit :=
  fun w => (Ok tt, {| this := f (this w); form := form w; trace := trace w |}).
Definition set_form (f : modal -> modal) : M unit :=
  fun w => (Ok tt, {| this := this w; form := f (form w); trace := trace w |}).
Definition emit (e : event) : M unit :=
  fun w => (Ok tt, {| this := this w; form := form w; trace := trace w ++ [e] |}).
Definition clock : M nat := fun w => (Ok (length (trace w)), w).

(** The outcome of a settled promise, kept until it is awaited. *)
Definition promise (A : Type) := result A.
Definition await {A} (p : promise A) : M A := fun w => (p, w).

(** A block without effects that completes or throws. *)
Definition completes {A} (r : result A) : M A := fun w => (r, w).

(** *** Operations of [ProjectSelector] *)

Section Operations.
(** [this.t]: the localized text of a key, with its substitutions. *)
Variable t : jsstring -> list jsstring -> jsstring.
Variable env : environment.

(** [chrome.runtime.sendMessage(r)]: the message leaves at once; the
    promise of its answer is returned. *)
Definition sendMessage {A} (r : request A) : M (promise (answer A)) :=
  now ← clock;
  emit (Sent r);;
  mret (gateway env A now r).

(** [showStatus]. *)
Definition showStatus (message type : jsstring) : M unit :=
  set_form (fun f =>
    {| name_input := name_input f; workspace_value := workspace_value f;
       assignee_value := assignee_value f; due_date := due_date f;
       include_body := include_body f; include_link := include_link f;
       attach_eml := attach_eml f; add_label := add_label f;
       checked_attachments := checked_attachments f;
       project_input := project_input f;
       task_search_input := task_search_input f;
       status := (message, type);
       create_disabled := create_disabled f;
       create_text := create_text f |}).

(** [createBtn.disabled = d; createBtn.textContent = text]. *)
Definition setCreateButton (d : bool) (text : jsstring) : M unit :=
  set_form (fun f =>
    {| name_input := name_input f; workspace_value := workspace_value f;
       assignee_value := assignee_value f; due_date := due_date f;
       include_body := include_body f; include_link := include_link f;
       attach_eml := attach_eml f; add_label := add_label f;
       checked_attachments := checked_attachments f;
       project_input := project_input f;
       task_search_input := task_search_input f;
       status := status f;
       create_disabled := d;
       create_text := text |}).

Definition setProjectInput (v : jsstring) : M unit :=
  set_form (fun f =>
    {| name_input := name_input f; workspace_value := workspace_value f;
       assignee_value := assignee_value f; due_date := due_date f;
       include_body := include_body f; include_link := include_link f;
       attach_eml := attach_eml f; add_label := add_label f;
       checked_attachments := checked_attachments f;
       project_input := v;
       task_search_input := task_search_input f;
       status := status f;
       create_disabled := create_disabled f;
       create_text := create_text f |}).

Definition setTaskSearchInput (v : jsstring) : M unit :=
  set_form (fun f =>
    {| name_input := name_input f; workspace_value := workspace_value f;
       assignee_value := assignee_value f; due_date := due_date f;
       include_body := include_body f; include_link := include_link f;
       attach_eml := attach_eml f; add_label := add_label f;
       checked_attachments := checked_attachments f;
       project_input := project_input f;
       task_search_input := v;
       status := status f;
       create_disabled := create_disabled f;
       create_text := create_text f |}).

(** Assignments to the fields of [this]. *)
Definition with_selection (sp : option project) (st : list tag)
    (se : option existingTask) (cf : answer (list customField))
    (cv : gmap jsstring jsstring) (s : selector) : selector :=
  {| email := email s; me := me s; projects := projects s;
     users := users s; tags := tags s; prefs := prefs s;
     selectedProject := sp; selectedTags := st;
     selectedExistingTask := se; customFields := cf;
     customFieldValues := cv; mode := mode s |}.

Definition with_lists (ps : answer (list project)) (us : answer (list user))
    (ts : answer (list tag)) (s : selector) : selector :=
  {| email := email s; me := me s; projects := ps; users := us; tags := ts;
     prefs := prefs s; selectedProject := selectedProject s;
     selectedTags := selectedTags s;
     selectedExistingTask := selectedExistingTask s;
     customFields := customFields s;
     customFieldValues := customFieldValues s; mode := mode s |}.

Definition with_prefs (p : preferences) (s : selector) : selector :=
  {| email := email s; me := me s; projects := projects s;
     users := users s; tags := tags s; prefs := p;
     selectedProject := selectedProject s;
     selectedTags := selectedTags s;
     selectedExistingTask := selectedExistingTask s;
     customFields := customFields s;
     customFieldValues := customFieldValues s; mode := mode s |}.

(** [savePreferences(prefs)], where [update] merges [prefs] into the
    current preferences. *)
Definition savePreferences (update : preferences -> preferences) : M unit :=
  set_this (fun s => with_prefs (update (prefs s)) s);;
  s ← get_this;
  p ← sendMessage (SAVE_PREFERENCES (prefs s));
  await p;;
  mret tt.

(** [loadCustomFields(projectId)]. *)
Definition loadCustomFields (projectId : jsstring) : M unit :=
  try_catch
    (p ← sendMessage (GET_PROJECT_CUSTOM_FIELDS projectId);
     fields ← await p;
     set_this (fun s =>
       with_selection (selectedProject s) (selectedTags s)
         (selectedExistingTask s) fields (customFieldValues s) s);;
     match fields with
     | Data [] => mret tt
     | _ =>
         set_this (fun s =>
           with_selection (selectedProject s) (selectedTags s)
             (selectedExistingTask s) (customFields s) ∅ s);;
         (* renderCustomFields: [this.customFields.map] *)
         match fields with
         | Data _ => mret tt
         | ErrorObject _ =>
             throw (Error (lit "this.customFields.map is not a function"))
         end
     end)
    (fun error => emit (Logged (lit "Error loading custom fields:"))).

(** [selectProject(project)]. *)
Definition selectProject (project : project) : M unit :=
  set_this (fun s =>
    with_selection (Some project) (selectedTags s)
      (selectedExistingTask s) (customFields s) (customFieldValues s) s);;
  setProjectInput (project_name project);;
  detached (savePreferences (set_lastProjectId (project_gid project)));;
  loadCustomFields (project_gid project).

(** [onWorkspaceChange(event, autoSelectDefaults)], where [workspaceId]
    is [event.target.value]. *)
Definition onWorkspaceChange (workspaceId : jsstring)
    (autoSelectDefaults : bool) : M unit :=
  (* Reset selections *)
  set_this (with_selection None [] None (Data []) ∅);;
  (* Clear task search *)
  setTaskSearchInput [];;
  if negb (truthy workspaceId) then
    setProjectInput []
  else
    (* Show loading state *)
    setProjectInput [];;
    try_catch
      (p1 ← sendMessage (GET_PROJECTS workspaceId);
       p2 ← sendMessage (GET_USERS workspaceId);
       p3 ← sendMessage (GET_TAGS workspaceId);
       projects ← await p1;
       users ← await p2;
       tags ← await p3;
       set_this (with_lists projects users tags);;
       (* [projects.length.toString()] *)
       match projects with
       | ErrorObject _ =>
           throw (Error (lit "Cannot read properties of undefined"))
       | Data projects =>
           (* Auto-select default project or restore last used project *)
           s ← get_this;
           let projectToSelect :=
             if autoSelectDefaults && truthy (defaultProject (prefs s))
             then defaultProject (prefs s)
             else lastProjectId (prefs s) in
           (if truthy projectToSelect then
              match find (fun p => str_eqb (project_gid p) projectToSelect)
                      projects with
              | Some project => detached (selectProject project)
              | None => mret tt
              end
            else mret tt);;
           (* Populate assignees: [this.users.filter] *)
           match users with
           | ErrorObject _ =>
               throw (Error (lit "this.users.filter is not a function"))
           | Data _ =>
               (* Save workspace preference *)
               savePreferences (set_lastWorkspaceId workspaceId)
           end
       end)
      (fun error =>
         showStatus (t (lit "errorLoadData") [] ++ lit " " ++ message error)
           (lit "error")).

End Operations.

(** *** Submission *)

(** [escapeHtml]: the serialization of a text node ([div.textContent =
    text; div.innerHTML]) escapes [&], [<], [>] and the no-break space. *)
Definition escape_unit (c : N) : jsstring :=
  if c =? 38 then lit "&amp;"
  else if c =? 60 then lit "&lt;"
  else if c =? 62 then lit "&gt;"
  else if c =? 160 then lit "&nbsp;"
  else [c].

Definition escapeHtml (text : jsstring) : jsstring := flat_map escape_unit text.

(** [s.replace(/\n{3,}/g, '\n\n')]: [pending] line feeds have been read
    and not yet written. *)
Definition flush_newlines (pending : nat) : jsstring :=
  if (3 <=? pending)%nat then [10; 10] else repeat 10 pending.

Fixpoint collapse_newlines_from (pending : nat) (s : jsstring) : jsstring :=
  match s with
  | [] => flush_newlines pending
  | c :: r =>
      if c =? 10 then collapse_newlines_from (S pending) r
      else flush_newlines pending ++ c :: collapse_newlines_from 0 r
  end.

Definition collapse_newlines (s : jsstring) : jsstring :=
  collapse_newlines_from 0 s.

(** The quoted body: [cleanBody]. *)
Definition cleanBody (body : jsstring) : jsstring :=
  trim (collapse_newlines (escapeHtml body)).

(** [s.substring(0, 50).replace(/[^a-zA-Z0-9]/g, '_')]. *)
Definition is_alnum (c : N) : bool :=
  ((48 <=? c) && (c <=? 57)) || ((65 <=? c) && (c <=? 90))
  || ((97 <=? c) && (c <=? 122)).

Definition emlFilename (subject : jsstring) : jsstring :=
  map (fun c => if is_alnum c then c else 95)
    (firstn 50 (or_else subject (lit "email")))
  ++ lit ".eml".

(** A value of a custom field in [customFieldsData]; the number
    [parseFloat(text)] is kept as the text it is parsed from. *)
Definition fieldValue (field : customField) (text : jsstring) : value :=
  if str_eqb (field_type field) (lit "enum") then VStr text
  else if str_eqb (field_type field) (lit "number") then
    VObj [(lit "parseFloat", VStr text)]
  else VStr text.

Section Submission.
Variable t : jsstring -> list jsstring -> jsstring.
Variable env : environment.

(** The sections of the note body of a created task. *)
Definition senderLine (e : emailData) : jsstring :=
  t (lit "from") [] ++ lit " " ++ escapeHtml (sender e) ++ [10].

Definition dateLine (e : emailData) : jsstring :=
  lit "Date: " ++ escapeHtml (date e) ++ [10].

Definition backLink (e : emailData) : jsstring :=
  [10] ++ lit "<a href=" ++ [34] ++ escapeHtml (emailUrl e) ++ [34]
  ++ lit ">Ouvrir dans Gmail</a>" ++ [10].

Definition quotedBody (e : emailData) : jsstring :=
  [10] ++ lit "<blockquote>" ++ cleanBody (body e) ++ lit "</blockquote>".

(** [htmlNotes], as [createTask] builds it. *)
Definition htmlNotes (e : emailData) (includeBody includeLink : bool)
  : jsstring :=
  let htmlNotes := lit "<body>" in
  let htmlNotes :=
    if truthy (sender e) then htmlNotes ++ senderLine e else htmlNotes in
  let htmlNotes :=
    if truthy (date e) then htmlNotes ++ dateLine e else htmlNotes in
  let htmlNotes :=
    if includeLink && truthy (emailUrl e) then htmlNotes ++ backLink e
    else htmlNotes in
  let htmlNotes :=
    if includeBody && truthy (body e) then htmlNotes ++ quotedBody e
    else htmlNotes in
  htmlNotes ++ lit "</body>".

(** [htmlComment], as [addCommentToTask] builds it. *)
Definition htmlComment (e : emailData) (includeBody includeLink : bool)
  : jsstring :=
  let htmlComment := lit "<body>" in
  let htmlComment :=
    htmlComment ++ lit "<strong>"
    ++ escapeHtml (or_else (subject e) (lit "(no subject)"))
    ++ lit "</strong>" in
  let htmlComment :=
    if truthy (sender e) || truthy (date e) then
      let htmlComment := htmlComment ++ [10] in
      let htmlComment :=
        if truthy (sender e) then
          htmlComment ++ lit "De: " ++ escapeHtml (sender e)
        else htmlComment in
      if truthy (date e) then
        htmlComment ++
          (if truthy (sender e) then lit " | " ++ escapeHtml (date e)
           else escapeHtml (date e))
      else htmlComment
    else htmlComment in
  let htmlComment :=
    if includeLink && truthy (emailUrl e) then
      htmlComment ++ [10] ++ lit "<a href=" ++ [34]
      ++ escapeHtml (emailUrl e) ++ [34] ++ lit ">Ouvrir dans Gmail</a>"
    else htmlComment in
  let htmlComment :=
    if includeBody && truthy (body e) then htmlComment ++ quotedBody e
    else htmlComment in
  htmlComment ++ lit "</body>".

(** [downloadAttachment(url)]: the blob, or [null]. *)
Definition downloadAttachment (url : jsstring) : M (option blob) :=
  now ← clock;
  emit (Fetched url);;
  match page_fetch env now url with
  | Ok response =>
      if negb (ok response) then
        emit (Logged (lit "Failed to download attachment:"));;
        mret None
      else
        match Gateway.body response with
        | Ok blob => mret (Some blob)
        | Throw error =>
            emit (Logged (lit "Error downloading attachment:"));;
            mret None
        end
  | Throw error =>
      emit (Logged (lit "Error downloading attachment:"));;
      mret None
  end.

(** [uploadBlobToAsana(taskId, blob, filename)]. *)
Definition uploadBlobToAsana (taskId : value) (blob : blob)
    (filename : jsstring) : M (answer unit) :=
  p ← sendMessage env
        (UPLOAD_ATTACHMENT_BASE64 (uploadMessage taskId blob (VStr filename)));
  response ← await p;
  if truthy (error_of response) then throw (Error (error_of response))
  else mret response.

(** [addGmailLabel()]. *)
Definition addGmailLabel : M unit :=
  now ← clock;
  match label_menu env now with
  | Ok (Some labelItems) =>
      emit (Clicked (lit "Labels"));;
      match find (fun item => includes item (lit "Asana")) labelItems with
      | Some item => emit (Clicked item)
      | None =>
          emit (Clicked (lit "body"));;
          emit (Logged (lit "Asana label not found."))
      end
  | Ok None => mret tt
  | Throw e => emit (Logged (lit "Could not add Gmail label:"))
  end.

(** The block [if (attachEml) { ... }] of both submissions. *)
Definition attachEmlStep (attachEml : bool) (e : emailData) (taskId : value)
  : M unit :=
  if attachEml then
    match emlDownloadUrl e with
    | Some url =>
        if truthy url then
          showStatus (t (lit "attachingEmail") []) (lit "info");;
          try_catch
            (emlBlob ← downloadAttachment url;
             match emlBlob with
             | Some blob =>
                 if (0 <? length (blob_bytes blob))%nat then
                   uploadBlobToAsana taskId blob (emlFilename (subject e));;
                   mret tt
                 else
                   emit (Logged (lit "EML download returned empty or null blob"))
             | None =>
                 emit (Logged (lit "EML download returned empty or null blob"))
             end)
            (fun emlError => emit (Logged (lit "Failed to attach EML:")))
        else emit (Logged (lit "EML URL not available"))
    | None => emit (Logged (lit "EML URL not available"))
    end
  else mret tt.

(** The loop [for (const att of selectedAttachments)]. *)
Fixpoint uploadEach (taskId : value)
    (selectedAttachments : list (jsstring * jsstring)) : M unit :=
  match selectedAttachments with
  | [] => mret tt
  | (url, name) :: rest =>
      (if truthy url then
         try_catch
           (blob ← downloadAttachment url;
            match blob with
            | Some blob => uploadBlobToAsana taskId blob name;; mret tt
            | None => mret tt
            end)
           (fun uploadError =>
              emit (Logged (lit "Failed to upload attachment:")))
       else mret tt);;
      uploadEach taskId rest
  end.

(** The block [if (selectedAttachments.length > 0) { ... }]. *)
Definition uploadAttachmentsStep (taskId : value)
    (selectedAttachments : list (jsstring * jsstring)) : M unit :=
  if (0 <? length selectedAttachments)%nat then
    showStatus
      (t (lit "uploadingAttachments")
         [decimal (Z.of_nat (length selectedAttachments))])
      (lit "info");;
    uploadEach taskId selectedAttachments
  else mret tt.

(** The block [if (addGmailLabel) { ... }]. *)
Definition labelStep (addLabel : bool) : M unit :=
  if addLabel then
    showStatus (t (lit "addingLabel") []) (lit "info");;
    addGmailLabel
  else mret tt.

Definition successStatus (key : string) (taskUrl : jsstring) : jsstring :=
  t (lit key) [] ++ lit " <a href=" ++ [34] ++ taskUrl ++ [34]
  ++ lit " target=" ++ [34] ++ lit "_blank" ++ [34] ++ lit ">"
  ++ t (lit "openInAsana") [] ++ lit "</a>".

(** [customFieldsData]: the entries of [customFieldValues] whose field is
    among [customFields]. *)
Fixpoint customFieldsData (fields : answer (list customField))
    (entries : list (jsstring * jsstring))
  : result (list (jsstring * value)) :=
  match entries with
  | [] => Ok []
  | (fieldId, text) :: rest =>
      match fields with
      | ErrorObject _ =>
          Throw (Error (lit "this.customFields.find is not a function"))
      | Data l =>
          rest' ← customFieldsData fields rest;
          match find (fun f => str_eqb (field_gid f) fieldId) l with
          | Some field => Ok ((fieldId, fieldValue field text) :: rest')
          | None => Ok rest'
          end
      end
  end.

Definition non_empty {A} (l : list A) : option (list A) :=
  match l with [] => None | _ => Some l end.

Definition non_empty_string (s : jsstring) : option jsstring :=
  if truthy s then Some s else None.

(** [addCommentToTask()]. *)
Definition addCommentToTask : M unit :=
  s ← get_this;
  match selectedExistingTask s with
  | None => showStatus (t (lit "noTasksFound") []) (lit "error")
  | Some existing =>
      f ← get_form;
      let includeBody := include_body f in
      let includeLink := include_link f in
      let attachEml := attach_eml f in
      let addLabel := add_label f in
      let selectedAttachments := checked_attachments f in
      setCreateButton true (t (lit "addingComment") []);;
      try_catch
        (showStatus (t (lit "addingComment") []) (lit "info");;
         p ← sendMessage env
               (ADD_COMMENT (task_gid existing) []
                  (htmlComment (email s) includeBody includeLink));
         commentResponse ← await p;
         (if truthy (error_of commentResponse) then
            throw (Error (error_of commentResponse))
          else mret tt);;
         attachEmlStep attachEml (email s) (VStr (task_gid existing));;
         uploadAttachmentsStep (VStr (task_gid existing)) selectedAttachments;;
         labelStep addLabel;;
         let taskUrl := lit "https://app.asana.com/0/0/" ++ task_gid existing in
         showStatus (successStatus "commentAdded" taskUrl) (lit "success");;
         sendMessage env
           (SHOW_NOTIFICATION (t (lit "notificationCommentTitle") [])
              (task_name existing ++ [10] ++ t (lit "clickToOpen") [])
              taskUrl);;
         s' ← get_this;
         if autoClose (prefs s') then emit CloseScheduled else mret tt)
        (fun error =>
           showStatus
             (t (lit "errorCreateTask") [] ++ lit " " ++ message error)
             (lit "error");;
           setCreateButton false (t (lit "addComment") []))
  end.

(** [createTask()]. *)
Definition createTask : M unit :=
  s ← get_this;
  match mode s with
  | comment => addCommentToTask
  | create =>
      f ← get_form;
      let taskName := trim (name_input f) in
      let workspaceId := workspace_value f in
      let assigneeId := assignee_value f in
      let dueDate := due_date f in
      let includeBody := include_body f in
      let includeLink := include_link f in
      let attachEml := attach_eml f in
      let addLabel := add_label f in
      if negb (truthy taskName) then
        showStatus (t (lit "errorEnterTaskName") []) (lit "error")
      else
        match selectedProject s with
        | None => showStatus (t (lit "errorSelectProject") []) (lit "error")
        | Some project =>
            let selectedAttachments := checked_attachments f in
            setCreateButton true (t (lit "creating") []);;
            try_catch
              (showStatus (t (lit "creatingTask") []) (lit "info");;
               let htmlNotes := htmlNotes (email s) includeBody includeLink in
               data ← completes (customFieldsData (customFields s)
                               (map_to_list (customFieldValues s)));
               p ← sendMessage env
                     (CREATE_TASK
                        {| td_projectId := project_gid project;
                           td_workspaceId := workspaceId;
                           td_name := taskName;
                           td_htmlNotes := htmlNotes;
                           td_assignee := non_empty_string assigneeId;
                           td_dueDate := non_empty_string dueDate;
                           td_tags := non_empty (map tag_gid (selectedTags s));
                           td_customFields := non_empty data |});
               taskResponse ← await p;
               (if truthy (error_of taskResponse) then
                  throw (Error (error_of taskResponse))
                else mret tt);;
               let task := taskResponse in
               let gid :=
                 match task with
                 | Data created => VStr (created_gid created)
                 | ErrorObject _ => VUndefined
                 end in
               attachEmlStep attachEml (email s) gid;;
               uploadAttachmentsStep gid selectedAttachments;;
               labelStep addLabel;;
               let taskUrl := lit "https://app.asana.com/0/0/" ++ toString gid in
               showStatus (successStatus "taskCreated" taskUrl) (lit "success");;
               sendMessage env
                 (SHOW_NOTIFICATION (t (lit "notificationTitle") [])
                    (taskName ++ [10] ++ t (lit "clickToOpen") [])
                    taskUrl);;
               s' ← get_this;
               if autoClose (prefs s') then emit CloseScheduled else mret tt)
              (fun error =>
                 showStatus
                   (t (lit "errorCreateTask") [] ++ lit " " ++ message error)
                   (lit "error");;
                 setCreateButton false (t (lit "createTask") []))
        end
  end.

End Submission.

End Composer.

(** ** The DOM extractor ([EmailExtractor])

    The extractor only reads the page.  Its input is modelled by what its
    DOM queries return: for every element that a [querySelectorAll] of the
    source matches, in document order, the values that the source then
    reads from that element (text contents, attributes, the closest
    message container).  A value that is [null] or [undefined] in
    JavaScript is [None]. *)

Module Extractor.

(** A download reference: [null], [undefined], or a string. *)
Inductive reference :=
| Null
| Undefined
| Href (url : jsstring).

Record attachment := Attachment {
  name : jsstring;
  url : reference;
  size : jsstring;
  id : jsstring;
  isCollapsedPlaceholder : bool;
  messageIndex : option nat
}.

(** [x?.textContent?.trim()], as a string that is empty when there is no
    element. *)
Definition trimmed (text : option jsstring) : jsstring :=
  match text with
  | Some s => trim s
  | None => []
  end.

(** [a || b] where [a] may be [null]. *)
Definition or_attr (a : option jsstring) (b : option jsstring)
  : option jsstring :=
  match a with
  | Some s => if truthy s then a else b
  | None => b
  end.

(** An attachment container ([.aZo], [.aQH], [.aQw], ...) as the
    extractor reads it. *)
Record card := Card {
  node : nat;                         (* the element itself *)
  message : option nat;               (* its closest message container *)
  nameText : option jsstring;         (* text of the name element *)
  tooltip : option jsstring;          (* its [data-tooltip] *)
  ariaLabel : option jsstring;        (* [aria-label] of a descendant *)
  downloadHref : option jsstring;     (* [href] of the download link *)
  dataId : option jsstring;           (* its [data-id] *)
  innerDataId : option jsstring;      (* [data-id] of a descendant *)
  sizeText : option jsstring          (* text of the size element *)
}.

Definition attachmentId (n : nat) : jsstring :=
  lit "attachment-" ++ decimal (Z.of_nat n).

Definition ref_truthy (r : reference) : bool :=
  match r with
  | Href s => truthy s
  | _ => false
  end.

(** The URL of a card in the per-message and whole-view extractions:
    the [href] of the download link or, failing that, the URL built from
    the attachment identifier. *)
Definition cardUrl (c : card) : reference :=
  let url :=
    match downloadHref c with
    | Some href => Href href
    | None => Undefined
    end in
  if negb (ref_truthy url) then
    match or_attr (dataId c) (innerDataId c) with
    | Some attachmentId =>
        if truthy attachmentId then
          Href (lit "https://mail.google.com/mail/u/0/?ui=2&ik=&attid="
                ++ attachmentId ++ lit "&disp=safe")
        else url
    | None => url
    end
  else url.

(** [attachments.find(a => a.name === name)], as a test. *)
Definition has_name (n : jsstring) (attachments : list attachment) : bool :=
  existsb (fun a => str_eqb (name a) n) attachments.

(** [getAttachmentsFromMessage(container)]: the body of the [forEach],
    then the loop over the containers of the message. *)
Definition addFromMessage (attachments : list attachment) (c : card)
  : list attachment :=
  let name := or_else (trimmed (nameText c)) (lit "attachment") in
  let url := cardUrl c in
  let size := trimmed (sizeText c) in
  if truthy name && negb (has_name name attachments) then
    attachments ++
      [{| name := name; url := url; size := size;
          id := attachmentId (length attachments);
          isCollapsedPlaceholder := false; messageIndex := None |}]
  else attachments.

Definition getAttachmentsFromMessage (attachmentContainers : list card)
  : list attachment :=
  fold_left addFromMessage attachmentContainers [].

(** [getAttachments()]: the first [forEach], over [.aZo, .aQH]. *)
Definition addFromView (attachments : list attachment) (c : card)
  : list attachment :=
  let name := or_else (trimmed (nameText c)) (lit "attachment") in
  let url := cardUrl c in
  let size := trimmed (sizeText c) in
  if truthy name then
    attachments ++
      [{| name := name; url := url; size := size;
          id := attachmentId (length attachments);
          isCollapsedPlaceholder := false; messageIndex := None |}]
  else attachments.

(** The second [forEach], over the inline attachments [.aQw]; the URL of
    such a card is the [href] of the link around its download button. *)
Definition addInline (attachments : list attachment) (c : card)
  : list attachment :=
  let name := trimmed (nameText c) in
  if truthy name && negb (has_name name attachments) then
    let url :=
      match downloadHref c with
      | Some href => Href href
      | None => Undefined
      end in
    attachments ++
      [{| name := name; url := url; size := [];
          id := attachmentId (length attachments);
          isCollapsedPlaceholder := false; messageIndex := None |}]
  else attachments.

Definition getAttachments (attachmentContainers inlineAttachments : list card)
  : list attachment :=
  fold_left addInline inlineAttachments
    (fold_left addFromView attachmentContainers []).

(** *** The thread scan *)

(** The sender element of a message container or of a collapsed row. *)
Record senderElement := SenderElement {
  emailAttr : option jsstring;
  nameAttr : option jsstring;
  senderText : jsstring
}.

(** A date element. *)
Record dateElement := DateElement {
  titleAttr : option jsstring;
  dateText : jsstring
}.

(** A message container as the extractor reads it: the element of the
    first sender selector that matches, the element of each of the three
    date selectors, and the identifier attributes of the container and of
    its closest ancestors that have them. *)
Record messageNode := MessageNode {
  senderEl : option senderElement;
  dateEls : list (option dateElement);
  messageIdAttr : option jsstring;
  closestMessageIdAttr : option jsstring;
  legacyIdAttr : option jsstring;
  closestLegacyIdAttr : option jsstring
}.

Definition attr_string (a : option jsstring) : jsstring :=
  match a with Some s => s | None => [] end.

(** [getSenderFromMessage(container)]. *)
Definition getSenderFromMessage (container : messageNode) : jsstring :=
  match senderEl container with
  | Some element =>
      let email := attr_string (emailAttr element) in
      let name :=
        or_else (attr_string (nameAttr element)) (trim (senderText element)) in
      if truthy email then
        if truthy name then name ++ lit " <" ++ email ++ lit ">" else email
      else name
  | None => []
  end.

(** [getDateFromMessage(container)]. *)
Fixpoint getDateFrom (elements : list (option dateElement)) : jsstring :=
  match elements with
  | [] => []
  | None :: rest => getDateFrom rest
  | Some element :: rest =>
      if truthy (attr_string (titleAttr element)) then
        attr_string (titleAttr element)
      else if truthy (dateText element) then trim (dateText element)
      else getDateFrom rest
  end.

Definition getDateFromMessage (container : messageNode) : jsstring :=
  getDateFrom (dateEls container).

(** [getMessageIdFromMessage(container)]. *)
Definition getMessageIdFromMessage (container : messageNode) : jsstring :=
  let messageId :=
    attr_string (or_attr (messageIdAttr container)
                   (closestMessageIdAttr container)) in
  if truthy messageId then messageId
  else attr_string (or_attr (legacyIdAttr container)
                      (closestLegacyIdAttr container)).

(** A collapsed row as the extractor reads it. *)
Record row := Row {
  countBadge : option jsstring;       (* text of the count badge *)
  hasClipIcon : bool;
  rowSenderEl : option senderElement;
  spans : list jsstring;              (* texts of its [span]s *)
  rowDateEl : option dateElement
}.

Definition is_digit (c : N) : bool := (48 <=? c) && (c <=? 57).

(** [text.match(/^\d+$/)]. *)
Definition all_digits (text : jsstring) : bool :=
  truthy text && forallb is_digit text.

(** [getSenderFromCollapsed(row)]. *)
Definition getSenderFromCollapsed (r : row) : jsstring :=
  match rowSenderEl r with
  | Some element =>
      or_else (attr_string (nameAttr element))
        (or_else (attr_string (emailAttr element)) (trim (senderText element)))
  | None =>
      match
        find (fun text =>
                truthy text && (2 <? length text)%nat && (length text <? 50)%nat
                && negb (all_digits text) && negb (includes text [64]))
          (map trim (spans r))
      with
      | Some text => text
      | None => []
      end
  end.

(** [getDateFromCollapsed(row)]. *)
Definition getDateFromCollapsed (r : row) : jsstring :=
  match rowDateEl r with
  | Some element =>
      or_else (attr_string (titleAttr element)) (trim (dateText element))
  | None => []
  end.

(** A message of the thread scan. *)
Record threadMessage := ThreadMessage {
  index : nat;
  sender : jsstring;
  date : jsstring;
  messageId : option jsstring;
  attachments : list attachment;
  expanded : bool;
  attachmentCount : option jsstring
}.

(** The page as the thread scan reads it: the attachment containers, the
    message containers by node, and the collapsed rows. *)
Record thread := Thread {
  allAttachmentContainers : list card;
  messageContainer : nat -> messageNode;
  collapsedRows : list row
}.

(** An entry of the map [attachmentsByMessage]; the key is the message
    container, or [None] for ['global']. *)
Record entry := Entry {
  key : option nat;
  entryAttachments : list attachment
}.

Definition key_eqb (a b : option nat) : bool :=
  match a, b with
  | Some x, Some y => (x =? y)%nat
  | None, None => true
  | _, _ => false
  end.

Definition map_has (k : option nat) (m : list entry) : bool :=
  existsb (fun e => key_eqb (key e) k) m.

Definition map_get (k : option nat) (m : list entry) : list attachment :=
  match find (fun e => key_eqb (key e) k) m with
  | Some e => entryAttachments e
  | None => []
  end.

(** [existingAtts.push(att)] on the array of the entry of [k]. *)
Fixpoint map_push (k : option nat) (att : attachment) (m : list entry)
  : list entry :=
  match m with
  | [] => []
  | e :: rest =>
      if key_eqb (key e) k then
        {| key := key e; entryAttachments := entryAttachments e ++ [att] |}
        :: rest
      else e :: map_push k att rest
  end.

(** The name of a card in the thread scan. *)
Definition threadName (c : card) : jsstring :=
  or_else (trimmed (nameText c))
    (or_else (attr_string (tooltip c)) (attr_string (ariaLabel c))).

(** Strategy 1, the body of [allAttachmentContainers.forEach]. *)
Definition groupCard (state : list entry * list nat) (c : card)
  : list entry * list nat :=
  let (attachmentsByMessage, processedContainers) := state in
  if existsb (Nat.eqb (node c)) processedContainers then state
  else
    let messageKey := message c in
    let attachmentsByMessage :=
      if negb (map_has messageKey attachmentsByMessage) then
        attachmentsByMessage
        ++ [{| key := messageKey; entryAttachments := [] |}]
      else attachmentsByMessage in
    let name := threadName c in
    if negb (truthy name) then (attachmentsByMessage, processedContainers)
    else
      let existingAtts := map_get messageKey attachmentsByMessage in
      if has_name name existingAtts then
        (attachmentsByMessage, processedContainers)
      else
        let url := attr_string (downloadHref c) in
        let size := trimmed (sizeText c) in
        (* [{ name, url, size }]: the identifiers are added later *)
        (map_push messageKey
           {| name := name; url := Href url; size := size; id := [];
              isCollapsedPlaceholder := false; messageIndex := None |}
           attachmentsByMessage,
         processedContainers ++ [node c]).

Definition threadAttachmentId (globalIndex attIndex : nat) : jsstring :=
  lit "msg" ++ decimal (Z.of_nat globalIndex) ++ lit "-att"
  ++ decimal (Z.of_nat attIndex).

(** [data.attachments.forEach((att, attIndex) => ...)]. *)
Definition addIds (globalIndex : nat) (atts : list attachment)
  : list attachment :=
  imap (fun attIndex att =>
          {| name := name att; url := url att; size := size att;
             id := threadAttachmentId globalIndex attIndex;
             isCollapsedPlaceholder := isCollapsedPlaceholder att;
             messageIndex := Some globalIndex |}) atts.

(** The body of [attachmentsByMessage.forEach]; the state is [messages]
    and [globalIndex]. *)
Definition convertEntry (page : thread)
    (state : list threadMessage * nat) (data : entry)
  : list threadMessage * nat :=
  let (messages, globalIndex) := state in
  match entryAttachments data with
  | [] => state
  | _ =>
      let '(sender, date, messageId) :=
        match key data with
        | Some container =>
            (getSenderFromMessage (messageContainer page container),
             getDateFromMessage (messageContainer page container),
             Some (getMessageIdFromMessage (messageContainer page container)))
        | None => (lit "Pi" ++ [232] ++ lit "ces jointes", [], None)
        end in
      (messages ++
         [{| index := globalIndex; sender := sender; date := date;
             messageId := messageId;
             attachments := addIds globalIndex (entryAttachments data);
             expanded := true; attachmentCount := None |}],
       S globalIndex)
  end.

Section Scan.
(** The text of the placeholder: [window.i18n.t('collapsedAttachments')],
    or the built-in text when [window.i18n] is missing. *)
Variable placeholderText : jsstring.

(** Strategy 2, the body of [collapsedRows.forEach]. *)
Definition scanRow (state : list threadMessage * nat) (r : row)
  : list threadMessage * nat :=
  let (messages, globalIndex) := state in
  if present (countBadge r) || hasClipIcon r then
    let existingMsg :=
      find (fun m =>
              truthy (sender m)
              && includes (getSenderFromCollapsed r)
                   (hd [] (split 32 (sender m))))
        messages in
    match existingMsg with
    | Some _ => state
    | None =>
        let sender := getSenderFromCollapsed r in
        let date := getDateFromCollapsed r in
        let count := or_else (trimmed (countBadge r)) [63] in
        (messages ++
           [{| index := globalIndex;
               sender := or_else sender (lit "Message repli" ++ [233]);
               date := date;
               messageId := None;
               attachments :=
                 [{| id := lit "msg" ++ decimal (Z.of_nat globalIndex)
                           ++ lit "-collapsed";
                     name := placeholderText ++ lit " (" ++ count ++ lit ")";
                     url := Null;
                     size := [];
                     isCollapsedPlaceholder := true;
                     messageIndex := Some globalIndex |}];
               expanded := false;
               attachmentCount := Some count |}],
         S globalIndex)
    end
  else state.

(** [getAllThreadAttachments()]. *)
Definition getAllThreadAttachments (page : thread) : list threadMessage :=
  let messages := [] in
  let globalIndex := 0%nat in
  let '(attachmentsByMessage, _) :=
    fold_left groupCard (allAttachmentContainers page) ([], []) in
  let state :=
    fold_left (convertEntry page) attachmentsByMessage
      (messages, globalIndex) in
  fst (fold_left scanRow (collapsedRows page) state).

End Scan.

(** *** Recipients *)

(** A recipient: [{ name, email }]. *)
Record recipient := Recipient {
  recipientName : jsstring;
  recipientEmail : jsstring
}.

(** [recipients.find(r => r.email === email)], as a test. *)
Definition has_email (email : jsstring) (recipients : list recipient) : bool :=
  existsb (fun r => str_eqb (recipientEmail r) email) recipients.

(** The body of [elements.forEach] in [getRecipients]; an element is read
    like a sender element (its attributes [email] and [name], its text). *)
Definition addRecipient (recipients : list recipient) (el : senderElement)
  : list recipient :=
  let email := attr_string (emailAttr el) in
  let name := or_else (attr_string (nameAttr el)) (trim (senderText el)) in
  if truthy email && negb (has_email email recipients) then
    recipients ++ [{| recipientName := name; recipientEmail := email |}]
  else recipients.

(** [getRecipients()], given the elements that each of its selectors
    matches, in the order of the selectors. *)
Definition getRecipients (matched : list (list senderElement))
  : list recipient :=
  fold_left (fun recipients elements => fold_left addRecipient elements recipients)
    matched [].

(** *** The flat list *)

(** An entry of [getAllAttachmentsFlat]: the attachment with the sender,
    the date and the identifier of its message. *)
Record flatAttachment := FlatAttachment {
  flatEntry : attachment;
  flatSender : jsstring;
  flatDate : jsstring;
  flatMessageId : option jsstring
}.

(** The two nested [forEach] of [getAllAttachmentsFlat]. *)
Definition flatten (threadMessages : list threadMessage)
  : list flatAttachment :=
  flat_map (fun msg =>
              map (fun att =>
                     {| flatEntry := att; flatSender := sender msg;
                        flatDate := date msg; flatMessageId := messageId msg |})
                (attachments msg))
    threadMessages.

(** [getAllAttachmentsFlat()]. *)
Definition getAllAttachmentsFlat (placeholderText : jsstring) (page : thread)
  : list flatAttachment :=
  flatten (getAllThreadAttachments placeholderText page).

End Extractor.

(** ** The host page, as the injector sees it

    The page is the list of its nodes in document order.  Each node
    carries its identity, the identities of its ancestors (nearest first),
    for an element its classes and attributes, for a text node its data,
    and for an element on which the injector has put its click listener
    the message container that the listener hands to [handleButtonClick]
    ([None] for [null]).  Text nodes match no selector.  Nodes are never
    removed or moved by the injector, so the fields of a node do not
    change. *)

Module Dom.

Record node := Node {
  eid : nat;
  path : list nat;
  isText : bool;
  classes : list string;
  attributes : list (string * jsstring);
  data : jsstring;
  listener : option (option nat)
}.

Definition document := list node.

(** The selectors that the injector uses: compound selectors made of
    class tests [.c], attribute tests [[a="v"]] and [[a]], a compound
    selector under an ancestor ([A B]), and lists of those ([X, Y]). *)
Inductive simple :=
| Class (c : string)
| AttrIs (a : string) (v : jsstring)
| HasAttr (a : string).

Definition compound := list simple.

Inductive complex :=
| Just (c : compound)
| Inside (ancestor : compound) (c : compound).

Definition selector := list complex.

Definition getAttribute (a : string) (e : node) : option jsstring :=
  option_map snd (find (fun kv => String.eqb (fst kv) a) (attributes e)).

Definition matches_simple (e : node) (s : simple) : bool :=
  match s with
  | Class c => existsb (String.eqb c) (classes e)
  | AttrIs a v =>
      match getAttribute a e with
      | Some v' => str_eqb v' v
      | None => false
      end
  | HasAttr a => present (getAttribute a e)
  end.

Definition matches_compound (e : node) (c : compound) : bool :=
  negb (isText e) && forallb (matches_simple e) c.

Definition lookup (D : document) (i : nat) : option node :=
  find (fun e => (eid e =? i)%nat) D.

(** The nodes of the page with the given identities. *)
Fixpoint nodes_of (D : document) (ids : list nat) : list node :=
  match ids with
  | [] => []
  | i :: rest =>
      match lookup D i with
      | Some e => e :: nodes_of D rest
      | None => nodes_of D rest
      end
  end.

(** The ancestors of a node, nearest first. *)
Definition ancestors (D : document) (e : node) : list node :=
  nodes_of D (path e).

Definition matches_complex (D : document) (e : node) (x : complex) : bool :=
  match x with
  | Just c => matches_compound e c
  | Inside a c =>
      matches_compound e c
      && existsb (fun ancestor => matches_compound ancestor a) (ancestors D e)
  end.

(** [e.matches(sel)]. *)
Definition matches (D : document) (sel : selector) (e : node) : bool :=
  existsb (matches_complex D e) sel.

(** [e] is a descendant of the node [root]. *)
Definition descends (root : nat) (e : node) : bool :=
  existsb (Nat.eqb root) (path e).

(** [document.querySelectorAll(sel)]. *)
Definition querySelectorAll (D : document) (sel : selector) : list node :=
  List.filter (matches D sel) D.

(** [root.querySelector(sel)]. *)
Definition querySelector (D : document) (root : node) (sel : selector)
  : option node :=
  find (fun e => descends (eid root) e && matches D sel e) D.

(** [e.closest(sel)]. *)
Definition closest (D : document) (e : node) (sel : selector) : option node :=
  find (matches D sel) (e :: ancestors D e).

(** [e.parentElement]. *)
Definition parentElement (D : document) (e : node) : option node :=
  match path e with
  | [] => None
  | p :: _ => lookup D p
  end.

(** [e.firstChild]. *)
Definition firstChild (D : document) (e : node) : option node :=
  find (fun c => match path c with
                 | p :: _ => (p =? eid e)%nat
                 | [] => false
                 end) D.

(** [a || b] on nodes that may be [null]. *)
Definition or_node (a b : option node) : option node :=
  match a with
  | Some _ => a
  | None => b
  end.

(** An identity that no node of the page has or mentions; the identities
    above it are unused too. *)
Definition fresh (D : document) : nat :=
  S (list_max (flat_map (fun e => eid e :: path e) D)).

(** [ref.parentNode.insertBefore(x, ref)], where [xs] is the node [x]
    followed by its descendants: [x] becomes the sibling just before
    [ref]. *)
Fixpoint insert_before (xs : list node) (ref : nat) (D : document)
  : document :=
  match D with
  | [] => []
  | e :: rest =>
      if (eid e =? ref)%nat then xs ++ e :: rest
      else e :: insert_before xs ref rest
  end.

Definition in_subtree (p : nat) (e : node) : bool :=
  (eid e =? p)%nat || descends p e.

(** [p.appendChild(x)], where [xs] is the node [x] followed by its
    descendants: [x] comes after the last node of the subtree of [p]. *)
Fixpoint insert_after_subtree (xs : list node) (p : nat) (D : document)
  : document :=
  match D with
  | [] => []
  | e :: rest =>
      if existsb (in_subtree p) rest then e :: insert_after_subtree xs p rest
      else if in_subtree p e then e :: xs ++ rest
      else e :: rest
  end.

(** A new subtree is made for the place where it goes (the ancestors of
    its root) from an unused identity. *)
Definition insertBefore (D : document) (make : list nat -> nat -> list node)
    (ref : node) : document :=
  insert_before (make (path ref) (fresh D)) (eid ref) D.

Definition appendChild (D : document) (make : list nat -> nat -> list node)
    (parent : node) : document :=
  insert_after_subtree (make (eid parent :: path parent) (fresh D))
    (eid parent) D.

End Dom.

(** ** The injector ([GmailInjector]) *)

Module Injector.
Import Dom.

(** The page and the set [injectedButtons] (a [WeakSet] of containers,
    here the set of their identities). *)
Record injector := Injector {
  dom : document;
  injectedButtons : gset nat
}.

(** An element that [innerHTML] creates from [<span class="c">]. *)
Definition span (i : nat) (ancestors : list nat) (c : string) : node :=
  {| eid := i; path := ancestors; isText := false; classes := [c];
     attributes := []; data := []; listener := None |}.

(** A text node. *)
Definition text (i : nat) (ancestors : list nat) (s : jsstring) : node :=
  {| eid := i; path := ancestors; isText := true; classes := [];
     attributes := []; data := s; listener := None |}.

Section Injection.
(** [this.t('createAsanaTask')]. *)
Variable label : jsstring.

(** [createAsanaButton(null)]: the button, and the nodes that its
    [innerHTML] gives it, in document order (the text nodes between the
    spans are the line breaks and the indentation of the template). *)
Definition createAsanaButton (ancestors : list nat) (i : nat) : list node :=
  [{| eid := i; path := ancestors; isText := false;
      classes := ["asana-gmail-btn"; "T-I"; "J-J5-Ji"]%string;
      attributes :=
        [("role", lit "button"); ("tabindex", lit "0");
         ("data-tooltip", label); ("aria-label", label)]%string;
      data := []; listener := Some None |};
   text (i + 1) (i :: ancestors) (10 :: lit "      ");
   span (i + 2) (i :: ancestors) "asana-gmail-btn-icon";
   text (i + 3) (i :: ancestors) (10 :: lit "      ");
   span (i + 4) (i :: ancestors) "asana-gmail-btn-text";
   text (i + 5) ((i + 4)%nat :: i :: ancestors) (lit "Asana");
   text (i + 6) (i :: ancestors) (10 :: lit "    ")].

(** [createMiniAsanaButton(messageContainer)]. *)
Definition createMiniAsanaButton (messageContainer : node)
    (ancestors : list nat) (i : nat) : list node :=
  [{| eid := i; path := ancestors; isText := false;
      classes := ["asana-gmail-btn-mini"]%string;
      attributes :=
        [("role", lit "button"); ("tabindex", lit "0");
         ("data-tooltip", label); ("aria-label", label);
         ("title", label)]%string;
      data := []; listener := Some (Some (eid messageContainer)) |};
   span (i + 1) (i :: ancestors) "asana-mini-icon";
   text (i + 2) ((i + 1)%nat :: i :: ancestors) (lit "A")].

Definition class (c : string) : selector := [Just [Class c]].

Definition toolbarSelectors : list selector :=
  [class "ade"; class "G-atb"; [Just [AttrIs "gh" (lit "mtb")]]].

Definition marked (st : injector) (container : node) : bool :=
  bool_decide (eid container ∈ injectedButtons st).

Definition mark (container : node) (D : document) (st : injector) : injector :=
  {| dom := D; injectedButtons := injectedButtons st ∪ {[eid container]} |}.

(** The body of [toolbars.forEach]. *)
Definition injectToolbar (st : injector) (toolbar : node) : injector :=
  if marked st toolbar then st
  else if present (querySelector (dom st) toolbar (class "asana-gmail-btn"))
  then st
  else
    let insertPoint :=
      or_node (querySelector (dom st) toolbar (class "T-I"))
        (firstChild (dom st) toolbar) in
    match insertPoint with
    | Some insertPoint =>
        mark toolbar (insertBefore (dom st) createAsanaButton insertPoint) st
    | None => st
    end.

(** [injectToolbarButtons()]. *)
Definition injectToolbarButtons (st : injector) : injector :=
  fold_left
    (fun st selector =>
       let toolbars := querySelectorAll (dom st) selector in
       fold_left injectToolbar toolbars st)
    toolbarSelectors st.

(** [x?.parentElement]. *)
Definition parentOf (D : document) (x : option node) : option node :=
  match x with
  | Some e => parentElement D e
  | None => None
  end.

(** Strategy 1: where the button of an expanded message goes. *)
Definition actionsAreaOfExpanded (D : document) (messageContainer : node)
  : option node :=
  let headerArea :=
    or_node (querySelector D messageContainer
               [Just [Class "gE"; Class "iv"; Class "gt"]])
      (or_node (querySelector D messageContainer (class "gH"))
         (querySelector D messageContainer (class "h7"))) in
  match headerArea with
  | None => None
  | Some headerArea =>
      let actionsArea :=
        or_node (querySelector D headerArea (class "bGI"))
          (or_node (querySelector D headerArea
                      [Just [Class "adf"; Class "ads"]])
             (or_node (querySelector D messageContainer (class "amn"))
                (or_node
                   (parentOf D
                      (querySelector D messageContainer
                         [Just [AttrIs "data-tooltip" (lit "More")]]))
                   (parentOf D
                      (querySelector D messageContainer
                         [Just [AttrIs "aria-label" (lit "More")]]))))) in
      match actionsArea with
      | Some _ => actionsArea
      | None =>
          let dateElement :=
            or_node (querySelector D headerArea (class "g3"))
              (querySelector D headerArea
                 [Inside [Class "gH"] [Class "gK"]]) in
          parentOf D dateElement
      end
  end.

Definition hasMini (D : document) (container : node) : bool :=
  present (querySelector D container (class "asana-gmail-btn-mini")).

(** The body of [expandedMessages.forEach]. *)
Definition injectExpanded (st : injector) (messageContainer : node)
  : injector :=
  if marked st messageContainer then st
  else if hasMini (dom st) messageContainer then st
  else
    match actionsAreaOfExpanded (dom st) messageContainer with
    | Some actionsArea =>
        mark messageContainer
          (appendChild (dom st) (createMiniAsanaButton messageContainer)
             actionsArea) st
    | None => st
    end.

(** Strategy 2: where the button of a message with an identifier goes. *)
Definition actionsAreaOfIdentified (D : document) (messageContainer : node)
  : option node :=
  or_node (querySelector D messageContainer (class "bGI"))
    (or_node (querySelector D messageContainer
                [Just [Class "adf"; Class "ads"]])
       (parentOf D
          (querySelector D messageContainer
             [Just [AttrIs "data-tooltip" (lit "More")]]))).

(** The body of [messageContainers.forEach]. *)
Definition injectIdentified (st : injector) (messageContainer : node)
  : injector :=
  if marked st messageContainer then st
  else if hasMini (dom st) messageContainer then st
  else
    match actionsAreaOfIdentified (dom st) messageContainer with
    | Some actionsArea =>
        mark messageContainer
          (appendChild (dom st) (createMiniAsanaButton messageContainer)
             actionsArea) st
    | None => st
    end.

(** Strategy 3: the message container of a sender element, and the row
    of the sender. *)
Definition containerOfSender (D : document) (senderEl : node) : option node :=
  or_node (closest D senderEl (class "gs"))
    (or_node (closest D senderEl [Just [HasAttr "data-message-id"]])
       (closest D senderEl (class "gE"))).

Definition rowOfSender (D : document) (senderEl : node) : option node :=
  or_node (closest D senderEl (class "gH"))
    (or_node (closest D senderEl (class "h7")) (parentElement D senderEl)).

(** The body of [senderElements.forEach]. *)
Definition injectSender (st : injector) (senderEl : node) : injector :=
  match containerOfSender (dom st) senderEl with
  | None => st
  | Some messageContainer =>
      if marked st messageContainer then st
      else if hasMini (dom st) messageContainer then st
      else
        match rowOfSender (dom st) senderEl with
        | Some senderRow =>
            mark messageContainer
              (appendChild (dom st) (createMiniAsanaButton messageContainer)
                 senderRow) st
        | None => st
        end
  end.

(** [injectMessageButtons()]. *)
Definition injectMessageButtons (st : injector) : injector :=
  let expandedMessages := querySelectorAll (dom st) (class "gs") in
  let st := fold_left injectExpanded expandedMessages st in
  let messageContainers :=
    querySelectorAll (dom st) [Just [HasAttr "data-message-id"]] in
  let st := fold_left injectIdentified messageContainers st in
  let senderElements :=
    querySelectorAll (dom st)
      [Inside [Class "gE"] [Class "gD"]; Inside [Class "gH"] [Class "gD"]] in
  fold_left injectSender senderElements st.

(** [injectButtons()]: one injection pass. *)
Definition injectButtons (st : injector) : injector :=
  injectMessageButtons (injectToolbarButtons st).

End Injection.

(** The trigger elements of a page. *)
Definition is_trigger (e : node) : bool :=
  matches_compound e [Class "asana-gmail-btn"]
  || matches_compound e [Class "asana-gmail-btn-mini"].

Definition triggers (D : document) : list node := List.filter is_trigger D.

End Injector.

(** ** The Asana client ([src/lib/asana-client.js], the exported functions)

    The client reads the token from the extension's storage and talks to
    the Asana API through [fetch].  A computation of the client gives the
    requests it makes, in order, and completes or throws.  Identifiers
    and texts are JSON values as the message carries them; they enter the
    URLs through [ToString], as template literals do. *)

Module Client.
Import Binary Gateway.

Definition ASANA_API_BASE : jsstring := lit "https://app.asana.com/api/1.0".

(** The body of a request: none, [JSON.stringify] of a value, or a
    [FormData] with one file. *)
Inductive content :=
| NoBody
| Json (v : value)
| FormFile (file : blob) (filename : value).

(** A call of [fetch]; [GET] is the method when none is given. *)
Record request := Request {
  req_url : jsstring;
  req_method : jsstring;
  authorization : jsstring;
  contentType : option jsstring;
  payload : content
}.

(** A response: [response.ok], [response.status] and the outcome of
    [response.json()]. *)
Record reply := Reply {
  reply_ok : bool;
  reply_status : N;
  json : result value
}.

(** The outside of the client: the stored token ([data.asanaToken] of
    [chrome.storage.local.get('asanaToken')]), [fetch], and
    [encodeURIComponent], which throws on a lone surrogate. *)
Record network := Network {
  asanaToken : result value;
  http : request -> result reply;
  encodeURIComponent : jsstring -> result jsstring
}.

(** Computations: the requests made, and the completion. *)
Definition C (A : Type) : Type := (list request * result A)%type.

#[export] Instance C_ret : MRet C := fun A a => ([], Ok a).
#[export] Instance C_bind : MBind C := fun A B k m =>
  match m with
  | (made, Ok a) => let (more, r) := k a in (made ++ more, r)
  | (made, Throw e) => (made, Throw e)
  end.

Definition raise {A} (e : exn) : C A := ([], Throw e).
Definition lift {A} (r : result A) : C A := ([], r).

(** [try { body } catch (error) { handler }]. *)
Definition attempt {A} (body : C A) (handler : exn -> C A) : C A :=
  match body with
  | (made, Ok a) => (made, Ok a)
  | (made, Throw e) => let (more, r) := handler e in (made ++ more, r)
  end.

Definition nullish (v : value) : bool :=
  match v with
  | VUndefined | VNull => true
  | _ => false
  end.

(** [v[0]]. *)
Definition index0 (v : value) : value :=
  match v with
  | VArr (x :: _) => x
  | VStr (c :: _) => VStr [c]
  | VObj fs => assoc (lit "0") fs
  | _ => VUndefined
  end.

(** [a || b] on values. *)
Definition or_value (a b : value) : value := if is_truthy a then a else b.

(** [error.errors?.[0]?.message]. *)
Definition firstErrorMessage (error : value) : result value :=
  errors ← get "errors" error;
  if nullish errors then Ok VUndefined
  else
    let first := index0 errors in
    if nullish first then Ok VUndefined else Ok (prop "message" first).

Definition tokenMissing : jsstring :=
  lit "Token Asana non configur" ++ [233] ++ lit ". Cliquez sur l'ic" ++ [244]
  ++ lit "ne de l'extension pour le configurer.".

Section Calls.
Variable net : network.

Definition getToken : C value := lift (asanaToken net).

Definition send (r : request) : C reply := ([r], http net r).

(** [asanaFetch(endpoint, options)]. *)
Definition asanaFetch (endpoint method : jsstring) (body : content) : C value :=
  token ← getToken;
  if negb (is_truthy token) then raise (Error tokenMissing)
  else
    response ← send {| req_url := ASANA_API_BASE ++ endpoint;
                       req_method := method;
                       authorization := lit "Bearer " ++ toString token;
                       contentType := Some (lit "application/json");
                       payload := body |};
    if negb (reply_ok response) then
      error ← lift (match json response with
                    | Ok v => Ok v
                    | Throw _ => Ok (VObj [])
                    end);
      text ← lift (firstErrorMessage error);
      raise (Error (if is_truthy text then toString text
                    else lit "Asana API error: "
                         ++ decimal (Z.of_N (reply_status response))))
    else lift (json response).

(** [checkSession()]. *)
Definition checkSession : C value :=
  attempt
    (token ← getToken;
     if negb (is_truthy token) then
       mret (VObj [(lit "loggedIn", VBool false);
                   (lit "error", VStr (lit "Token non configur" ++ [233]));
                   (lit "needsSetup", VBool true)])
     else
       result ← asanaFetch (lit "/users/me") (lit "GET") NoBody;
       user ← lift (get "data" result);
       mret (VObj [(lit "loggedIn", VBool true); (lit "user", user)]))
    (fun error =>
       mret (VObj [(lit "loggedIn", VBool false);
                   (lit "error", VStr (message error))])).

(** [getWorkspaces()]. *)
Definition getWorkspaces : C value :=
  result ← asanaFetch (lit "/workspaces") (lit "GET") NoBody;
  lift (get "data" result).

(** [data.filter(project => !project.archived)]. *)
Fixpoint keepActive (items : list value) : result (list value) :=
  match items with
  | [] => Ok []
  | project :: rest =>
      archived ← get "archived" project;
      rest' ← keepActive rest;
      Ok (if is_truthy archived then rest' else project :: rest')
  end.

(** [getProjects(workspaceId)]. *)
Definition getProjects (workspaceId : value) : C value :=
  result ← asanaFetch
             (lit "/workspaces/" ++ toString workspaceId
              ++ lit "/projects?opt_fields=name,archived")
             (lit "GET") NoBody;
  data ← lift (get "data" result);
  match data with
  | VArr items => items' ← lift (keepActive items); mret (VArr items')
  | _ => raise (Error (lit "result.data.filter is not a function"))
  end.

(** [getUsers(workspaceId)]. *)
Definition getUsers (workspaceId : value) : C value :=
  result ← asanaFetch
             (lit "/workspaces/" ++ toString workspaceId
              ++ lit "/users?opt_fields=name,email,photo")
             (lit "GET") NoBody;
  lift (get "data" result).

(** [getTags(workspaceId)]. *)
Definition getTags (workspaceId : value) : C value :=
  result ← asanaFetch
             (lit "/workspaces/" ++ toString workspaceId
              ++ lit "/tags?opt_fields=name,color")
             (lit "GET") NoBody;
  lift (get "data" result).

(** The argument of [createTask], as the composer sends it: [tags] is
    [null] or an array, [customFields] is [null] or an object given by its
    own keys; the other fields are any values. *)
Record taskInput := TaskInput {
  projectId : value;
  name : value;
  notes : value;
  htmlNotes : value;
  workspaceId : value;
  assignee : value;
  dueDate : value;
  tags : option (list value);
  customFields : option (list (jsstring * value))
}.

(** The object [taskData] that [createTask] builds. *)
Definition taskDataOf (i : taskInput) : list (jsstring * value) :=
  [(lit "name", name i);
   (lit "projects", VArr [projectId i]);
   (lit "workspace", workspaceId i)]
  ++ (if is_truthy (htmlNotes i) then [(lit "html_notes", htmlNotes i)]
      else if is_truthy (notes i) then [(lit "notes", notes i)]
      else [])
  ++ (if is_truthy (assignee i) then [(lit "assignee", assignee i)] else [])
  ++ (if is_truthy (dueDate i) then [(lit "due_on", dueDate i)] else [])
  ++ match tags i with
     | Some (t :: ts) => [(lit "tags", VArr (t :: ts))]
     | _ => []
     end
  ++ match customFields i with
     | Some (f :: fs) => [(lit "custom_fields", VObj (f :: fs))]
     | _ => []
     end.

(** [createTask(taskData)]. *)
Definition createTask (i : taskInput) : C value :=
  result ← asanaFetch (lit "/tasks") (lit "POST")
             (Json (VObj [(lit "data", VObj (taskDataOf i))]));
  lift (get "data" result).

(** [uploadAttachment(taskId, file, filename)]. *)
Definition uploadAttachment (taskId : value) (file : blob) (filename : value)
  : C value :=
  token ← getToken;
  if negb (is_truthy token) then
    raise (Error (lit "Token Asana non configur" ++ [233]))
  else
    response ← send {| req_url := ASANA_API_BASE ++ lit "/tasks/"
                                  ++ toString taskId ++ lit "/attachments";
                       req_method := lit "POST";
                       authorization := lit "Bearer " ++ toString token;
                       contentType := None;
                       payload := FormFile file filename |};
    if negb (reply_ok response) then
      error ← lift (match json response with
                    | Ok v => Ok v
                    | Throw _ => Ok (VObj [])
                    end);
      text ← lift (firstErrorMessage error);
      raise (Error (if is_truthy text then toString text
                    else lit "Upload error: "
                         ++ decimal (Z.of_N (reply_status response))))
    else lift (json response).

(** [searchTasks(workspaceId, query)], for a query that is a string. *)
Definition searchTasks (workspaceId : value) (query : jsstring) : C value :=
  if negb (truthy query) || (length query <? 2)%nat then mret (VArr [])
  else
    encoded ← lift (encodeURIComponent net query);
    result ← asanaFetch
               (lit "/workspaces/" ++ toString workspaceId
                ++ lit "/typeahead?resource_type=task&query=" ++ encoded
                ++ lit "&opt_fields=name,completed,assignee.name,projects.name")
               (lit "GET") NoBody;
    lift (get "data" result).

(** [addComment(taskId, text, htmlText = null)]. *)
Definition addComment (taskId text htmlText : value) : C value :=
  let data :=
    if is_truthy htmlText then VObj [(lit "html_text", htmlText)]
    else VObj [(lit "text", text)] in
  result ← asanaFetch (lit "/tasks/" ++ toString taskId ++ lit "/stories")
             (lit "POST") (Json (VObj [(lit "data", data)]));
  lift (get "data" result).

(** The object that [getProjectCustomFields] makes of a setting. *)
Definition fieldOfSetting (setting : value) : result value :=
  custom_field ← get "custom_field" setting;
  gid ← get "gid" custom_field;
  Ok (VObj [(lit "gid", gid);
            (lit "name", prop "name" custom_field);
            (lit "type",
             or_value (prop "resource_subtype" custom_field)
               (prop "type" custom_field));
            (lit "enumOptions",
             or_value (prop "enum_options" custom_field) (VArr []))]).

Fixpoint fieldsOfSettings (settings : list value) : result (list value) :=
  match settings with
  | [] => Ok []
  | setting :: rest =>
      field ← fieldOfSetting setting;
      rest' ← fieldsOfSettings rest;
      Ok (field :: rest')
  end.

(** [getProjectCustomFields(projectId)]. *)
Definition getProjectCustomFields (projectId : value) : C value :=
  result ← asanaFetch
             (lit "/projects/" ++ toString projectId
              ++ lit "?opt_fields=custom_field_settings.custom_field.name,custom_field_settings.custom_field.type,custom_field_settings.custom_field.enum_options,custom_field_settings.custom_field.resource_subtype")
             (lit "GET") NoBody;
  data ← lift (get "data" result);
  settings ← lift (get "custom_field_settings" data);
  if negb (is_truthy settings) then mret (VArr [])
  else
    match settings with
    | VArr items => fields ← lift (fieldsOfSettings items); mret (VArr fields)
    | _ => raise (Error (lit "custom_field_settings.map is not a function"))
    end.

(** [getTask(taskId)]. *)
Definition getTask (taskId : value) : C value :=
  result ← asanaFetch
             (lit "/tasks/" ++ toString taskId
              ++ lit "?opt_fields=name,notes,completed,assignee.name,projects.name,permalink_url")
             (lit "GET") NoBody;
  lift (get "data" result).

End Calls.

(** The calls of the client that reach the API. *)
Inductive call :=
| CheckSession
| GetWorkspaces
| GetProjects (workspaceId : value)
| GetUsers (workspaceId : value)
| GetTags (workspaceId : value)
| CreateTask (input : taskInput)
| UploadAttachment (taskId : value) (file : blob) (filename : value)
| SearchTasks (workspaceId : value) (query : jsstring)
| AddComment (taskId text htmlText : value)
| GetProjectCustomFields (projectId : value)
| GetTask (taskId : value).

Definition run (net : network) (c : call) : C value :=
  match c with
  | CheckSession => checkSession net
  | GetWorkspaces => getWorkspaces net
  | GetProjects w => getProjects net w
  | GetUsers w => getUsers net w
  | GetTags w => getTags net w
  | CreateTask i => createTask net i
  | UploadAttachment t f n => uploadAttachment net t f n
  | SearchTasks w q => searchTasks net w q
  | AddComment t x h => addComment net t x h
  | GetProjectCustomFields p => getProjectCustomFields net p
  | GetTask t => getTask net t
  end.

End Client.

(** ** Notifications ([showNotification] and the service worker's
    [chrome.notifications.onClicked] listener) *)

Module Notifications.
Import Gateway.

(** What the browser holds for the extension: the local storage, the URLs
    of the tabs it was asked to open, the notifications created (with
    their title and message) and the identifiers cleared. *)
Record browser := Browser {
  storage : gmap jsstring value;
  tabs : list jsstring;
  notifications : list (jsstring * value * value);
  cleared : list jsstring
}.

(** The storage key [`notification_${notificationId}`]. *)
Definition notificationKey (notificationId : jsstring) : jsstring :=
  lit "notification_" ++ notificationId.

(** [showNotification(title, message, url)], where [notificationId] is
    the identifier that the browser gives to the notification it creates
    and passes to the callback. *)
Definition showNotification (notificationId : jsstring)
    (title message url : value) (b : browser) : browser :=
  {| storage :=
       if is_truthy url then <[notificationKey notificationId := url]> (storage b)
       else storage b;
     tabs := tabs b;
     notifications := notifications b ++ [(notificationId, title, message)];
     cleared := cleared b |}.

(** The listener of [chrome.notifications.onClicked].  [chrome.tabs.create]
    accepts a URL that is a string and throws for another value. *)
Definition onClicked (notificationId : jsstring) (b : browser)
  : result browser :=
  let url :=
    match storage b !! notificationKey notificationId with
    | Some v => v
    | None => VUndefined
    end in
  if is_truthy url then
    match url with
    | VStr address =>
        Ok {| storage := delete (notificationKey notificationId) (storage b);
              tabs := tabs b ++ [address];
              notifications := notifications b;
              cleared := cleared b ++ [notificationId] |}
    | _ => Throw (Error (lit "Error in invocation of tabs.create"))
    end
  else
    Ok {| storage := storage b;
          tabs := tabs b;
          notifications := notifications b;
          cleared := cleared b ++ [notificationId] |}.

End Notifications.

(** ** The modal of the composer: tag picker and message headers

    The functions of [ProjectSelector] below change or read the draft and
    then render; what they do to the draft and what they compute is
    modelled, the rendering into the modal is left out. *)

Module Widgets.
Import Composer.

(** [this.selectedTags.find(t => t.gid === gid)], as a test. *)
Definition hasTag (gid : jsstring) (selectedTags : list tag) : bool :=
  existsb (fun t => str_eqb (tag_gid t) gid) selectedTags.

(** [addTag(tag)]: the new value of [this.selectedTags]. *)
Definition addTag (chosen : tag) (selectedTags : list tag) : list tag :=
  if hasTag (tag_gid chosen) selectedTags then selectedTags
  else selectedTags ++ [chosen].

(** [removeTag(tag)]: the new value of [this.selectedTags]. *)
Definition removeTag (chosen : tag) (selectedTags : list tag) : list tag :=
  List.filter (fun t => negb (str_eqb (tag_gid t) (tag_gid chosen)))
    selectedTags.

(** The tags offered by the dropdown after a change:
    [this.tags.filter(t => !this.selectedTags.find(s => s.gid === t.gid))]. *)
Definition availableTags (tags selectedTags : list tag) : list tag :=
  List.filter (fun t => negb (hasTag (tag_gid t) selectedTags)) tags.

(** What the user does to the selected tags: a click on a tag of the
    dropdown, a click on the cross of a chip, the key [Backspace] in the
    input, whose text is given, and a change of workspace. *)
Inductive tagAction :=
| ClickTag (item : tag)
| ClickRemove (chip : tag)
| Backspace (inputValue : jsstring)
| ChangeWorkspace.

(** The handlers of these actions.  The dropdown lists tags of
    [this.tags]; the handler of a click looks the tag up there by its
    identifier and does nothing when it is not found. *)
Definition tagStep (tags : list tag) (selectedTags : list tag)
    (a : tagAction) : list tag :=
  match a with
  | ClickTag item =>
      match find (fun t => str_eqb (tag_gid t) (tag_gid item)) tags with
      | Some found => addTag found selectedTags
      | None => selectedTags
      end
  | ClickRemove chip =>
      match find (fun t => str_eqb (tag_gid t) (tag_gid chip)) selectedTags with
      | Some found => removeTag found selectedTags
      | None => selectedTags
      end
  | Backspace inputValue =>
      if str_eqb inputValue [] && (0 <? length selectedTags)%nat then
        match last selectedTags with
        | Some latest => removeTag latest selectedTags
        | None => selectedTags
        end
      else selectedTags
  | ChangeWorkspace => []
  end.

(** [sender.match(/^([^<]+)/)]: the longest prefix without [<]; the match
    fails when that prefix is empty. *)
Fixpoint beforeAngle (s : jsstring) : jsstring :=
  match s with
  | c :: r => if c =? 60 then [] else c :: beforeAngle r
  | [] => []
  end.

(** [extractSenderName(sender)]. *)
Definition extractSenderName (sender : jsstring) : jsstring :=
  if negb (truthy sender) then []
  else
    let name := beforeAngle sender in
    if truthy name && truthy (trim name) then trim name
    else
      (* [sender.replace(/<|>/g, '').trim()] *)
      trim (List.filter (fun c => negb ((c =? 60) || (c =? 62))) sender).

End Widgets.

(** ** The attachment list of the modal ([createModal] and
    [expandAllAndRescan]): what is counted *)

Module AttachmentList.
Import Extractor.

(** [threadAttachments.reduce((sum, msg) => sum + msg.attachments.length, 0)]. *)
Definition totalAttachments (threadAttachments : list threadMessage) : nat :=
  fold_left (fun sum msg => (sum + length (attachments msg))%nat)
    threadAttachments 0%nat.

(** The attachments that are no placeholders. *)
Definition realAttachmentCount (threadAttachments : list threadMessage) : nat :=
  fold_left
    (fun sum msg =>
       (sum + length (List.filter (fun a => negb (isCollapsedPlaceholder a))
                        (attachments msg)))%nat)
    threadAttachments 0%nat.

(** [threadAttachments.some(msg => !msg.expanded)]; when it holds, the
    label of the section shows [+] after the number of real attachments. *)
Definition hasCollapsedWithAttachments (threadAttachments : list threadMessage)
  : bool :=
  existsb (fun msg => negb (expanded msg)) threadAttachments.

End AttachmentList.

(** ** From the composer to the client

    The service worker passes [message.taskData] of a [CREATE_TASK]
    message to [asanaClient.createTask]. *)

Module Wire.
Import Gateway Composer.

(** The [taskData] of a [CREATE_TASK] message as the service worker reads
    it: the strings of the draft, [null] for what the draft leaves
    out, and no [notes]. *)
Definition wireTaskData (td : taskData) : Client.taskInput :=
  {| Client.projectId := VStr (td_projectId td);
     Client.name := VStr (td_name td);
     Client.notes := VUndefined;
     Client.htmlNotes := VStr (td_htmlNotes td);
     Client.workspaceId := VStr (td_workspaceId td);
     Client.assignee :=
       match td_assignee td with Some a => VStr a | None => VNull end;
     Client.dueDate :=
       match td_dueDate td with Some d => VStr d | None => VNull end;
     Client.tags := option_map (map VStr) (td_tags td);
     Client.customFields := td_customFields td |}.

End Wire.

(* ===================================================================== *)
(** * Theorems *)
(* ===================================================================== *)

(** ** Base64 round trip *)

Module Base64Facts.
Import Base64.

(** Induction three elements at a time, as [encode_body] recurses. *)
Lemma list_ind3 {A} (P : list A -> Prop) :
  P [] -> (forall a, P [a]) -> (forall a b, P [a; b]) ->
  (forall a b c l, P l -> P (a :: b :: c :: l)) ->
  forall l, P l.
Proof.
  intros H0 H1 H2 H3.
  assert (H : forall l, P l /\ (forall a, P (a :: l)) /\ (forall a b, P (a :: b :: l))).
  { induction l as [|x l (IH0 & IH1 & IH2)]; repeat split; auto. }
  intros l. apply H.
Qed.

Lemma small_cases (P : N -> Prop) (n : nat) :
  (forall k, (k < n)%nat -> P (N.of_nat k)) -> forall s, s < N.of_nat n -> P s.
Proof.
  intros H s Hs. rewrite <- (N2Nat.id s). apply H. lia.
Qed.

Lemma sextet_of_char_of s : s < 64 -> sextet_of (char_of s) = Some s.
Proof.
  revert s. apply (small_cases _ 64). intros k Hk.
  do 64 (destruct k as [|k]; [reflexivity|]). lia.
Qed.

Lemma char_of_not_pad s : s < 64 -> (char_of s =? pad_char) = false.
Proof.
  revert s. apply (small_cases _ 64). intros k Hk.
  do 64 (destruct k as [|k]; [reflexivity|]). lia.
Qed.

Lemma char_of_not_space s : s < 64 -> is_ascii_space (char_of s) = false.
Proof.
  revert s. apply (small_cases _ 64). intros k Hk.
  do 64 (destruct k as [|k]; [reflexivity|]). lia.
Qed.

(** The sextets of a byte sequence, before they are turned into characters. *)
Fixpoint sextets_of_bytes (bs : list N) : list N :=
  match bs with
  | a :: b :: c :: rest =>
      (a / 4) :: ((a mod 4) * 16 + b / 16)
      :: ((b mod 16) * 4 + c / 64) :: (c mod 64) :: sextets_of_bytes rest
  | [a; b] => [a / 4; (a mod 4) * 16 + b / 16; (b mod 16) * 4]
  | [a] => [a / 4; (a mod 4) * 16]
  | [] => []
  end.

Local Ltac Zify.zify_post_hook ::= Z.to_euclidean_division_equations.

Lemma encode_body_sextets bs :
  encode_body bs = map char_of (sextets_of_bytes bs).
Proof.
  induction bs as [| a | a b | a b c l IH] using list_ind3; simpl; try reflexivity.
  now rewrite IH.
Qed.

Lemma sextets_of_bytes_bound bs :
  Forall (fun b => b < 256) bs -> Forall (fun s => s < 64) (sextets_of_bytes bs).
Proof.
  induction bs as [| a | a b | a b c l IH] using list_ind3; intros H; simpl.
  - constructor.
  - inversion_clear H. repeat constructor; lia.
  - inversion_clear H as [|? ? Ha H']. inversion_clear H' as [|? ? Hb _].
    repeat constructor; lia.
  - inversion_clear H as [|? ? Ha H']. inversion_clear H' as [|? ? Hb H''].
    inversion_clear H'' as [|? ? Hc Hl].
    repeat (constructor; [lia|]). auto.
Qed.

Lemma sextets_map_char_of xs :
  Forall (fun s => s < 64) xs -> sextets (map char_of xs) = Some xs.
Proof.
  induction 1 as [|x xs Hx _ IH]; simpl; [reflexivity|].
  now rewrite sextet_of_char_of, IH.
Qed.

Lemma decode_sextets_of_bytes bs :
  Forall (fun b => b < 256) bs -> decode_sextets (sextets_of_bytes bs) = bs.
Proof.
  induction bs as [| a | a b | a b c l IH] using list_ind3; intros H.
  - reflexivity.
  - inversion_clear H. simpl. f_equal. lia.
  - inversion_clear H as [|? ? Ha H']. inversion_clear H' as [|? ? Hb _].
    simpl. f_equal; [lia|]. f_equal. lia.
  - inversion_clear H as [|? ? Ha H']. inversion_clear H' as [|? ? Hb H''].
    inversion_clear H'' as [|? ? Hc Hl].
    cbn [sextets_of_bytes decode_sextets]. rewrite (IH Hl).
    f_equal; [lia|]. f_equal; [lia|]. f_equal. lia.
Qed.

Lemma char_of_not_comma s : s < 64 -> (char_of s =? 44) = false.
Proof.
  revert s. apply (small_cases _ 64). intros k Hk.
  do 64 (destruct k as [|k]; [reflexivity|]). lia.
Qed.

Lemma length_sextets_of_bytes bs :
  (length (sextets_of_bytes bs) mod 4 =
   match length bs mod 3 with 0 => 0 | 1 => 2 | _ => 3 end)%nat.
Proof.
  induction bs as [| a | a b | a b c l IH] using list_ind3; try reflexivity.
  cbn [sextets_of_bytes length].
  replace (S (S (S (S (length (sextets_of_bytes l))))))
    with (length (sextets_of_bytes l) + 1 * 4)%nat by lia.
  replace (S (S (S (length l)))) with (length l + 1 * 3)%nat by lia.
  now rewrite !Nat.Div0.mod_add.
Qed.

Lemma strip_padding_two body :
  strip_padding (body ++ [pad_char; pad_char]) = body.
Proof.
  unfold strip_padding. rewrite rev_app_distr. simpl.
  apply rev_involutive.
Qed.

Lemma Forall_rev_head {A} (P : A -> Prop) l x r :
  Forall P l -> rev l = x :: r -> P x.
Proof.
  intros H E. apply Forall_rev in H. rewrite E in H. now inversion H.
Qed.

Lemma strip_padding_one body :
  body <> [] -> Forall (fun c => (c =? pad_char) = false) body ->
  strip_padding (body ++ [pad_char]) = body.
Proof.
  intros Hne H. unfold strip_padding. rewrite rev_app_distr. simpl.
  destruct (rev body) as [|q r] eqn:E.
  - apply (f_equal (@rev N)) in E. rewrite rev_involutive in E. contradiction.
  - rewrite (Forall_rev_head _ _ _ _ H E).
    transitivity (rev (q :: r)); [reflexivity|].
    rewrite <- E. apply rev_involutive.
Qed.

Lemma strip_padding_none body :
  Forall (fun c => (c =? pad_char) = false) body -> strip_padding body = body.
Proof.
  intros H. unfold strip_padding.
  destruct (rev body) as [|p [|q r]] eqn:E; [reflexivity| |];
    now rewrite (Forall_rev_head _ _ _ _ H E).
Qed.

Section Encode.
Variable bs : list byte.

Let ns := map Byte.to_N bs.
Let xs := sextets_of_bytes ns.
Let body := map char_of xs.

Lemma bytes_bound : Forall (fun b => b < 256) ns.
Proof.
  subst ns. induction bs as [|b l IH]; constructor; auto.
  pose proof (Byte.to_N_bounded b). lia.
Qed.

Lemma sextets_bound : Forall (fun s => s < 64) xs.
Proof. apply sextets_of_bytes_bound, bytes_bound. Qed.

Lemma body_chars (Q : N -> Prop) :
  (forall s, s < 64 -> Q (char_of s)) -> Forall Q body.
Proof.
  intros HQ. subst body. generalize sextets_bound.
  induction 1; simpl; constructor; auto.
Qed.

Lemma encode_split : encode bs = body ++ padding (length bs).
Proof. unfold encode. now rewrite encode_body_sextets. Qed.

Lemma length_body :
  (length body mod 4 =
   match length bs mod 3 with 0 => 0 | 1 => 2 | _ => 3 end)%nat.
Proof.
  subst body xs ns.
  rewrite length_map, length_sextets_of_bytes, length_map. reflexivity.
Qed.

Lemma encode_no_space :
  List.filter (fun c => negb (is_ascii_space c)) (encode bs) = encode bs.
Proof.
  assert (H : Forall (fun c => is_ascii_space c = false) (encode bs)).
  { rewrite encode_split. apply Forall_app; split.
    - apply body_chars, char_of_not_space.
    - unfold padding. destruct (length bs mod 3)%nat as [|[|[|?]]];
        repeat constructor. }
  induction H as [|c l Hc _ IH]; simpl; [reflexivity|].
  now rewrite Hc, IH.
Qed.

Lemma encode_no_comma : Forall (fun c => (c =? 44) = false) (encode bs).
Proof.
  rewrite encode_split. apply Forall_app; split.
  - apply body_chars, char_of_not_comma.
  - unfold padding. destruct (length bs mod 3)%nat as [|[|[|?]]];
      repeat constructor.
Qed.

Lemma length_encode : (length (encode bs) mod 4 = 0)%nat.
Proof.
  rewrite encode_split, length_app. pose proof length_body as Hb.
  pose proof (Nat.mod_upper_bound (length bs) 3) as Hlt.
  unfold padding. rewrite Nat.Div0.add_mod, Hb.
  destruct (length bs mod 3)%nat as [|[|[|?]]]; try reflexivity. lia.
Qed.

Lemma strip_encode : strip_padding (encode bs) = body.
Proof.
  pose proof (body_chars (fun c => (c =? pad_char) = false) char_of_not_pad)
    as Hp.
  pose proof length_body as Hb.
  rewrite encode_split. unfold padding.
  destruct (length bs mod 3)%nat as [|[|[|?]]].
  - rewrite app_nil_r. now apply strip_padding_none.
  - apply strip_padding_two.
  - apply strip_padding_one; auto. intros E. now rewrite E in Hb.
  - rewrite app_nil_r. now apply strip_padding_none.
Qed.

(** Decoding the base64 of a byte sequence gives the bytes back. *)
Lemma atob_encode : atob (encode bs) = Some (map Byte.to_N bs).
Proof.
  unfold atob. cbv zeta. rewrite encode_no_space, length_encode.
  change (0 =? 0)%nat with true. cbv iota.
  rewrite strip_encode. pose proof length_body as Hb.
  destruct (Nat.eqb_spec (length body mod 4) 1) as [E|_].
  - rewrite E in Hb. destruct (length bs mod 3)%nat as [|[|?]]; discriminate.
  - subst body. rewrite (sextets_map_char_of _ sextets_bound).
    subst xs. now rewrite (decode_sextets_of_bytes _ bytes_bound).
Qed.
End Encode.

End Base64Facts.

(** ** The attachment relay *)

Module RelayFacts.
Import Binary Gateway Relay Base64Facts.

Lemma split_no_sep sep a :
  Forall (fun c => (c =? sep) = false) a -> split sep a = [a].
Proof.
  induction 1 as [|c a Hc _ IH]; simpl; [reflexivity|].
  now rewrite Hc, IH.
Qed.

Lemma split_at_sep sep a r :
  Forall (fun c => (c =? sep) = false) a ->
  split sep (a ++ sep :: r) = a :: split sep r.
Proof.
  induction 1 as [|c a Hc _ IH]; simpl.
  - now rewrite N.eqb_refl.
  - now rewrite Hc, IH.
Qed.

Lemma uint8_to_N b : uint8 (Byte.to_N b) = b.
Proof.
  unfold uint8. pose proof (Byte.to_N_bounded b).
  rewrite N.mod_small by lia.
  now rewrite Byte.of_to_N.
Qed.

Lemma map_uint8_to_N bs : map uint8 (map Byte.to_N bs) = bs.
Proof.
  induction bs as [|b bs IH]; simpl; [reflexivity|].
  now rewrite uint8_to_N, IH.
Qed.

(** When the blob has bytes and its type holds no comma, [blobToBase64] is
    the base64 of the blob's bytes. *)
Lemma blobToBase64_payload b :
  blob_bytes b <> [] ->
  Forall (fun c => (c =? 44) = false) (blob_type b) ->
  blobToBase64 b = VStr (Base64.encode (blob_bytes b)).
Proof.
  intros Hbytes Hty. unfold blobToBase64, readAsDataURL.
  destruct (blob_bytes b) as [|b0 bs] eqn:E; [contradiction|].
  change (lit ";base64,") with (lit ";base64" ++ [44]).
  rewrite <- app_assoc. simpl ([44] ++ _).
  rewrite !app_assoc. rewrite split_at_sep.
  - now rewrite split_no_sep by apply encode_no_comma.
  - rewrite !Forall_app. repeat split; try (repeat constructor).
    unfold or_else. destruct (truthy (blob_type b)); [exact Hty|].
    unfold lit; simpl. repeat constructor.
Qed.

(** The relay reconstructs the bytes of every blob that has bytes and whose
    type holds no comma. *)
Lemma relay_round_trip b :
  blob_bytes b <> [] ->
  Forall (fun c => (c =? 44) = false) (blob_type b) ->
  relayed_bytes b = Some (blob_bytes b).
Proof.
  intros Hbytes Hty. unfold relayed_bytes, relayed, uploadMessage.
  cbn [prop assoc]. change (str_eqb _ _) with false at 1 2. cbv iota.
  change (str_eqb _ _) with true at 1. cbv iota.
  rewrite (blobToBase64_payload _ Hbytes Hty). unfold blobOfMessage.
  cbn [toString]. rewrite atob_encode. cbn [blob_bytes].
  now rewrite map_uint8_to_N.
Qed.

(** A one-byte PDF whose type carries a quoted parameter with a comma, as
    the serialization of the MIME type [application/pdf; name="a,b.pdf"]
    gives it. *)
Definition commaBlob : blob :=
  {| blob_type := lit "application/pdf;name=" ++ [34] ++ lit "a,b.pdf" ++ [34];
     blob_bytes := [x41] |}.

(** C10.  At a blob whose type holds a comma, [blobToBase64] returns the
    piece of the data URL between the first two commas, which is part of
    the type and not the payload; [atob] rejects it in the service worker
    and no blob reaches the upload.  (For every blob that has bytes and
    whose type holds no comma the bytes are reconstructed:
    [relay_round_trip].) *)
Theorem relay_loses_blob_with_comma_in_type :
  readAsDataURL commaBlob
  = lit "data:application/pdf;name=" ++ [34] ++ lit "a,b.pdf" ++ [34]
    ++ lit ";base64,QQ==" /\
  blobToBase64 commaBlob = VStr (lit "b.pdf" ++ [34] ++ lit ";base64") /\
  relayed_bytes commaBlob = None /\
  relayed_bytes {| blob_type := lit "application/pdf";
                   blob_bytes := blob_bytes commaBlob |}
  = Some (blob_bytes commaBlob).
Proof. repeat split; vm_compute; reflexivity. Qed.

End RelayFacts.

(** ** The service worker answers every message *)

Module GatewayFacts.
Import Binary Gateway.

Lemma not_in_message_types t :
  ~ In t message_types ->
  forall s, In s message_types -> str_eqb t s = false.
Proof.
  intros Hnot s Hs. unfold str_eqb. apply bool_decide_eq_false_2.
  intros ->. contradiction.
Qed.

(** An unknown string type reaches the [default] case. *)
Lemma handleMessage_unknown P message t :
  get "type" message = Ok (VStr t) ->
  ~ In t message_types ->
  handleMessage P message = Throw (Error (lit "Unknown message type: " ++ t)).
Proof.
  intros Hty Hnot. unfold handleMessage. rewrite Hty.
  pose proof (not_in_message_types t Hnot) as Hne.
  cbn [mbind result_bind].
  repeat (rewrite Hne; [|unfold message_types; cbn [map In]; tauto]).
  reflexivity.
Qed.

(** A type that is not a string matches no [case]. *)
Lemma handleMessage_not_string P message ty :
  get "type" message = Ok ty ->
  (forall t, ty <> VStr t) ->
  handleMessage P message
  = Throw (Error (lit "Unknown message type: " ++ toString ty)).
Proof.
  intros Hty Hns. unfold handleMessage. rewrite Hty. cbn [mbind result_bind].
  destruct ty; try reflexivity. now destruct (Hns s).
Qed.

(** C9.  For every incoming message the listener calls [sendResponse]
    exactly once and its promise chain settles without an unhandled
    rejection; the response is the value returned by the handler or, when
    the handler throws, the object [{error: message}].  A message whose
    type is outside the closed set of the [switch] (a string that is none
    of the sixteen types, or a value that is not a string) is answered
    with [{error: "Unknown message type: ..."}]. *)
Theorem onMessage_always_responds (P : platform) (message : value) :
  chain (onMessage P message) = Ok tt /\
  (exists v, sent (onMessage P message) = [v] /\
     (handleMessage P message = Ok v \/
      exists e, handleMessage P message = Throw e /\
                v = VObj [(lit "error", VStr (Gateway.message e))])) /\
  (forall ty, get "type" message = Ok ty ->
     (forall t, ty = VStr t -> ~ In t message_types) ->
     sent (onMessage P message)
     = [VObj [(lit "error",
               VStr (lit "Unknown message type: " ++ toString ty))]]).
Proof.
  split; [|split].
  - unfold onMessage. now destruct (handleMessage P message).
  - unfold onMessage. destruct (handleMessage P message) as [v|e] eqn:E.
    + exists v. split; [reflexivity|]. now left.
    + eexists. split; [reflexivity|]. right. now exists e.
  - intros ty Hty Hout. unfold onMessage.
    destruct ty as [| | b | z | t | items | fields].
    5: { rewrite (handleMessage_unknown P message t Hty (Hout t eq_refl)).
         reflexivity. }
    all: rewrite (handleMessage_not_string P message _ Hty) by discriminate;
      reflexivity.
Qed.

(** A platform on which every call throws. *)
Definition failing_platform : platform :=
  let boom {A} : result A := Throw (Error (lit "offline")) in
  {| checkSession := boom; getWorkspaces := boom;
     getProjects := fun _ => boom; getUsers := fun _ => boom;
     getTags := fun _ => boom; createTask := fun _ => boom;
     uploadAttachment := fun _ _ _ => boom;
     searchTasks := fun _ _ => boom; addComment := fun _ _ _ => boom;
     getProjectCustomFields := fun _ => boom; getTask := fun _ => boom;
     showNotification := fun _ _ _ => boom; fetch := fun _ => boom;
     storage_get := fun _ => boom; storage_set := fun _ _ => boom |}.

(** The listener at a message of the unknown type [DELETE_TASK]. *)
Lemma onMessage_always_responds_witness :
  sent (onMessage failing_platform
          (VObj [(lit "type", VStr (lit "DELETE_TASK"))]))
  = [VObj [(lit "error", VStr (lit "Unknown message type: DELETE_TASK"))]].
Proof.
  apply (proj2 (proj2 (onMessage_always_responds failing_platform
           (VObj [(lit "type", VStr (lit "DELETE_TASK"))])))
           (VStr (lit "DELETE_TASK"))).
  - reflexivity.
  - intros t Ht. injection Ht as <-. vm_compute.
    intros H. repeat (destruct H as [H|H]; [discriminate H|]). exact H.
Defined.

End GatewayFacts.

(** ** The composer: note body, validation, best-effort steps *)

Module ComposerFacts.
Import Binary Gateway Relay Composer.

(** *** The note body *)

Lemma escape_unit_no_angle c : Forall (fun x => x <> 60 /\ x <> 62) (escape_unit c).
Proof.
  unfold escape_unit.
  destruct (N.eqb_spec c 38); [|destruct (N.eqb_spec c 60);
    [|destruct (N.eqb_spec c 62); [|destruct (N.eqb_spec c 160)]]];
    unfold lit; simpl;
    repeat (apply List.Forall_cons; [split; (discriminate || lia)|]);
    apply List.Forall_nil.
Qed.

(** Escaped text holds neither [<] nor [>]. *)
Lemma escapeHtml_no_angle s : Forall (fun x => x <> 60 /\ x <> 62) (escapeHtml s).
Proof.
  induction s as [|c s IH]; simpl; [constructor|].
  apply Forall_app. split; [apply escape_unit_no_angle | exact IH].
Qed.

Lemma flush_newlines_keeps (P : N -> Prop) n : P 10 -> Forall P (flush_newlines n).
Proof.
  intros H. unfold flush_newlines. destruct (3 <=? n)%nat.
  - repeat constructor; exact H.
  - induction n; simpl; constructor; auto.
Qed.

Lemma collapse_newlines_from_keeps (P : N -> Prop) s :
  P 10 -> Forall P s -> forall n, Forall P (collapse_newlines_from n s).
Proof.
  intros H10. induction 1 as [|c s Hc _ IH]; intros n; simpl.
  - now apply flush_newlines_keeps.
  - destruct (c =? 10); [apply IH|].
    apply Forall_app. split; [now apply flush_newlines_keeps|].
    constructor; auto.
Qed.

Lemma trim_start_keeps (P : N -> Prop) s : Forall P s -> Forall P (trim_start s).
Proof.
  induction 1 as [|c s Hc Hs IH]; simpl; [constructor|].
  destruct (is_space c); auto.
Qed.

Lemma trim_keeps (P : N -> Prop) s : Forall P s -> Forall P (trim s).
Proof.
  intros H. unfold trim, trim_end.
  apply Forall_rev, trim_start_keeps, Forall_rev, trim_start_keeps, H.
Qed.

(** The quoted body is escaped: it holds neither [<] nor [>]. *)
Lemma cleanBody_no_angle b : Forall (fun x => x <> 60 /\ x <> 62) (cleanBody b).
Proof.
  unfold cleanBody, collapse_newlines.
  apply trim_keeps, collapse_newlines_from_keeps; [lia|].
  apply escapeHtml_no_angle.
Qed.

(** The text that escaped text stands for: what an HTML parser reads back
    from it, the character references [&amp;], [&lt;], [&gt;] and
    [&nbsp;] giving their characters. *)
Fixpoint drop_prefix (p s : jsstring) : option jsstring :=
  match p, s with
  | [], _ => Some s
  | a :: p', b :: s' => if a =? b then drop_prefix p' s' else None
  | _ :: _, [] => None
  end.

Definition references : list (jsstring * N) :=
  [(lit "&amp;", 38); (lit "&lt;", 60); (lit "&gt;", 62); (lit "&nbsp;", 160)].

Fixpoint reference_at (refs : list (jsstring * N)) (s : jsstring)
  : option (N * jsstring) :=
  match refs with
  | [] => None
  | (name, c) :: rest =>
      match drop_prefix name s with
      | Some after => Some (c, after)
      | None => reference_at rest s
      end
  end.

Fixpoint decode_from (fuel : nat) (s : jsstring) : jsstring :=
  match fuel, s with
  | S fuel, c :: r =>
      match reference_at references s with
      | Some (x, after) => x :: decode_from fuel after
      | None => c :: decode_from fuel r
      end
  | _, _ => []
  end.

Definition decodeHtml (s : jsstring) : jsstring := decode_from (length s) s.

Lemma decode_escaped text : forall fuel,
  (length (escapeHtml text) <= fuel)%nat ->
  decode_from fuel (escapeHtml text) = text.
Proof.
  induction text as [|c text IH]; intros fuel Hfuel.
  - now destruct fuel.
  - cbn [escapeHtml flat_map] in *. fold (escapeHtml text) in *.
    rewrite length_app in Hfuel. unfold escape_unit in *.
    destruct (N.eqb_spec c 38) as [->|H38].
    { destruct fuel as [|fuel]; [simpl in Hfuel; lia|].
      cbn. f_equal. apply IH. simpl in Hfuel. lia. }
    destruct (N.eqb_spec c 60) as [->|H60].
    { destruct fuel as [|fuel]; [simpl in Hfuel; lia|].
      cbn. f_equal. apply IH. simpl in Hfuel. lia. }
    destruct (N.eqb_spec c 62) as [->|H62].
    { destruct fuel as [|fuel]; [simpl in Hfuel; lia|].
      cbn. f_equal. apply IH. simpl in Hfuel. lia. }
    destruct (N.eqb_spec c 160) as [->|H160].
    { destruct fuel as [|fuel]; [simpl in Hfuel; lia|].
      cbn. f_equal. apply IH. simpl in Hfuel. lia. }
    destruct fuel as [|fuel]; [simpl in Hfuel; lia|].
    cbn [app decode_from].
    assert (Hnone : reference_at references (c :: escapeHtml text) = None).
    { assert (Hd : forall name r,
                drop_prefix (38 :: name) (c :: r) = None).
      { intros name r. cbn [drop_prefix].
        apply N.eqb_neq in H38. now rewrite N.eqb_sym, H38. }
      unfold references.
      change (lit "&amp;") with (38 :: lit "amp;").
      change (lit "&lt;") with (38 :: lit "lt;").
      change (lit "&gt;") with (38 :: lit "gt;").
      change (lit "&nbsp;") with (38 :: lit "nbsp;").
      cbn [reference_at]. now rewrite !Hd. }
    rewrite Hnone. f_equal. apply IH. simpl in Hfuel. lia.
Qed.

(** Escaping loses nothing: the escaped text reads back as the text. *)
Lemma decodeHtml_escapeHtml text : decodeHtml (escapeHtml text) = text.
Proof. apply decode_escaped. unfold decodeHtml. lia. Qed.


(** The units of a text that are not white space. *)
Definition visible (s : jsstring) : jsstring :=
  List.filter (fun c => negb (is_space c)) s.

Lemma visible_app a b : visible (a ++ b) = visible a ++ visible b.
Proof. apply List.filter_app. Qed.

Lemma visible_flush_newlines n : visible (flush_newlines n) = [].
Proof.
  unfold flush_newlines. destruct (3 <=? n)%nat; [reflexivity|].
  induction n; simpl; auto.
Qed.

Lemma visible_collapse_newlines_from n s :
  visible (collapse_newlines_from n s) = visible s.
Proof.
  revert n. induction s as [|c s IH]; intros n; cbn [collapse_newlines_from].
  - apply visible_flush_newlines.
  - destruct (N.eqb_spec c 10) as [->|Hc]; [now rewrite IH|].
    rewrite visible_app, visible_flush_newlines. cbn [app visible List.filter].
    fold (visible (collapse_newlines_from 0 s)). fold (visible s).
    now rewrite IH.
Qed.

Lemma visible_trim_start s : visible (trim_start s) = visible s.
Proof.
  induction s as [|c s IH]; [reflexivity|]. cbn [trim_start].
  destruct (is_space c) eqn:E; [|reflexivity].
  rewrite IH. unfold visible. cbn [List.filter]. now rewrite E.
Qed.

Lemma visible_rev s : visible (rev s) = rev (visible s).
Proof.
  induction s as [|c s IH]; [reflexivity|]. cbn [rev].
  rewrite visible_app, IH. unfold visible at 2 3. cbn [List.filter].
  destruct (negb (is_space c)); cbn [rev app]; [reflexivity|].
  now rewrite app_nil_r.
Qed.

Lemma visible_trim s : visible (trim s) = visible s.
Proof.
  unfold trim, trim_end.
  now rewrite visible_rev, visible_trim_start, visible_rev, rev_involutive,
    visible_trim_start.
Qed.

(** Cleaning removes white space only. *)
Lemma visible_cleanBody b : visible (cleanBody b) = visible (escapeHtml b).
Proof.
  unfold cleanBody, collapse_newlines.
  now rewrite visible_trim, visible_collapse_newlines_from.
Qed.


(** A text without a run of three line feeds is left as it is. *)
Lemma collapse_newlines_from_id s : forall p,
  (forall a b, repeat 10 p ++ s <> a ++ [10; 10; 10] ++ b) ->
  collapse_newlines_from p s = repeat 10 p ++ s.
Proof.
  assert (Hflush : forall p r,
            (forall a b, repeat 10 p ++ r <> a ++ [10; 10; 10] ++ b) ->
            flush_newlines p = repeat 10 p).
  { intros p r H. unfold flush_newlines.
    destruct (Nat.leb_spec 3 p) as [Hp|Hp]; [|reflexivity].
    exfalso. apply (H [] (repeat 10 (p - 3) ++ r)).
    replace p with (3 + (p - 3))%nat at 1 by lia.
    now rewrite repeat_app, <- app_assoc. }
  induction s as [|c s IH]; intros p H; cbn [collapse_newlines_from].
  - rewrite app_nil_r. apply (Hflush p []), H.
  - destruct (N.eqb_spec c 10) as [->|Hc].
    + rewrite IH.
      * change (repeat 10 (S p)) with (10 :: repeat 10 p).
        now rewrite repeat_cons, <- app_assoc.
      * intros a b. change (repeat 10 (S p)) with (10 :: repeat 10 p).
        rewrite repeat_cons, <- app_assoc. apply H.
    + rewrite (Hflush p (c :: s) H). f_equal. f_equal.
      apply (IH 0%nat). intros a b E. cbn [repeat app] in E.
      apply (H (repeat 10 p ++ c :: a) b).
      rewrite E. now rewrite <- !app_assoc.
Qed.

Lemma collapse_newlines_id s :
  (forall a b, s <> a ++ [10; 10; 10] ++ b) -> collapse_newlines s = s.
Proof. intros H. apply (collapse_newlines_from_id s 0), H. Qed.

(** Escaping neither adds nor removes a line feed, so that it commutes
    with the collapsing of line feeds. *)
Lemma collapse_newlines_from_app_unit p u x :
  u <> [] -> Forall (fun c => c <> 10) u ->
  collapse_newlines_from p (u ++ x)
  = flush_newlines p ++ u ++ collapse_newlines_from 0 x.
Proof.
  intros Hne Hu. destruct u as [|c u]; [contradiction|]. clear Hne.
  inversion Hu as [|? ? Hc Hu']; subst.
  cbn [app collapse_newlines_from].
  apply N.eqb_neq in Hc. rewrite Hc. f_equal. f_equal.
  clear Hc Hu. induction Hu' as [|d u Hd _ IH]; [reflexivity|].
  cbn [app collapse_newlines_from]. apply N.eqb_neq in Hd. rewrite Hd.
  cbn [flush_newlines Nat.leb repeat app]. now rewrite IH.
Qed.

Lemma escape_unit_plain c :
  c <> 10 -> escape_unit c <> [] /\ Forall (fun x => x <> 10) (escape_unit c).
Proof.
  intros Hc. unfold escape_unit.
  destruct (c =? 38); [split; [discriminate|repeat constructor; discriminate]|].
  destruct (c =? 60); [split; [discriminate|repeat constructor; discriminate]|].
  destruct (c =? 62); [split; [discriminate|repeat constructor; discriminate]|].
  destruct (c =? 160); [split; [discriminate|repeat constructor; discriminate]|].
  split; [discriminate|repeat constructor; exact Hc].
Qed.

Lemma escapeHtml_app a b : escapeHtml (a ++ b) = escapeHtml a ++ escapeHtml b.
Proof. apply flat_map_app. Qed.

Lemma escapeHtml_flush_newlines p :
  escapeHtml (flush_newlines p) = flush_newlines p.
Proof.
  unfold flush_newlines. destruct (3 <=? p)%nat; [reflexivity|].
  induction p as [|p IH]; [reflexivity|]. cbn [repeat].
  change (escapeHtml (10 :: repeat 10 p)) with (10 :: escapeHtml (repeat 10 p)).
  now rewrite IH.
Qed.

Lemma collapse_newlines_from_escapeHtml s : forall p,
  collapse_newlines_from p (escapeHtml s)
  = escapeHtml (collapse_newlines_from p s).
Proof.
  induction s as [|c s IH]; intros p.
  - cbn [escapeHtml flat_map collapse_newlines_from].
    now rewrite escapeHtml_flush_newlines.
  - change (escapeHtml (c :: s)) with (escape_unit c ++ escapeHtml s).
    cbn [collapse_newlines_from].
    destruct (N.eqb_spec c 10) as [->|Hc].
    + change (escape_unit 10) with [10]. cbn [app collapse_newlines_from].
      change (10 =? 10) with true. cbv iota. apply IH.
    + destruct (escape_unit_plain c Hc) as [Hne Hu].
      rewrite collapse_newlines_from_app_unit by assumption.
      rewrite escapeHtml_app, escapeHtml_flush_newlines.
      change (escapeHtml (c :: ?r)) with (escape_unit c ++ escapeHtml r).
      now rewrite IH.
Qed.

Lemma trim_start_id s :
  (forall c r, s = c :: r -> is_space c = false) -> trim_start s = s.
Proof.
  destruct s as [|c r]; [reflexivity|]. intros H. cbn [trim_start].
  now rewrite (H c r eq_refl).
Qed.

Lemma trim_id s :
  (forall c r, s = c :: r -> is_space c = false) ->
  (forall r c, s = r ++ [c] -> is_space c = false) ->
  trim s = s.
Proof.
  intros Hhd Hlast. unfold trim, trim_end.
  rewrite (trim_start_id s Hhd), trim_start_id; [apply rev_involutive|].
  intros c r E. apply (Hlast (rev r) c).
  rewrite <- (rev_involutive s), E. reflexivity.
Qed.

Lemma escape_unit_ends c :
  is_space c = false ->
  exists x y u v, escape_unit c = x :: u /\ escape_unit c = v ++ [y] /\
    is_space x = false /\ is_space y = false.
Proof.
  intros Hc. unfold escape_unit.
  destruct (c =? 38);
    [exists 38, 59, (lit "amp;"), (lit "&amp"); repeat split|].
  destruct (c =? 60);
    [exists 38, 59, (lit "lt;"), (lit "&lt"); repeat split|].
  destruct (c =? 62);
    [exists 38, 59, (lit "gt;"), (lit "&gt"); repeat split|].
  destruct (c =? 160);
    [exists 38, 59, (lit "nbsp;"), (lit "&nbsp"); repeat split|].
  exists c, c, [], []. repeat split; assumption.
Qed.

(** A body that needs no cleaning is quoted as its escaped text. *)
Lemma cleanBody_of_clean b :
  (forall c r, b = c :: r -> is_space c = false) ->
  (forall r c, b = r ++ [c] -> is_space c = false) ->
  (forall x y, b <> x ++ [10; 10; 10] ++ y) ->
  cleanBody b = escapeHtml b.
Proof.
  intros Hhd Hlast Hruns. unfold cleanBody, collapse_newlines.
  rewrite collapse_newlines_from_escapeHtml.
  change (collapse_newlines_from 0 b) with (collapse_newlines b).
  rewrite (collapse_newlines_id b Hruns).
  apply trim_id.
  - intros c r E. destruct b as [|d b']; [discriminate|].
    change (escapeHtml (d :: b')) with (escape_unit d ++ escapeHtml b') in E.
    destruct (escape_unit_ends d (Hhd d b' eq_refl))
      as (x & y & u & v & Hx & _ & Hsx & _).
    rewrite Hx in E. cbn [app] in E. now injection E as <- _.
  - intros r c E. destruct (rev b) as [|d b'] eqn:Hrev.
    + apply (f_equal (@rev N)) in Hrev. rewrite rev_involutive in Hrev.
      subst b. now destruct r.
    + apply (f_equal (@rev N)) in Hrev. rewrite rev_involutive in Hrev.
      cbn [rev] in Hrev. rewrite Hrev in E. rewrite escapeHtml_app in E.
      change (escapeHtml [d]) with (escape_unit d ++ []) in E.
      rewrite app_nil_r in E.
      destruct (escape_unit_ends d (Hlast (rev b') d Hrev))
        as (x & y & u & v & _ & Hy & _ & Hsy).
      rewrite Hy, app_assoc in E. apply app_inj_tail in E.
      destruct E as [_ <-]. exact Hsy.
Qed.

(** C5.  The note body of a created task is [<body>], then the sender
    line, the date line, the back-link and the quoted body in that order,
    then [</body>].  The sender line ([<from> <sender>] and a line feed)
    and the date line ([Date: <date>] and a line feed) have no toggle:
    each is present exactly when its datum is non-empty.  The back-link
    (a line feed, the anchor [Ouvrir dans Gmail] to the URL, a line feed)
    is present exactly when [includeLink] is on and the URL is non-empty,
    the quoted body (a line feed and the [blockquote] of the cleaned body)
    exactly when [includeBody] is on and the body is non-empty; a section
    that is absent contributes nothing.  The sender, the date and the URL
    are HTML-escaped: escaped text holds neither [<] nor [>] and reads
    back as the text.  The cleaned body is the escaped body up to white
    space (it has the same units that are not white space, in the same
    order, and holds neither [<] nor [>]), and it is the escaped body
    itself when the body has no white space at its ends and no three line
    feeds in a row. *)
Theorem htmlNotes_sections (t : jsstring -> list jsstring -> jsstring)
    (e : emailData) (includeBody includeLink : bool) :
  exists s1 s2 s3 s4,
    htmlNotes t e includeBody includeLink
    = lit "<body>" ++ s1 ++ s2 ++ s3 ++ s4 ++ lit "</body>" /\
    (sender e <> [] /\
     s1 = t (lit "from") [] ++ lit " " ++ escapeHtml (sender e) ++ [10]
     \/ sender e = [] /\ s1 = []) /\
    (date e <> [] /\ s2 = lit "Date: " ++ escapeHtml (date e) ++ [10]
     \/ date e = [] /\ s2 = []) /\
    (includeLink = true /\ emailUrl e <> [] /\
     s3 = [10] ++ lit "<a href=" ++ [34] ++ escapeHtml (emailUrl e) ++ [34]
          ++ lit ">Ouvrir dans Gmail</a>" ++ [10]
     \/ (includeLink = false \/ emailUrl e = []) /\ s3 = []) /\
    (includeBody = true /\ body e <> [] /\
     s4 = [10] ++ lit "<blockquote>" ++ cleanBody (body e)
          ++ lit "</blockquote>"
     \/ (includeBody = false \/ body e = []) /\ s4 = []) /\
    (forall text,
       decodeHtml (escapeHtml text) = text /\
       Forall (fun x => x <> 60 /\ x <> 62) (escapeHtml text)) /\
    Forall (fun x => x <> 60 /\ x <> 62) (cleanBody (body e)) /\
    visible (cleanBody (body e)) = visible (escapeHtml (body e)) /\
    ((forall c r, body e = c :: r -> is_space c = false) ->
     (forall r c, body e = r ++ [c] -> is_space c = false) ->
     (forall x y, body e <> x ++ [10; 10; 10] ++ y) ->
     cleanBody (body e) = escapeHtml (body e)).
Proof.
  exists (if truthy (sender e) then senderLine t e else []),
         (if truthy (date e) then dateLine e else []),
         (if includeLink && truthy (emailUrl e) then backLink e else []),
         (if includeBody && truthy (body e) then quotedBody e else []).
  split; [|split; [|split; [|split; [|split; [|split; [|split; [|split]]]]]]].
  - unfold htmlNotes. cbv zeta.
    destruct (truthy (sender e)), (truthy (date e)),
      (includeLink && truthy (emailUrl e)), (includeBody && truthy (body e));
      rewrite ?app_nil_l, ?app_nil_r, <- ?app_assoc; reflexivity.
  - destruct (sender e) eqn:E; simpl; [right|left]; split; try congruence.
    unfold senderLine. now rewrite E.
  - destruct (date e) eqn:E; simpl; [right|left]; split; try congruence.
    unfold dateLine. now rewrite E.
  - destruct includeLink, (emailUrl e) eqn:E; simpl; auto; left.
    split; [reflexivity|]. split; [congruence|].
    unfold backLink. now rewrite E.
  - destruct includeBody, (body e) eqn:E; simpl; auto; left.
    split; [reflexivity|]. split; [congruence|].
    unfold quotedBody. now rewrite E.
  - intros text. split; [apply decodeHtml_escapeHtml|apply escapeHtml_no_angle].
  - apply cleanBody_no_angle.
  - apply visible_cleanBody.
  - apply cleanBody_of_clean.
Qed.

(** *** Local validation *)

(** The draft lacks what its mode requires. *)
Definition invalid (w : world) : Prop :=
  match mode (this w) with
  | create =>
      trim (name_input (form w)) = [] \/ selectedProject (this w) = None
  | comment => selectedExistingTask (this w) = None
  end.

(** C6.  A submission whose draft lacks what its mode requires (in create
    mode an empty trimmed task name or no selected project, in comment
    mode no selected existing task) returns at once: the status shows the
    validation message of the missing field with type [error], no event
    is added to the trace (no message is sent, nothing is fetched), and
    the draft and the submit button are unchanged. *)
Theorem createTask_invalid_is_local (t : jsstring -> list jsstring -> jsstring)
    (env : environment) (w : world) :
  invalid w ->
  exists key,
    In key ["errorEnterTaskName"; "errorSelectProject"; "noTasksFound"]%string /\
    createTask t env w
    = (Ok tt,
       {| this := this w;
          form := {| name_input := name_input (form w);
                     workspace_value := workspace_value (form w);
                     assignee_value := assignee_value (form w);
                     due_date := due_date (form w);
                     include_body := include_body (form w);
                     include_link := include_link (form w);
                     attach_eml := attach_eml (form w);
                     add_label := add_label (form w);
                     checked_attachments := checked_attachments (form w);
                     project_input := project_input (form w);
                     task_search_input := task_search_input (form w);
                     status := (t (lit key) [], lit "error");
                     create_disabled := create_disabled (form w);
                     create_text := create_text (form w) |};
          trace := trace w |}).
Proof.
  unfold invalid, createTask, addCommentToTask. intros H.
  cbv beta iota delta [mbind M_bind get_this get_form].
  destruct (mode (this w)).
  - destruct (trim (name_input (form w))) as [|c r] eqn:E.
    + exists "errorEnterTaskName"%string. split; [simpl; auto|reflexivity].
    + destruct H as [H|H]; [discriminate|]. rewrite H.
      exists "errorSelectProject"%string. split; [simpl; auto|reflexivity].
  - rewrite H. exists "noTasksFound"%string. split; [simpl; auto|reflexivity].
Qed.

Definition emptyEmail : emailData :=
  {| subject := lit "Invoice #42"; body := lit "Please pay";
     sender := lit "a@x.com"; date := []; 
     emailUrl := lit "https://mail.example/#inbox/abc";
     emlDownloadUrl := None |}.

Definition blankSelector : selector :=
  {| email := emptyEmail; me := User (lit "1") (lit "Me");
     projects := Data []; users := Data []; tags := Data [];
     prefs := Preferences [] [] [] [] false;
     selectedProject := None; selectedTags := [];
     selectedExistingTask := None; customFields := Data [];
     customFieldValues := ∅; mode := create |}.

Definition blankModal : modal :=
  {| name_input := lit "X"; workspace_value := lit "W1";
     assignee_value := []; due_date := [];
     include_body := true; include_link := true;
     attach_eml := false; add_label := false;
     checked_attachments := []; project_input := [];
     task_search_input := []; status := ([], []);
     create_disabled := false; create_text := [] |}.

Definition blankWorld : world :=
  {| this := blankSelector; form := blankModal; trace := [] |}.

(** An outside where every call fails. *)
Definition deadEnvironment : environment :=
  {| gateway := fun A _ _ => Throw (Error (lit "offline"));
     page_fetch := fun _ _ => Throw (Error (lit "offline"));
     label_menu := fun _ => Throw (Error (lit "offline")) |}.

(** The draft [{mode: create, project: null, name: X}]. *)
Lemma createTask_invalid_is_local_witness :
  trace (snd (createTask (fun k _ => k) deadEnvironment blankWorld)) = [].
Proof.
  destruct (createTask_invalid_is_local (fun k _ => k) deadEnvironment
              blankWorld) as (key & _ & E).
  - right. reflexivity.
  - rewrite E. reflexivity.
Defined.

(** *** Best-effort steps after the creation *)

(** The URLs fetched in the page, in order. *)
Definition fetched_urls (tr : list event) : list jsstring :=
  flat_map (fun e => match e with Fetched url => [url] | _ => [] end) tr.

(** The upload messages sent to the service worker, in order. *)
Definition uploads (tr : list event) : list value :=
  flat_map
    (fun e =>
       match e with
       | Sent r =>
           match r with
           | UPLOAD_ATTACHMENT_BASE64 message => [message]
           | _ => []
           end
       | _ => []
       end) tr.

(** The clicks made in the host page, in order. *)
Definition clicks (tr : list event) : list jsstring :=
  flat_map (fun e => match e with Clicked what => [what] | _ => [] end) tr.

Lemma fetched_urls_app tr1 tr2 :
  fetched_urls (tr1 ++ tr2) = fetched_urls tr1 ++ fetched_urls tr2.
Proof. apply flat_map_app. Qed.

Lemma uploads_app tr1 tr2 : uploads (tr1 ++ tr2) = uploads tr1 ++ uploads tr2.
Proof. apply flat_map_app. Qed.

Lemma clicks_app tr1 tr2 : clicks (tr1 ++ tr2) = clicks tr1 ++ clicks tr2.
Proof. apply flat_map_app. Qed.

(** The blob that a download delivers, if any. *)
Definition delivered (r : result response) : option blob :=
  match r with
  | Ok response =>
      if ok response then
        match Gateway.body response with
        | Ok blob => Some blob
        | Throw _ => None
        end
      else None
  | Throw _ => None
  end.

(** What the downloads of a stretch of events delivered, the first event
    of the stretch being made at time [now]. *)
Fixpoint outcomes (env : environment) (now : nat) (tr : list event)
  : list (option blob) :=
  match tr with
  | [] => []
  | Fetched url :: rest =>
      delivered (page_fetch env now url) :: outcomes env (S now) rest
  | _ :: rest => outcomes env (S now) rest
  end.

Lemma outcomes_app env tr1 : forall now tr2,
  outcomes env now (tr1 ++ tr2)
  = outcomes env now tr1 ++ outcomes env (now + length tr1) tr2.
Proof.
  induction tr1 as [|e tr1 IH]; intros now tr2.
  - cbn [app length outcomes]. now rewrite Nat.add_0_r.
  - cbn [app length]. replace (now + S (length tr1))%nat
      with (S now + length tr1)%nat by lia.
    destruct e; cbn [outcomes app]; now rewrite IH.
Qed.

Lemma outcomes_length env tr : forall now,
  length (outcomes env now tr) = length (fetched_urls tr).
Proof.
  induction tr as [|e tr IH]; intros now; [reflexivity|].
  destruct e; cbn [outcomes fetched_urls flat_map app length];
    fold (fetched_urls tr); now rewrite ?IH.
Qed.

(** What a submission downloads and uploads after the creation: the raw
    message under its file name, then the checked attachments that have a
    URL, each under its name. *)
Record item := Item {
  item_url : jsstring;
  item_name : jsstring;
  raw_message : bool
}.

Definition eml_items (attachEml : bool) (e : emailData) : list item :=
  if attachEml then
    match emlDownloadUrl e with
    | Some url =>
        if truthy url then [Item url (emlFilename (subject e)) true] else []
    | None => []
    end
  else [].

Definition attachment_items (selected : list (jsstring * jsstring))
  : list item :=
  map (fun att => Item (fst att) (snd att) false)
    (List.filter (fun att => truthy (fst att)) selected).

Definition expected_items (w : world) : list item :=
  eml_items (attach_eml (form w)) (email (this w))
  ++ attachment_items (checked_attachments (form w)).

(** The raw-message download that a submission makes. *)
Definition eml_fetches (attachEml : bool) (e : emailData) : list jsstring :=
  if attachEml then
    match emlDownloadUrl e with
    | Some url => if truthy url then [url] else []
    | None => []
    end
  else [].

(** The attachment downloads that a submission makes: one for every
    checked attachment that has a URL. *)
Definition attachment_fetches (selected : list (jsstring * jsstring))
  : list jsstring :=
  map fst (List.filter (fun att => truthy (fst att)) selected).

(** The downloads of a submission. *)
Definition expected_fetches (w : world) : list jsstring :=
  eml_fetches (attach_eml (form w)) (email (this w))
  ++ attachment_fetches (checked_attachments (form w)).

Lemma expected_items_urls w :
  map item_url (expected_items w) = expected_fetches w.
Proof.
  unfold expected_items, expected_fetches. rewrite map_app. f_equal.
  - unfold eml_items, eml_fetches. destruct (attach_eml (form w)); [|reflexivity].
    destruct (emlDownloadUrl _) as [url|]; [|reflexivity].
    now destruct (truthy url).
  - unfold attachment_items, attachment_fetches. rewrite map_map.
    reflexivity.
Qed.

(** The upload that follows a download: every delivered blob is sent
    under the name of its item, except a raw message without bytes. *)
Definition upload_for (taskId : value) (it : item) (outcome : option blob)
  : list value :=
  match outcome with
  | Some blob =>
      if raw_message it && negb (0 <? length (blob_bytes blob))%nat then []
      else [uploadMessage taskId blob (VStr (item_name it))]
  | None => []
  end.

Definition expected_uploads (taskId : value) (items : list item)
    (outs : list (option blob)) : list value :=
  flat_map (fun io => upload_for taskId (fst io) (snd io)) (combine items outs).

Lemma expected_uploads_app taskId items1 items2 outs1 outs2 :
  length items1 = length outs1 ->
  expected_uploads taskId (items1 ++ items2) (outs1 ++ outs2)
  = expected_uploads taskId items1 outs1
    ++ expected_uploads taskId items2 outs2.
Proof.
  unfold expected_uploads. revert outs1.
  induction items1 as [|i items1 IH]; intros [|o outs1] Hlen;
    try discriminate; [reflexivity|].
  cbn [app combine flat_map]. rewrite <- app_assoc. f_equal.
  apply IH. now injection Hlen.
Qed.

(** From [w] to [w']: the draft and the state of the submit button are
    kept, and the events [tr] were added. *)
Definition ran (w w' : world) (tr : list event) : Prop :=
  this w' = this w /\
  create_disabled (form w') = create_disabled (form w) /\
  trace w' = trace w ++ tr.

Lemma ran_refl w : ran w w [].
Proof. unfold ran. now rewrite app_nil_r. Qed.

Lemma ran_trans w w1 w2 tr1 tr2 :
  ran w w1 tr1 -> ran w1 w2 tr2 -> ran w w2 (tr1 ++ tr2).
Proof.
  intros (T1 & D1 & E1) (T2 & D2 & E2). repeat split; try congruence.
  now rewrite E2, E1, app_assoc.
Qed.

(** The events [tr], the first made at time [now], are the attempts for
    [items]: each item is downloaded, in order; each delivered blob is
    sent for upload; nothing is clicked. *)
Definition attempted (env : environment) (taskId : value) (items : list item)
    (now : nat) (tr : list event) : Prop :=
  fetched_urls tr = map item_url items /\
  uploads tr = expected_uploads taskId items (outcomes env now tr) /\
  clicks tr = [].

Lemma attempted_app env taskId items1 items2 now tr1 tr2 :
  attempted env taskId items1 now tr1 ->
  attempted env taskId items2 (now + length tr1) tr2 ->
  attempted env taskId (items1 ++ items2) now (tr1 ++ tr2).
Proof.
  intros (F1 & U1 & C1) (F2 & U2 & C2). repeat split.
  - now rewrite fetched_urls_app, map_app, F1, F2.
  - rewrite uploads_app, outcomes_app, expected_uploads_app, U1, U2;
      [reflexivity|].
    now rewrite outcomes_length, F1, length_map.
  - now rewrite clicks_app, C1, C2.
Qed.

Lemma run_bind {A B} (m : M A) (k : A -> M B) w :
  (m ≫= k) w
  = match m w with
    | (Ok a, w') => k a w'
    | (Throw e, w') => (Throw e, w')
    end.
Proof. reflexivity. Qed.

(** [m] completes from every world and adds events that satisfy [P] at
    the time of the first of them. *)
Definition completes_with (m : M unit) (P : nat -> list event -> Prop)
  : Prop :=
  forall w, exists w' tr,
    m w = (Ok tt, w') /\ ran w w' tr /\ P (length (trace w)) tr.

Lemma completes_with_bind (m : M unit) (k : M unit)
    (P1 P2 P : nat -> list event -> Prop) :
  completes_with m P1 -> completes_with k P2 ->
  (forall now tr1 tr2,
     P1 now tr1 -> P2 (now + length tr1)%nat tr2 -> P now (tr1 ++ tr2)) ->
  completes_with (m;; k) P.
Proof.
  intros Hm Hk HP w. destruct (Hm w) as (w1 & tr1 & E1 & R1 & Q1).
  destruct (Hk w1) as (w2 & tr2 & E2 & R2 & Q2).
  exists w2, (tr1 ++ tr2). rewrite run_bind, E1, E2.
  split; [reflexivity|]. split; [eapply ran_trans; eauto|].
  apply HP; [exact Q1|]. destruct R1 as (_ & _ & Et).
  now rewrite Et, length_app in Q2.
Qed.

Ltac run_ops :=
  cbv beta iota delta
    [downloadAttachment uploadBlobToAsana sendMessage showStatus try_catch
     set_form clock emit await throw mbind M_bind mret M_ret
     this form trace].

Ltac ran_by_computation :=
  unfold ran; cbn [this form trace create_disabled];
  rewrite <- ?app_assoc; cbn [app]; repeat split; reflexivity.

(** The body of the loop over the checked attachments. *)
Lemma attachment_block env taskId url name :
  completes_with
    (try_catch
       (blob ← downloadAttachment env url;
        match blob with
        | Some blob => uploadBlobToAsana env taskId blob name;; mret tt
        | None => mret tt
        end)
       (fun uploadError => emit (Logged (lit "Failed to upload attachment:"))))
    (attempted env taskId [Item url name false]).
Proof.
  intros [s f tr]. run_ops.
  destruct (page_fetch env (length tr) url) as [response|e] eqn:Hfetch.
  - destruct (ok response) eqn:Hok; cbn [negb].
    + destruct (Gateway.body response) as [blob|e] eqn:Hbody.
      * rewrite !length_app. cbn [length]. rewrite Nat.add_1_r.
        destruct (gateway env _ (S (length tr)) _) as [answer|e] eqn:Hup.
        -- destruct (truthy (error_of answer));
             eexists _, _; (split; [reflexivity|]);
             (split; [ran_by_computation|]);
             unfold attempted; cbn [fetched_urls uploads clicks flat_map app
               outcomes map item_url];
             rewrite Hfetch; unfold delivered; rewrite Hok, Hbody;
             repeat split; reflexivity.
        -- eexists _, _; (split; [reflexivity|]);
             (split; [ran_by_computation|]);
             unfold attempted; cbn [fetched_urls uploads clicks flat_map app
               outcomes map item_url];
             rewrite Hfetch; unfold delivered; rewrite Hok, Hbody;
             repeat split; reflexivity.
      * eexists _, _; (split; [reflexivity|]);
          (split; [ran_by_computation|]);
          unfold attempted; cbn [fetched_urls uploads clicks flat_map app
            outcomes map item_url];
          rewrite Hfetch; unfold delivered; rewrite Hok, Hbody;
          repeat split; reflexivity.
    + eexists _, _; (split; [reflexivity|]);
        (split; [ran_by_computation|]);
        unfold attempted; cbn [fetched_urls uploads clicks flat_map app
          outcomes map item_url];
        rewrite Hfetch; unfold delivered; rewrite Hok;
        repeat split; reflexivity.
  - eexists _, _; (split; [reflexivity|]);
      (split; [ran_by_computation|]);
      unfold attempted; cbn [fetched_urls uploads clicks flat_map app
        outcomes map item_url];
      rewrite Hfetch; repeat split; reflexivity.
Qed.


Lemma completes_with_ret (P : nat -> list event -> Prop) :
  (forall now, P now []) -> completes_with (mret tt) P.
Proof.
  intros HP w. exists w, []. split; [reflexivity|]. split; [apply ran_refl|].
  apply HP.
Qed.

Lemma completes_with_logged s (P : nat -> list event -> Prop) :
  (forall now, P now [Logged s]) -> completes_with (emit (Logged s)) P.
Proof.
  intros HP w. eexists _, [Logged s]. split; [reflexivity|].
  split; [now repeat split|]. apply HP.
Qed.

Lemma completes_with_showStatus message type (P : nat -> list event -> Prop) :
  (forall now, P now []) -> completes_with (showStatus message type) P.
Proof.
  intros HP w. eexists _, []. split; [reflexivity|].
  split; [|apply HP]. unfold ran. cbn [this form trace create_disabled].
  now rewrite app_nil_r.
Qed.

Lemma attempted_nil env taskId now : attempted env taskId [] now [].
Proof. now repeat split. Qed.

Lemma attempted_logged env taskId now s :
  attempted env taskId [] now [Logged s].
Proof. now repeat split. Qed.

(** The raw-message step. *)
Lemma attachEmlStep_completes t env attachEml e taskId :
  completes_with (attachEmlStep t env attachEml e taskId)
    (attempted env taskId (eml_items attachEml e)).
Proof.
  unfold attachEmlStep, eml_items.
  destruct attachEml; [|apply completes_with_ret; intros; apply attempted_nil].
  destruct (emlDownloadUrl e) as [url|];
    [|apply completes_with_logged; intros; apply attempted_logged].
  destruct (truthy url);
    [|apply completes_with_logged; intros; apply attempted_logged].
  intros [s f tr]. run_ops.
  destruct (page_fetch env (length tr) url) as [response|err] eqn:Hfetch.
  - destruct (ok response) eqn:Hok; cbn [negb].
    + destruct (Gateway.body response) as [blob|err] eqn:Hbody.
      * destruct (0 <? length (blob_bytes blob))%nat eqn:Hsize.
        -- run_ops. rewrite !length_app. cbn [length]. rewrite Nat.add_1_r.
           destruct (gateway env _ (S (length tr)) _) as [answer|err] eqn:Hup.
           ++ destruct (truthy (error_of answer));
                eexists _, _; (split; [reflexivity|]);
                (split; [ran_by_computation|]);
                unfold attempted; cbn [fetched_urls uploads clicks flat_map
                  app outcomes map item_url];
                rewrite Hfetch; unfold delivered; rewrite Hok, Hbody;
                unfold expected_uploads;
                cbn [combine flat_map upload_for fst snd raw_message
                  item_name andb];
                rewrite Hsize; repeat split; reflexivity.
           ++ eexists _, _; (split; [reflexivity|]);
                (split; [ran_by_computation|]);
                unfold attempted; cbn [fetched_urls uploads clicks flat_map
                  app outcomes map item_url];
                rewrite Hfetch; unfold delivered; rewrite Hok, Hbody;
                unfold expected_uploads;
                cbn [combine flat_map upload_for fst snd raw_message
                  item_name andb];
                rewrite Hsize; repeat split; reflexivity.
        -- run_ops. eexists _, _; (split; [reflexivity|]);
             (split; [ran_by_computation|]);
             unfold attempted; cbn [fetched_urls uploads clicks flat_map
               app outcomes map item_url];
             rewrite Hfetch; unfold delivered; rewrite Hok, Hbody;
             unfold expected_uploads;
             cbn [combine flat_map upload_for fst snd raw_message
               item_name andb];
             rewrite Hsize; repeat split; reflexivity.
      * eexists _, _; (split; [reflexivity|]);
          (split; [ran_by_computation|]);
          unfold attempted; cbn [fetched_urls uploads clicks flat_map app
            outcomes map item_url];
          rewrite Hfetch; unfold delivered; rewrite Hok, Hbody;
          repeat split; reflexivity.
    + eexists _, _; (split; [reflexivity|]);
        (split; [ran_by_computation|]);
        unfold attempted; cbn [fetched_urls uploads clicks flat_map app
          outcomes map item_url];
        rewrite Hfetch; unfold delivered; rewrite Hok;
        repeat split; reflexivity.
  - eexists _, _; (split; [reflexivity|]);
      (split; [ran_by_computation|]);
      unfold attempted; cbn [fetched_urls uploads clicks flat_map app
        outcomes map item_url];
      rewrite Hfetch; repeat split; reflexivity.
Qed.

(** The loop over the checked attachments. *)
Lemma uploadEach_completes env taskId selected :
  completes_with (uploadEach env taskId selected)
    (attempted env taskId (attachment_items selected)).
Proof.
  induction selected as [|[url name] rest IH];
    [apply completes_with_ret; intros; apply attempted_nil|].
  cbn [uploadEach]. unfold attachment_items. cbn [List.filter fst].
  destruct (truthy url).
  - cbn [map fst snd].
    change (Item url name false :: ?l) with ([Item url name false] ++ l).
    eapply completes_with_bind;
      [apply attachment_block|exact IH|apply attempted_app].
  - apply (completes_with_bind _ _ (attempted env taskId [])
             (attempted env taskId (attachment_items rest)));
      [apply completes_with_ret; intros; apply attempted_nil|exact IH|].
    intros now tr1 tr2 H1 H2.
    exact (attempted_app env taskId [] _ now tr1 tr2 H1 H2).
Qed.

Lemma uploadAttachmentsStep_completes t env taskId selected :
  completes_with (uploadAttachmentsStep t env taskId selected)
    (attempted env taskId (attachment_items selected)).
Proof.
  unfold uploadAttachmentsStep. destruct selected as [|att rest].
  - apply completes_with_ret. apply attempted_nil.
  - cbn [length Nat.ltb Nat.leb].
    apply (completes_with_bind _ _ (attempted env taskId [])
             (attempted env taskId (attachment_items (att :: rest))));
      [apply completes_with_showStatus; intros; apply attempted_nil
      |apply uploadEach_completes|].
    intros now tr1 tr2 H1 H2.
    exact (attempted_app env taskId [] _ now tr1 tr2 H1 H2).
Qed.

(** What the label step clicks in the host page: the labels button when
    there is one, then the item of the menu that names Asana, or the page
    to close the menu. *)
Definition label_clicks (addLabel : bool)
    (menu : result (option (list jsstring))) : list jsstring :=
  if addLabel then
    match menu with
    | Ok (Some labelItems) =>
        [lit "Labels";
         match find (fun item => includes item (lit "Asana")) labelItems with
         | Some item => item
         | None => lit "body"
         end]
    | _ => []
    end
  else [].

(** The events [tr], the first made at time [now], are those of the label
    step. *)
Definition labelled (env : environment) (addLabel : bool) (now : nat)
    (tr : list event) : Prop :=
  fetched_urls tr = [] /\ uploads tr = [] /\
  clicks tr = label_clicks addLabel (label_menu env now).

Lemma labelStep_completes t env addLabel :
  completes_with (labelStep t env addLabel) (labelled env addLabel).
Proof.
  unfold labelStep. destruct addLabel;
    [|apply completes_with_ret; now repeat split].
  intros [s f tr]. unfold addGmailLabel. run_ops.
  unfold labelled, label_clicks.
  destruct (label_menu env (length tr)) as [[labelItems|]|err].
  - destruct (find _ labelItems) as [item|];
      eexists _, _; (split; [reflexivity|]);
      (split; [ran_by_computation|]); repeat split; reflexivity.
  - eexists _, []; (split; [reflexivity|]).
    split; [|now repeat split].
    unfold ran. cbn [this form trace create_disabled]. now rewrite app_nil_r.
  - eexists _, _; (split; [reflexivity|]);
      (split; [ran_by_computation|]); repeat split; reflexivity.
Qed.


Lemma customFieldsData_total l entries :
  exists data, customFieldsData (Data l) entries = Ok data.
Proof.
  induction entries as [|[fieldId text] rest (data & IH)]; [now exists []|].
  cbn [customFieldsData]. rewrite IH. cbn [mbind result_bind].
  destruct (find _ l); eauto.
Qed.

(** The service worker answers the creation call with the created
    object. *)
Definition creation_succeeds (env : environment) : Prop :=
  (forall now data, exists created,
     gateway env _ now (CREATE_TASK data) = Ok (Data created)) /\
  (forall now taskId text html,
     gateway env _ now (ADD_COMMENT taskId text html) = Ok (Data tt)).

(** The draft has what its mode requires. *)
Definition submittable (w : world) : Prop :=
  match mode (this w) with
  | create =>
      trim (name_input (form w)) <> [] /\
      selectedProject (this w) <> None /\
      exists fields, customFields (this w) = Data fields
  | comment => selectedExistingTask (this w) <> None
  end.

Definition is_notification (e : event) : Prop :=
  match e with
  | Sent (SHOW_NOTIFICATION _ _ _) => True
  | _ => False
  end.

Lemma sendMessage_run env {A} (r : request A) w :
  sendMessage env r w
  = (Ok (gateway env A (length (trace w)) r),
     {| this := this w; form := form w; trace := trace w ++ [Sent r] |}).
Proof. reflexivity. Qed.

(** The steps after the creation, up to the end of the submission. *)
Lemma post_steps t env attachEml addLabel e taskId selected
    text title message url w :
  exists w' steps rest,
    (attachEmlStep t env attachEml e taskId;;
     uploadAttachmentsStep t env taskId selected;;
     labelStep t env addLabel;;
     showStatus text (lit "success");;
     sendMessage env (SHOW_NOTIFICATION title message url);;
     s' ← get_this;
     if autoClose (prefs s') then emit CloseScheduled else mret tt) w
    = (Ok tt, w') /\
    ran w w' (steps ++ rest) /\
    attempted env taskId (eml_items attachEml e ++ attachment_items selected)
      (length (trace w)) steps /\
    fetched_urls rest = [] /\ uploads rest = [] /\
    clicks rest
    = label_clicks addLabel (label_menu env (length (trace w) + length steps)) /\
    Exists is_notification rest /\
    snd (status (form w')) = lit "success".
Proof.
  destruct (attachEmlStep_completes t env attachEml e taskId w)
    as (w1 & tr1 & E1 & R1 & A1).
  destruct (uploadAttachmentsStep_completes t env taskId selected w1)
    as (w2 & tr2 & E2 & R2 & A2).
  destruct (labelStep_completes t env addLabel w2)
    as (w3 & tr3 & E3 & R3 & (F3 & U3 & C3)).
  pose proof (ran_trans _ _ _ _ _ R1 R2) as R12.
  assert (Hlen : length (trace w2) = (length (trace w) + length (tr1 ++ tr2))%nat).
  { destruct R12 as (_ & _ & ->). now rewrite length_app. }
  assert (A12 : attempted env taskId
                  (eml_items attachEml e ++ attachment_items selected)
                  (length (trace w)) (tr1 ++ tr2)).
  { apply attempted_app; [exact A1|].
    destruct R1 as (_ & _ & Et). now rewrite Et, length_app in A2. }
  rewrite run_bind, E1. rewrite run_bind, E2. rewrite run_bind, E3.
  destruct w3 as [s3 f3 t3].
  destruct R3 as (T3 & D3 & Et3). cbn [this form trace] in *.
  cbv beta iota delta [showStatus sendMessage set_form get_this clock emit
    mbind M_bind mret M_ret this form trace].
  destruct (autoClose (prefs s3)).
  - eexists _, (tr1 ++ tr2),
      (tr3 ++ [Sent (SHOW_NOTIFICATION title message url); CloseScheduled]).
    split; [reflexivity|]. split; [|split; [exact A12|]].
    + destruct R12 as (T12 & D12 & Et12).
      unfold ran. cbn [this form trace create_disabled].
      split; [congruence|]. split; [congruence|].
      rewrite Et3, Et12, <- !app_assoc. reflexivity.
    + rewrite fetched_urls_app, uploads_app, clicks_app, F3, U3, C3, Hlen.
      cbn [fetched_urls uploads clicks flat_map app].
      rewrite app_nil_r. repeat split; try reflexivity.
      apply Exists_app. right. apply List.Exists_cons_hd. exact I.
  - eexists _, (tr1 ++ tr2),
      (tr3 ++ [Sent (SHOW_NOTIFICATION title message url)]).
    split; [reflexivity|]. split; [|split; [exact A12|]].
    + destruct R12 as (T12 & D12 & Et12).
      unfold ran. cbn [this form trace create_disabled].
      split; [congruence|]. split; [congruence|].
      rewrite Et3, Et12, <- !app_assoc. reflexivity.
    + rewrite fetched_urls_app, uploads_app, clicks_app, F3, U3, C3, Hlen.
      cbn [fetched_urls uploads clicks flat_map app].
      rewrite app_nil_r. repeat split; try reflexivity.
      apply Exists_app. right. apply List.Exists_cons_hd. exact I.
Qed.

(** The creation call of a submission and the identifier that its answer
    gives to the later steps: in create mode the [gid] of the created
    task, in comment mode that of the selected task. *)
Definition created_as (env : environment) (w : world) (taskId : value)
    (first : event) : Prop :=
  match mode (this w) with
  | create =>
      exists data created,
        first = Sent (CREATE_TASK data) /\
        gateway env _ (length (trace w)) (CREATE_TASK data)
        = Ok (Data created) /\
        taskId = VStr (created_gid created)
  | comment =>
      exists existing html,
        selectedExistingTask (this w) = Some existing /\
        first = Sent (ADD_COMMENT (task_gid existing) [] html) /\
        taskId = VStr (task_gid existing)
  end.



(** An outside where the creation succeeds and everything after it
    fails, except the download of the first attachment. *)
Definition flakyEnvironment : environment :=
  {| gateway := fun A now r =>
       match r in request T return result (answer T) with
       | CREATE_TASK _ => Ok (Data (CreatedTask (lit "T1")))
       | ADD_COMMENT _ _ _ => Ok (Data tt)
       | _ => Throw (Error (lit "upload failed"))
       end;
     page_fetch := fun now url =>
       if str_eqb url (lit "https://mail.example/a") then
         Ok (Response true 200 (Ok (Blob (lit "text/plain") [x41])))
       else Ok (Response false 404 (Throw (Error (lit "no body"))));
     label_menu := fun _ => Throw (Error (lit "no menu")) |}.

(** The draft [{mode: create, project: P1, name: X}] with two checked
    attachments. *)
Definition readyWorld : world :=
  {| this := with_selection (Some (Project (lit "P1") (lit "Invoices"))) []
               None (Data []) ∅ blankSelector;
     form :=
       {| name_input := lit "X"; workspace_value := lit "W1";
          assignee_value := []; due_date := [];
          include_body := true; include_link := true;
          attach_eml := false; add_label := true;
          checked_attachments :=
            [(lit "https://mail.example/b", lit "b.txt");
             (lit "https://mail.example/a", lit "a.txt")];
          project_input := []; task_search_input := []; status := ([], []);
          create_disabled := false; create_text := [] |};
     trace := [] |}.


(** *** Switching the workspace *)

(** The session of the scenario: project [P1] is selected, then the
    workspace selector is changed to [W2] by the user (the [change]
    listener passes no second argument, so [autoSelectDefaults] is
    [false]). *)
Definition afterSelect env (P1 : project) (w : world) : world :=
  snd (selectProject env P1 w).

Definition afterSwitch t env (P1 : project) (W2 : jsstring) (w : world)
  : world :=
  snd (onWorkspaceChange t env W2 false (afterSelect env P1 w)).

(** An outside where workspace [W2] has a project whose identifier is
    that of a project of [W1]. *)
Definition sameIdEnvironment : environment :=
  {| gateway := fun A now r =>
       match r in request T return result (answer T) with
       | GET_PROJECTS _ =>
           Ok (Data [Project (lit "P0") (lit "Other");
                     Project (lit "P1") (lit "Namesake in W2")])
       | GET_USERS _ => Ok (Data [])
       | GET_TAGS _ => Ok (Data [])
       | GET_PROJECT_CUSTOM_FIELDS _ => Ok (Data [])
       | SAVE_PREFERENCES _ => Ok (Data tt)
       | _ => Throw (Error (lit "unexpected"))
       end;
     page_fetch := fun _ _ => Throw (Error (lit "offline"));
     label_menu := fun _ => Ok None |}.


(** Whatever the outside answers, [savePreferences] merges its argument
    into the preferences and touches nothing else. *)
Lemma savePreferences_this env update w :
  this (snd (savePreferences env update w))
  = with_prefs (update (prefs (this w))) (this w).
Proof.
  unfold savePreferences, sendMessage, set_this, get_this, clock, emit, await,
    mbind, M_bind, mret, M_ret.
  cbn [this form trace].
  now destruct (gateway env _ _ _).
Qed.

Section Switch.
Variable t : jsstring -> list jsstring -> jsstring.
Variable env : environment.
(** The identifier of the last used project, and the new workspace. *)
Variable g : jsstring.
Variable W2 : jsstring.

(** [p] has the identifier [g] and is in a project list that the service
    worker answered for [W2]. *)
Definition offered (p : project) : Prop :=
  project_gid p = g /\
  exists now l, gateway env _ now (GET_PROJECTS W2) = Ok (Data l) /\ In p l.

(** What holds of the draft from the reset on. *)
Definition switch_inv (s : selector) : Prop :=
  selectedTags s = [] /\
  customFieldValues s = ∅ /\
  selectedExistingTask s = None /\
  lastProjectId (prefs s) = g /\
  (selectedProject s = None \/
   exists p, selectedProject s = Some p /\ offered p).

(** [m] keeps [switch_inv], and a value it returns satisfies [Q]. *)
Definition keeps {A} (m : M A) (Q : A -> Prop) : Prop :=
  forall w, switch_inv (this w) ->
    switch_inv (this (snd (m w))) /\
    forall a, fst (m w) = Ok a -> Q a.

Lemma keeps_weaken {A} (m : M A) (Q Q' : A -> Prop) :
  keeps m Q -> (forall a, Q a -> Q' a) -> keeps m Q'.
Proof.
  intros H HQ w Hw. destruct (H w Hw) as [H1 H2]. split; auto.
Qed.

Lemma keeps_bind {A B} (m : M A) (k : A -> M B) Q Q' :
  keeps m Q -> (forall a, Q a -> keeps (k a) Q') -> keeps (m ≫= k) Q'.
Proof.
  intros Hm Hk w Hw. destruct (Hm w Hw) as [H1 H2].
  unfold mbind, M_bind. destruct (m w) as [[a|e] w1]; cbn [fst snd] in *.
  - apply (Hk a (H2 a eq_refl) w1 H1).
  - split; [exact H1|discriminate].
Qed.

Lemma keeps_pure {A} (m : M A) (Q : A -> Prop) :
  (forall w, this (snd (m w)) = this w) ->
  (forall w a, fst (m w) = Ok a -> Q a) ->
  keeps m Q.
Proof.
  intros H1 H2 w Hw. rewrite H1. split; [exact Hw|apply H2].
Qed.

Lemma keeps_ret {A} (a : A) : keeps (mret a) (fun x => x = a).
Proof.
  apply keeps_pure; [reflexivity|]. intros w x H. injection H as <-.
  reflexivity.
Qed.

Lemma keeps_unit (m : M unit) :
  (forall w, this (snd (m w)) = this w) -> keeps m (fun _ => True).
Proof. intros H. apply keeps_pure; auto. Qed.

Lemma keeps_throw {A} e (Q : A -> Prop) : keeps (throw e) Q.
Proof. apply keeps_pure; [reflexivity|discriminate]. Qed.

Lemma keeps_try_catch {A} (body : M A) handler (Q : A -> Prop) :
  keeps body Q -> (forall e, keeps (handler e) Q) ->
  keeps (try_catch body handler) Q.
Proof.
  intros Hb Hh w Hw. destruct (Hb w Hw) as [H1 H2].
  unfold try_catch. destruct (body w) as [[a|e] w1]; cbn [fst snd] in *.
  - split; [exact H1|exact H2].
  - apply (Hh e w1 H1).
Qed.

Lemma keeps_detached {A} (m : M A) (Q : A -> Prop) :
  keeps m Q -> keeps (detached m) (fun _ => True).
Proof.
  intros H w Hw. destruct (H w Hw) as [H1 _]. split; [exact H1|auto].
Qed.

Lemma keeps_sendMessage {A} (r : request A) :
  keeps (sendMessage env r) (fun p => exists now, p = gateway env A now r).
Proof.
  apply keeps_pure; [reflexivity|].
  intros w p H. injection H as <-. eauto.
Qed.

Lemma keeps_await {A} (p : promise A) : keeps (await p) (fun a => p = Ok a).
Proof. apply keeps_pure; [reflexivity|]. intros w a H. exact H. Qed.

Lemma keeps_get_this : keeps get_this switch_inv.
Proof. intros w Hw. split; [exact Hw|]. intros a H. now injection H as <-. Qed.

Lemma keeps_showStatus message type :
  keeps (showStatus message type) (fun _ => True).
Proof. now apply keeps_unit. Qed.

Lemma keeps_setProjectInput v : keeps (setProjectInput v) (fun _ => True).
Proof. now apply keeps_unit. Qed.

Lemma keeps_logged s : keeps (emit (Logged s)) (fun _ => True).
Proof. now apply keeps_unit. Qed.

(** Saving preferences that leave [lastProjectId] at [g]. *)
Lemma keeps_savePreferences update :
  (forall p, lastProjectId p = g -> lastProjectId (update p) = g) ->
  keeps (savePreferences env update) (fun _ => True).
Proof.
  intros Hu w (H1 & H2 & H3 & H4 & H5). rewrite savePreferences_this.
  split; [|auto]. repeat split; simpl; auto.
Qed.

Lemma keeps_loadCustomFields projectId :
  keeps (loadCustomFields env projectId) (fun _ => True).
Proof.
  unfold loadCustomFields.
  apply keeps_try_catch; [|intros; apply keeps_logged].
  eapply keeps_bind; [apply keeps_sendMessage|]. intros p _.
  eapply keeps_bind; [apply keeps_await|]. intros fields _.
  eapply keeps_bind with (Q := fun _ => True).
  { intros w (H1 & H2 & H3 & H4 & H5). split; [|auto].
    repeat split; auto. }
  intros _ _.
  assert (Hclear : keeps
    (set_this (fun s =>
       with_selection (selectedProject s) (selectedTags s)
         (selectedExistingTask s) (customFields s) ∅ s))
    (fun _ => True)).
  { intros w (H1 & H2 & H3 & H4 & H5). split; [|auto].
    repeat split; auto. }
  destruct fields as [[|field rest]|msg].
  - eapply keeps_weaken; [apply keeps_ret|auto].
  - eapply keeps_bind; [exact Hclear|]. intros _ _.
    eapply keeps_weaken; [apply keeps_ret|auto].
  - eapply keeps_bind; [exact Hclear|]. intros _ _. apply keeps_throw.
Qed.

(** Selecting a project that [W2] offers under the identifier [g]. *)
Lemma keeps_selectProject project :
  offered project -> keeps (selectProject env project) (fun _ => True).
Proof.
  intros Hoff. unfold selectProject.
  eapply keeps_bind with (Q := fun _ => True).
  { intros w (H1 & H2 & H3 & H4 & H5). split; [|auto].
    repeat split; auto. right. eauto. }
  intros _ _.
  eapply keeps_bind; [apply keeps_setProjectInput|]. intros _ _.
  eapply keeps_bind.
  { apply keeps_detached with (Q := fun _ => True).
    apply keeps_savePreferences. intros p _. apply Hoff. }
  intros _ _. apply keeps_loadCustomFields.
Qed.

(** The part of [onWorkspaceChange] after the reset keeps the
    invariant. *)
Lemma keeps_load :
  keeps
    (try_catch
      (p1 ← sendMessage env (GET_PROJECTS W2);
       p2 ← sendMessage env (GET_USERS W2);
       p3 ← sendMessage env (GET_TAGS W2);
       projects ← await p1;
       users ← await p2;
       tags ← await p3;
       set_this (with_lists projects users tags);;
       match projects with
       | ErrorObject _ =>
           throw (Error (lit "Cannot read properties of undefined"))
       | Data projects =>
           s ← get_this;
           let projectToSelect :=
             if false && truthy (defaultProject (prefs s))
             then defaultProject (prefs s)
             else lastProjectId (prefs s) in
           (if truthy projectToSelect then
              match find (fun p => str_eqb (project_gid p) projectToSelect)
                      projects with
              | Some project => detached (selectProject env project)
              | None => mret tt
              end
            else mret tt);;
           match users with
           | ErrorObject _ =>
               throw (Error (lit "this.users.filter is not a function"))
           | Data _ => savePreferences env (set_lastWorkspaceId W2)
           end
       end)
      (fun error =>
         showStatus (t (lit "errorLoadData") [] ++ lit " " ++ message error)
           (lit "error")))
    (fun _ => True).
Proof.
  apply keeps_try_catch; [|intros; apply keeps_showStatus].
  eapply keeps_bind; [apply keeps_sendMessage|]. intros p1 (now & Hp1).
  eapply keeps_bind; [apply keeps_sendMessage|]. intros p2 _.
  eapply keeps_bind; [apply keeps_sendMessage|]. intros p3 _.
  eapply keeps_bind; [apply keeps_await|]. intros projects Hprojects.
  eapply keeps_bind; [apply keeps_await|]. intros users _.
  eapply keeps_bind; [apply keeps_await|]. intros tags _.
  eapply keeps_bind with (Q := fun _ => True).
  { intros w (H1 & H2 & H3 & H4 & H5). split; [|auto].
    repeat split; auto. }
  intros _ _. destruct projects as [projects|msg]; [|apply keeps_throw].
  eapply keeps_bind; [apply keeps_get_this|].
  intros s (_ & _ & _ & Hlast & _). cbn [andb]. cbv zeta. rewrite Hlast.
  eapply keeps_bind with (Q := fun _ => True).
  { destruct (truthy g); [|eapply keeps_weaken; [apply keeps_ret|auto]].
    destruct (find _ projects) as [project|] eqn:Hfind;
      [|eapply keeps_weaken; [apply keeps_ret|auto]].
    apply find_some in Hfind. destruct Hfind as [Hin Hgid].
    apply keeps_detached with (Q := fun _ => True).
    apply keeps_selectProject. split.
    - unfold str_eqb in Hgid. now apply bool_decide_eq_true in Hgid.
    - exists now, projects. split; [congruence|exact Hin]. }
  intros _ _. destruct users; [|apply keeps_throw].
  apply keeps_savePreferences. auto.
Qed.

End Switch.

(** Selecting a project records it as the last used one, whatever the
    outside answers. *)
Lemma afterSelect_lastProjectId env P1 w :
  lastProjectId (prefs (this (afterSelect env P1 w))) = project_gid P1.
Proof.
  unfold afterSelect, selectProject, detached, savePreferences,
    loadCustomFields, try_catch, sendMessage, setProjectInput, set_this,
    set_form, get_this, clock, emit, await, throw, mbind, M_bind, mret, M_ret.
  cbn [this form trace fst snd].
  repeat match goal with
         | |- context [gateway env ?A ?n ?r] =>
             destruct (gateway env A n r) as [[?|?]|?]; cbn [this form trace fst snd]
         | |- context [match ?l with [] => _ | _ :: _ => _ end] =>
             destruct l; cbn [this form trace fst snd]
         end;
    reflexivity.
Qed.

Lemma selectProject_selected env p w :
  selectedProject (this (snd (selectProject env p w))) = Some p.
Proof.
  unfold selectProject, detached, savePreferences,
    loadCustomFields, try_catch, sendMessage, setProjectInput, set_this,
    set_form, get_this, clock, emit, await, throw, mbind, M_bind, mret, M_ret.
  cbn [this form trace fst snd].
  repeat match goal with
         | |- context [gateway env ?A ?n ?r] =>
             destruct (gateway env A n r) as [[?|?]|?]; cbn [this form trace fst snd]
         | |- context [match ?l with [] => _ | _ :: _ => _ end] =>
             destruct l; cbn [this form trace fst snd]
         end;
    reflexivity.
Qed.

(** What [onWorkspaceChange] leaves as the selected project. *)
Lemma onWorkspaceChange_selectedProject t env W2 w :
  selectedProject (this (snd (onWorkspaceChange t env W2 false w)))
  = let now := length (trace w) in
    let g := lastProjectId (prefs (this w)) in
    if truthy W2 then
      match gateway env _ now (GET_PROJECTS W2),
            gateway env _ (S now) (GET_USERS W2),
            gateway env _ (S (S now)) (GET_TAGS W2) with
      | Ok (Data projects), Ok _, Ok _ =>
          if truthy g then
            find (fun p => str_eqb (project_gid p) g) projects
          else None
      | _, _, _ => None
      end
    else None.
Proof.
  cbv zeta. unfold onWorkspaceChange.
  rewrite run_bind. unfold set_this at 1. cbv beta iota.
  rewrite run_bind. unfold setTaskSearchInput at 1, set_form at 1.
  cbv beta iota. cbn [this form trace].
  destruct (truthy W2); cbn [negb]; [|reflexivity].
  rewrite run_bind. unfold setProjectInput at 1, set_form at 1.
  cbv beta iota. cbn [this form trace].
  match goal with
  | |- context [try_catch _ _ {| this := ?a; form := ?b; trace := ?c |}] =>
      generalize b; intros f0
  end.
  unfold try_catch.
  rewrite run_bind, sendMessage_run. cbv beta iota. cbn [this form trace].
  rewrite run_bind, sendMessage_run. cbv beta iota. cbn [this form trace].
  rewrite run_bind, sendMessage_run. cbv beta iota. cbn [this form trace].
  rewrite !length_app. cbn [length]. rewrite !Nat.add_1_r.
  match goal with
  | |- context [{| this := _; form := f0; trace := ?c |}] =>
      generalize c; intros tr0
  end.
  rewrite run_bind. unfold await at 1.
  destruct (gateway env _ (length (trace w)) (GET_PROJECTS W2))
    as [projects|e1]; [|reflexivity].
  rewrite run_bind. unfold await at 1.
  destruct (gateway env _ (S (length (trace w))) (GET_USERS W2))
    as [users|e2]; [|now destruct projects].
  rewrite run_bind. unfold await at 1.
  destruct (gateway env _ (S (S (length (trace w)))) (GET_TAGS W2))
    as [tags|e3]; [|now destruct projects].
  rewrite run_bind. unfold set_this at 1. cbv beta iota.
  cbn [this form trace].
  destruct projects as [projects|msg]; [|reflexivity].
  rewrite run_bind. unfold get_this at 1. cbv beta iota.
  cbn [this andb with_lists with_selection prefs].
  rewrite run_bind.
  assert (Hsave : forall w1,
            selectedProject
              (this (snd (savePreferences env (set_lastWorkspaceId W2) w1)))
            = selectedProject (this w1)).
  { intros w1. now rewrite savePreferences_this. }
  assert (Hend : forall (m : M unit) w1 p,
            selectedProject (this (snd (m w1))) = p ->
            fst (m w1) = Ok tt ->
            selectedProject
              (this
                 (snd
                    (let (r, w') :=
                       match m w1 with
                       | (Ok _, w') =>
                           match users with
                           | Data _ =>
                               savePreferences env (set_lastWorkspaceId W2)
                           | ErrorObject _ =>
                               throw
                                 (Error
                                    (lit "this.users.filter is not a function"))
                           end w'
                       | (Throw e, w') => (Throw e, w')
                       end in
                     match r with
                     | Ok a => (Ok a, w')
                     | Throw e =>
                         showStatus
                           (t (lit "errorLoadData") [] ++ lit " " ++ message e)
                           (lit "error") w'
                     end))) = p).
  { intros m w1 p Hp Hok. destruct (m w1) as [r1 w2]. cbn [fst snd] in *.
    subst r1. destruct users as [users'|msg].
    - specialize (Hsave w2).
      destruct (savePreferences env (set_lastWorkspaceId W2) w2) as [r w'].
      cbn [snd] in Hsave.
      destruct r; unfold showStatus, set_form; cbn [snd this]; congruence.
    - exact Hp. }
  destruct (truthy (lastProjectId (prefs (this w)))).
  - destruct (find _ projects) as [project|].
    + apply Hend; [|reflexivity]. unfold detached. cbn [snd].
      apply selectProject_selected.
    + apply Hend; reflexivity.
  - apply Hend; reflexivity.
Qed.



(** An outside where workspace [W2] has no project with the identifier of
    a project of [W1]. *)
Definition freshIdEnvironment : environment :=
  {| gateway := fun A now r =>
       match r in request T return result (answer T) with
       | GET_PROJECTS _ => Ok (Data [Project (lit "P7") (lit "Other")])
       | GET_USERS _ => Ok (Data [])
       | GET_TAGS _ => Ok (Data [])
       | GET_PROJECT_CUSTOM_FIELDS _ => Ok (Data [])
       | SAVE_PREFERENCES _ => Ok (Data tt)
       | _ => Throw (Error (lit "unexpected"))
       end;
     page_fetch := fun _ _ => Throw (Error (lit "offline"));
     label_menu := fun _ => Ok None |}.


End ComposerFacts.

(** ** The DOM extractor: placeholders and deduplication *)

Module ExtractorFacts.
Import Extractor.

Lemma fold_left_invariant {A B} (P : A -> Prop) (f : A -> B -> A) l a :
  P a -> (forall a b, P a -> P (f a b)) -> P (fold_left f l a).
Proof.
  intros Ha Hf. revert a Ha. induction l as [|b l IH]; intros a Ha; simpl; auto.
Qed.

Lemma Forall_imap {A B} (P : A -> Prop) (Q : B -> Prop) (f : nat -> A -> B) l :
  (forall i a, P a -> Q (f i a)) -> Forall P l -> Forall Q (imap f l).
Proof.
  intros Hf H. revert f Hf.
  induction H as [|a l Ha _ IH]; intros f Hf; simpl; constructor; auto.
  apply IH. intros i b. apply Hf.
Qed.

Lemma map_imap_name g l : map name (addIds g l) = map name l.
Proof.
  unfold addIds. generalize (threadAttachmentId g). intros h.
  revert h. induction l as [|a l IH]; intros h; simpl; [reflexivity|].
  f_equal. apply (IH (fun i => h (S i))).
Qed.

(** *** Placeholders *)

Definition real (a : attachment) : Prop := isCollapsedPlaceholder a = false.

Definition real_entries (m : list entry) : Prop :=
  Forall (fun e => Forall real (entryAttachments e)) m.

Lemma map_push_real k att m :
  real att -> real_entries m -> real_entries (map_push k att m).
Proof.
  intros Hatt. induction 1 as [|e m He Hm IH]; simpl; [constructor|].
  destruct (key_eqb (key e) k).
  - constructor; [|exact Hm]. simpl. apply Forall_app. split; auto.
  - constructor; auto.
Qed.

Lemma groupCard_real state c :
  real_entries (fst state) -> real_entries (fst (groupCard state c)).
Proof.
  destruct state as [m processed]. unfold groupCard. cbn [fst]. intros Hm.
  destruct (existsb _ processed); [exact Hm|].
  set (m' := if negb (map_has (message c) m) then _ else m).
  assert (Hm' : real_entries m').
  { subst m'. destruct (negb _); [|exact Hm].
    apply Forall_app. split; [exact Hm|]. repeat constructor. }
  destruct (negb (truthy (threadName c))); [exact Hm'|].
  destruct (has_name _ _); [exact Hm'|].
  cbn [fst]. apply map_push_real; [reflexivity|exact Hm'].
Qed.

(** The shape of the messages of the thread scan: an expanded message
    holds real entries only; a collapsed one holds exactly the
    placeholder that carries the count hint. *)
Definition shaped (placeholderText : jsstring) (m : threadMessage) : Prop :=
  if expanded m then Forall real (attachments m)
  else exists count,
    attachmentCount m = Some count /\
    attachments m
    = [{| name := placeholderText ++ lit " (" ++ count ++ lit ")";
          url := Null; size := [];
          id := lit "msg" ++ decimal (Z.of_nat (index m)) ++ lit "-collapsed";
          isCollapsedPlaceholder := true;
          messageIndex := Some (index m) |}].

Lemma convertEntry_shaped ph page state data :
  Forall real (entryAttachments data) ->
  Forall (shaped ph) (fst state) ->
  Forall (shaped ph) (fst (convertEntry page state data)).
Proof.
  destruct state as [messages globalIndex]. unfold convertEntry. cbn [fst].
  intros Hdata Hm. destruct (entryAttachments data) as [|a l] eqn:E;
    [exact Hm|].
  destruct (key data); cbn [fst]; (apply Forall_app; split; [exact Hm|]);
    (apply List.Forall_cons; [|apply List.Forall_nil]);
    unfold shaped; cbn [expanded attachments];
    (apply (Forall_imap real); [intros i b Hb; exact Hb|exact Hdata]).
Qed.

Lemma scanRow_shaped ph state r :
  Forall (shaped ph) (fst state) -> Forall (shaped ph) (fst (scanRow ph state r)).
Proof.
  destruct state as [messages globalIndex]. unfold scanRow. cbn [fst].
  intros Hm. destruct (present (countBadge r) || hasClipIcon r); [|exact Hm].
  destruct (find _ messages); [exact Hm|]. cbn [fst].
  apply Forall_app. split; [exact Hm|].
  apply List.Forall_cons; [|apply List.Forall_nil].
  unfold shaped. cbn [expanded attachments attachmentCount index]. eauto.
Qed.

Lemma fold_convertEntry_shaped ph page entries state :
  real_entries entries ->
  Forall (shaped ph) (fst state) ->
  Forall (shaped ph) (fst (fold_left (convertEntry page) entries state)).
Proof.
  intros H. revert state. induction H as [|e l He _ IH]; intros state Hs;
    simpl; [exact Hs|].
  apply IH. now apply convertEntry_shaped.
Qed.

(** Every message of the thread scan has that shape. *)
Lemma getAllThreadAttachments_shaped ph page :
  Forall (shaped ph) (getAllThreadAttachments ph page).
Proof.
  unfold getAllThreadAttachments. cbv zeta.
  pose proof (fold_left_invariant (fun state => real_entries (fst state))
                groupCard (allAttachmentContainers page) ([], [])) as Hgroups.
  destruct (fold_left groupCard (allAttachmentContainers page) ([], []))
    as [entries processed].
  cbn [fst] in Hgroups.
  apply (fold_left_invariant (fun state => Forall (shaped ph) (fst state))).
  - apply fold_convertEntry_shaped; [|constructor].
    apply Hgroups; [constructor|]. intros state c. apply groupCard_real.
  - intros state r. apply scanRow_shaped.
Qed.

(** C2.  In every message that the thread scan produces, an attachment
    whose placeholder flag is set has the download reference [null]. *)
Theorem placeholder_has_no_reference (placeholderText : jsstring)
    (page : thread) :
  Forall (fun m =>
            Forall (fun a => isCollapsedPlaceholder a = true -> url a = Null)
              (attachments m))
    (getAllThreadAttachments placeholderText page).
Proof.
  eapply List.Forall_impl; [|apply getAllThreadAttachments_shaped].
  intros m Hm. unfold shaped in Hm. destruct (expanded m).
  - eapply List.Forall_impl; [|exact Hm]. unfold real. intros a Ha Hp. congruence.
  - destruct Hm as (count & _ & ->). repeat constructor.
Qed.

(** C3.  Every message of the thread scan that is not expanded holds
    exactly one attachment: the placeholder, whose flag is set, whose
    reference is [null] and whose name carries the count hint of the
    message. *)
Theorem collapsed_message_holds_one_placeholder (placeholderText : jsstring)
    (page : thread) :
  Forall (fun m =>
            expanded m = false ->
            exists a count,
              attachments m = [a] /\
              isCollapsedPlaceholder a = true /\
              url a = Null /\
              attachmentCount m = Some count /\
              name a = placeholderText ++ lit " (" ++ count ++ lit ")")
    (getAllThreadAttachments placeholderText page).
Proof.
  eapply List.Forall_impl; [|apply getAllThreadAttachments_shaped].
  intros m Hm Hexp. unfold shaped in Hm. rewrite Hexp in Hm.
  destruct Hm as (count & Hcount & ->). eauto 10.
Qed.

(** *** Deduplication by name *)

Lemma has_name_false n atts :
  has_name n atts = false -> ~ In n (map name atts).
Proof.
  unfold has_name. induction atts as [|a atts IH]; simpl; [tauto|].
  intros H. apply orb_false_elim in H. destruct H as [Ha Hr].
  intros [E|Hin]; [|now apply IH].
  unfold str_eqb in Ha. apply bool_decide_eq_false in Ha. congruence.
Qed.

Lemma NoDup_snoc {A} (l : list A) (x : A) :
  List.NoDup l -> ~ In x l -> List.NoDup (l ++ [x]).
Proof.
  induction 1 as [|y l Hy Hl IH]; simpl; intros Hx.
  - apply List.NoDup_cons; [tauto|apply List.NoDup_nil].
  - apply List.NoDup_cons.
    + rewrite in_app_iff. simpl. intros [H|[H|[]]]; [tauto|subst; tauto].
    + apply IH. tauto.
Qed.

Lemma NoDup_names_snoc atts a :
  List.NoDup (map name atts) -> has_name (name a) atts = false ->
  List.NoDup (map name (atts ++ [a])).
Proof.
  intros Hnd Hnew. rewrite map_app. simpl.
  apply NoDup_snoc; [exact Hnd|]. now apply has_name_false.
Qed.

(** The per-message extraction returns no two entries with the same
    name. *)
Lemma getAttachmentsFromMessage_NoDup containers :
  List.NoDup (map name (getAttachmentsFromMessage containers)).
Proof.
  unfold getAttachmentsFromMessage.
  apply (fold_left_invariant (fun atts => List.NoDup (map name atts)));
    [constructor|].
  intros atts c Hnd. unfold addFromMessage. cbv zeta.
  destruct (truthy _); [|exact Hnd].
  destruct (has_name _ atts) eqn:Hnew; [exact Hnd|].
  cbn [andb negb]. now apply NoDup_names_snoc.
Qed.

Definition distinct_entries (m : list entry) : Prop :=
  Forall (fun e => List.NoDup (map name (entryAttachments e))) m.

Lemma map_push_distinct k att m :
  distinct_entries m -> has_name (name att) (map_get k m) = false ->
  distinct_entries (map_push k att m).
Proof.
  unfold map_get. induction 1 as [|e m He Hm IH]; simpl; [constructor|].
  destruct (key_eqb (key e) k); intros Hnew.
  - apply List.Forall_cons; [|exact Hm]. simpl. now apply NoDup_names_snoc.
  - apply List.Forall_cons; [exact He|]. now apply IH.
Qed.

Lemma groupCard_distinct state c :
  distinct_entries (fst state) -> distinct_entries (fst (groupCard state c)).
Proof.
  destruct state as [m processed]. unfold groupCard. cbn [fst]. intros Hm.
  destruct (existsb _ processed); [exact Hm|].
  set (m' := if negb (map_has (message c) m) then _ else m).
  assert (Hm' : distinct_entries m').
  { subst m'. destruct (negb _); [|exact Hm].
    apply Forall_app. split; [exact Hm|].
    apply List.Forall_cons; [constructor|apply List.Forall_nil]. }
  destruct (negb (truthy (threadName c))); [exact Hm'|].
  destruct (has_name _ _) eqn:Hnew; [exact Hm'|].
  cbn [fst]. now apply map_push_distinct.
Qed.

Lemma convertEntry_distinct page state data :
  List.NoDup (map name (entryAttachments data)) ->
  Forall (fun m => List.NoDup (map name (attachments m))) (fst state) ->
  Forall (fun m => List.NoDup (map name (attachments m)))
    (fst (convertEntry page state data)).
Proof.
  destruct state as [messages globalIndex]. unfold convertEntry. cbn [fst].
  intros Hdata Hm. destruct (entryAttachments data) as [|a l] eqn:E;
    [exact Hm|].
  destruct (key data); cbn [fst]; (apply Forall_app; split; [exact Hm|]);
    (apply List.Forall_cons; [|apply List.Forall_nil]);
    cbn [attachments]; rewrite map_imap_name; exact Hdata.
Qed.

Definition distinct_names (m : threadMessage) : Prop :=
  List.NoDup (map name (attachments m)).

Lemma fold_convertEntry_distinct page entries state :
  distinct_entries entries ->
  Forall distinct_names (fst state) ->
  Forall distinct_names (fst (fold_left (convertEntry page) entries state)).
Proof.
  intros H. revert state. induction H as [|e l He _ IH]; intros state Hs;
    simpl; [exact Hs|].
  apply IH. now apply convertEntry_distinct.
Qed.

(** In the thread scan, the attachment list of each message holds no two
    entries with the same name. *)
Lemma getAllThreadAttachments_NoDup ph page :
  Forall distinct_names (getAllThreadAttachments ph page).
Proof.
  unfold getAllThreadAttachments. cbv zeta.
  pose proof (fold_left_invariant (fun state => distinct_entries (fst state))
                groupCard (allAttachmentContainers page) ([], [])) as Hgroups.
  destruct (fold_left groupCard (allAttachmentContainers page) ([], []))
    as [entries processed].
  cbn [fst] in Hgroups.
  apply (fold_left_invariant (fun state => Forall distinct_names (fst state))).
  - apply fold_convertEntry_distinct; [|constructor].
    apply Hgroups; [constructor|]. intros state c. apply groupCard_distinct.
  - intros [messages g] r Hm. unfold scanRow.
    destruct (present (countBadge r) || hasClipIcon r); [|exact Hm].
    destruct (find _ messages); [exact Hm|]. cbn [fst].
    apply Forall_app. split; [exact Hm|].
    apply List.Forall_cons; [|apply List.Forall_nil].
    unfold distinct_names. cbn [attachments map]. apply List.NoDup_cons; [simpl; tauto|apply List.NoDup_nil].
Qed.

(** Two attachment cards of the same view that carry the same file name
    (they may belong to one message or to two). *)
Definition namesakeCards : list card :=
  [{| node := 1%nat; message := Some 10%nat; nameText := Some (lit "a.pdf");
      tooltip := None; ariaLabel := None;
      downloadHref := Some (lit "https://mail.example/download/1");
      dataId := None; innerDataId := None; sizeText := Some (lit "10 KB") |};
   {| node := 2%nat; message := Some 10%nat; nameText := Some (lit "a.pdf");
      tooltip := None; ariaLabel := None;
      downloadHref := Some (lit "https://mail.example/download/2");
      dataId := None; innerDataId := None; sizeText := Some (lit "12 KB") |}].

(** C7.  At a view with two attachment cards named [a.pdf], the
    whole-view extraction [getAttachments] returns two entries with that
    name: its first loop pushes every card without looking for the name,
    whereas its second loop, the per-message extraction and the thread
    scan skip a name already present (the latter two return one entry;
    see also [getAttachmentsFromMessage_NoDup] and
    [getAllThreadAttachments_NoDup]). *)
Theorem getAttachments_keeps_namesakes :
  map name (getAttachments namesakeCards []) = [lit "a.pdf"; lit "a.pdf"] /\
  map name (getAttachmentsFromMessage namesakeCards) = [lit "a.pdf"] /\
  map (fun m => map name (attachments m))
    (getAllThreadAttachments []
       {| allAttachmentContainers := namesakeCards;
          messageContainer := fun _ => MessageNode None [] None None None None;
          collapsedRows := [] |})
  = [[lit "a.pdf"]].
Proof. repeat split; vm_compute; reflexivity. Qed.

(** Across messages nothing is deduplicated: the same name under two
    message containers gives one entry in each message. *)
Lemma no_dedup_across_messages :
  map (fun m => map name (attachments m))
    (getAllThreadAttachments []
       {| allAttachmentContainers :=
            [{| node := 1%nat; message := Some 10%nat; nameText := Some (lit "a.pdf");
                tooltip := None; ariaLabel := None; downloadHref := None;
                dataId := None; innerDataId := None; sizeText := None |};
             {| node := 2%nat; message := Some 20%nat; nameText := Some (lit "a.pdf");
                tooltip := None; ariaLabel := None; downloadHref := None;
                dataId := None; innerDataId := None; sizeText := None |}];
          messageContainer := fun _ => MessageNode None [] None None None None;
          collapsedRows := [] |})
  = [[lit "a.pdf"]; [lit "a.pdf"]].
Proof. vm_compute. reflexivity. Qed.

End ExtractorFacts.

(** ** The injector: one trigger per container *)

Module InjectorFacts.
Import Dom Injector.

(** *** Inserting a subtree *)

(** [D'] is [D] with the nodes [xs] inserted somewhere, side by side. *)
Definition adds (xs : list node) (D D' : document) : Prop :=
  exists l1 l2, D = l1 ++ l2 /\ D' = l1 ++ xs ++ l2.

Lemma insert_before_adds xs e D :
  In e D -> adds xs D (insert_before xs (eid e) D).
Proof.
  induction D as [|d D IH]; simpl; [tauto|]. intros Hin.
  destruct (Nat.eqb_spec (eid d) (eid e)) as [E|NE].
  - now exists [], (d :: D).
  - destruct Hin as [->|Hin]; [congruence|].
    destruct (IH Hin) as (l1 & l2 & -> & ->).
    now exists (d :: l1), l2.
Qed.

Lemma insert_after_subtree_adds xs p D :
  existsb (in_subtree p) D = true -> adds xs D (insert_after_subtree xs p D).
Proof.
  induction D as [|d D IH]; simpl; [discriminate|]. intros H.
  destruct (existsb (in_subtree p) D) eqn:E.
  - destruct (IH eq_refl) as (l1 & l2 & -> & Hl).
    rewrite Hl. now exists (d :: l1), l2.
  - rewrite orb_false_r in H. rewrite H. now exists [d], D.
Qed.

Lemma appendChild_adds D make parent :
  In parent D ->
  adds (make (eid parent :: path parent) (fresh D)) D (appendChild D make parent).
Proof.
  intros Hin. apply insert_after_subtree_adds.
  apply existsb_exists. exists parent. split; [exact Hin|].
  unfold in_subtree. now rewrite Nat.eqb_refl.
Qed.

Lemma insertBefore_adds D make ref :
  In ref D -> adds (make (path ref) (fresh D)) D (insertBefore D make ref).
Proof. intros Hin. now apply insert_before_adds. Qed.

Lemma adds_In xs D D' e : adds xs D D' -> In e D' <-> In e D \/ In e xs.
Proof.
  intros (l1 & l2 & -> & ->). rewrite !in_app_iff. intuition.
Qed.

Lemma adds_sublist xs D D' : adds xs D D' -> sublist D D'.
Proof.
  intros (l1 & l2 & -> & ->). apply sublist_app; [reflexivity|].
  apply sublist_inserts_l. reflexivity.
Qed.

(** A fresh identity is above the identity of every node and above the
    identities of its ancestors. *)
Lemma fresh_spec D e :
  In e D -> (eid e < fresh D)%nat /\ forall a, In a (path e) -> (a < fresh D)%nat.
Proof.
  intros Hin. unfold fresh.
  assert (H : Forall (fun k => (k <= list_max (flat_map (fun e => eid e :: path e) D))%nat)
                (flat_map (fun e => eid e :: path e) D)).
  { now apply list_max_le. }
  rewrite List.Forall_forall in H. split.
  - apply Nat.lt_succ_r, H, in_flat_map. exists e. simpl. auto.
  - intros a Ha. apply Nat.lt_succ_r, H, in_flat_map. exists e. simpl. auto.
Qed.

(** Queries over a list with more elements that the test rejects. *)
Lemma filter_adds (f g : node -> bool) xs D D' :
  adds xs D D' -> (forall x, In x xs -> g x = false) ->
  (forall e, In e D -> g e = f e) ->
  List.filter g D' = List.filter f D.
Proof.
  intros (l1 & l2 & -> & ->) Hx Hfg.
  rewrite !List.filter_app.
  assert (Hxs : List.filter g xs = []).
  { clear -Hx. induction xs as [|x xs IH]; [reflexivity|]. simpl.
    rewrite (Hx x) by (now left). apply IH. intros y Hy. apply Hx. now right. }
  rewrite Hxs. cbn [app]. f_equal.
  - apply List.filter_ext_in. intros e He. apply Hfg, in_app_iff. auto.
  - apply List.filter_ext_in. intros e He. apply Hfg, in_app_iff. auto.
Qed.

Lemma find_ext_in (f g : node -> bool) l :
  (forall e, In e l -> g e = f e) -> find g l = find f l.
Proof.
  induction l as [|d l IH]; simpl; [reflexivity|]. intros H.
  rewrite (H d) by auto. destruct (f d); [reflexivity|]. apply IH. auto.
Qed.

Lemma find_app (f : node -> bool) l1 l2 :
  find f (l1 ++ l2) = match find f l1 with
                      | Some e => Some e
                      | None => find f l2
                      end.
Proof.
  induction l1 as [|d l1 IH]; simpl; [reflexivity|].
  destruct (f d); [reflexivity|exact IH].
Qed.

Lemma find_rejected (g : node -> bool) xs :
  (forall x, In x xs -> g x = false) -> find g xs = None.
Proof.
  induction xs as [|x xs IH]; [reflexivity|]. intros H. simpl.
  rewrite (H x) by (now left). apply IH. intros y Hy. apply H. now right.
Qed.

Lemma find_adds (f g : node -> bool) xs D D' :
  adds xs D D' -> (forall x, In x xs -> g x = false) ->
  (forall e, In e D -> g e = f e) ->
  find g D' = find f D.
Proof.
  intros (l1 & l2 & -> & ->) Hx Hfg.
  rewrite !find_app. rewrite (find_rejected g xs Hx).
  rewrite (find_ext_in f g l1), (find_ext_in f g l2);
    [reflexivity| |]; intros e He; apply Hfg, in_app_iff; auto.
Qed.

(** A query that succeeds still succeeds in a page that has more
    nodes. *)
Lemma find_present (f g : node -> bool) (D D' : document) :
  (forall e, In e D -> In e D') -> (forall e, In e D -> g e = f e) ->
  present (find f D) = true -> present (find g D') = true.
Proof.
  intros Hin Hfg Hf. destruct (find f D) as [e|] eqn:E; [|discriminate].
  apply find_some in E. destruct E as [He Hfe].
  destruct (find g D') eqn:E'; [reflexivity|].
  assert (Hg : g e = false) by (apply (find_none _ _ E' e); auto).
  rewrite Hfg in Hg by exact He. congruence.
Qed.


(** *** Queries after the insertion of fresh nodes *)

(** The last compound of a complex selector: what the matched element
    itself must satisfy. *)
Definition subject (x : complex) : compound :=
  match x with
  | Just c => c
  | Inside _ c => c
  end.

(** No complex selector of [sel] has a subject that [x] satisfies. *)
Definition blind (sel : selector) (x : node) : bool :=
  forallb (fun cx => negb (matches_compound x (subject cx))) sel.

Lemma matches_blind D sel x : blind sel x = true -> matches D sel x = false.
Proof.
  unfold blind, matches. induction sel as [|cx sel IH]; simpl; [reflexivity|].
  intros H. apply andb_true_iff in H. destruct H as [Hcx Hsel].
  rewrite (IH Hsel), orb_false_r. apply negb_true_iff in Hcx.
  destruct cx; simpl in *; rewrite Hcx; reflexivity.
Qed.

Lemma find_In (f : node -> bool) D e : find f D = Some e -> In e D.
Proof. intros H. now apply find_some in H. Qed.

Lemma querySelector_In D root sel e :
  querySelector D root sel = Some e -> In e D.
Proof. apply find_In. Qed.

Lemma querySelector_descends D root sel e :
  querySelector D root sel = Some e -> descends (eid root) e = true.
Proof.
  unfold querySelector. intros H. apply find_some in H.
  destruct H as [_ H]. now apply andb_true_iff in H.
Qed.

Lemma firstChild_In D e c : firstChild D e = Some c -> In c D.
Proof. apply find_In. Qed.

Lemma firstChild_descends D e c :
  firstChild D e = Some c -> descends (eid e) c = true.
Proof.
  unfold firstChild. intros H. apply find_some in H. destruct H as [_ H].
  unfold descends. destruct (path c) as [|p l]; [discriminate|].
  cbn [existsb]. apply Nat.eqb_eq in H. subst p.
  now rewrite Nat.eqb_refl.
Qed.

Lemma lookup_In D i e : lookup D i = Some e -> In e D.
Proof. apply find_In. Qed.

Lemma parentElement_In D e p : parentElement D e = Some p -> In p D.
Proof. unfold parentElement. destruct (path e); [discriminate|apply lookup_In]. Qed.

Lemma ancestors_In D e a : In a (ancestors D e) -> In a D.
Proof.
  unfold ancestors. induction (path e) as [|i l IH]; simpl; [tauto|].
  destruct (lookup D i) eqn:E; simpl; [|exact IH].
  intros [<-|H]; [now apply lookup_In in E|auto].
Qed.

Lemma closest_In D e sel c : In e D -> closest D e sel = Some c -> In c D.
Proof.
  intros He H. apply find_In in H. destruct H as [<-|H]; [exact He|].
  now apply ancestors_In in H.
Qed.

Lemma querySelectorAll_In D sel e : In e (querySelectorAll D sel) -> In e D.
Proof. unfold querySelectorAll. intros H. now apply List.filter_In in H. Qed.

Section Insertion.
Variables (xs : list node) (D D' : document).
Hypothesis Hadd : adds xs D D'.
Hypothesis Hfresh : forall x, In x xs -> (fresh D <= eid x)%nat.

Lemma In_old e : In e D -> In e D'.
Proof. intros H. apply (adds_In xs D D'); auto. Qed.

Lemma lookup_stable i : (i < fresh D)%nat -> lookup D' i = lookup D i.
Proof.
  intros Hi. unfold lookup. apply (find_adds _ _ xs); auto.
  intros x Hx. apply Nat.eqb_neq. specialize (Hfresh x Hx). lia.
Qed.

Lemma ancestors_stable e : In e D -> ancestors D' e = ancestors D e.
Proof.
  intros He. destruct (fresh_spec D e He) as [_ Hpath].
  unfold ancestors. induction (path e) as [|i l IH]; simpl; [reflexivity|].
  rewrite lookup_stable.
  - rewrite IH; [reflexivity|]. intros a Ha. apply Hpath. simpl. auto.
  - apply Hpath. now left.
Qed.

Lemma matches_stable sel e : In e D -> matches D' sel e = matches D sel e.
Proof.
  intros He. unfold matches. induction sel as [|cx sel IH]; simpl; [reflexivity|].
  rewrite IH. f_equal. destruct cx; simpl; [reflexivity|].
  now rewrite ancestors_stable.
Qed.

Lemma querySelectorAll_stable sel :
  (forall x, In x xs -> blind sel x = true) ->
  querySelectorAll D' sel = querySelectorAll D sel.
Proof.
  intros Hb. unfold querySelectorAll. apply (filter_adds _ _ xs); auto.
  - intros x Hx. now apply matches_blind, Hb.
  - intros e He. now apply matches_stable.
Qed.

(** A query below [root] is not changed by new nodes that the selector
    does not see or that are not below [root]. *)
Lemma querySelector_stable root sel :
  (forall x, In x xs ->
     blind sel x = true \/ descends (eid root) x = false) ->
  querySelector D' root sel = querySelector D root sel.
Proof.
  intros Hb. unfold querySelector. apply (find_adds _ _ xs); auto.
  - intros x Hx. destruct (Hb x Hx) as [H|H].
    + rewrite (matches_blind D' sel x H). apply andb_false_r.
    + now rewrite H.
  - intros e He. now rewrite matches_stable.
Qed.

Lemma querySelector_present root sel :
  present (querySelector D root sel) = true ->
  present (querySelector D' root sel) = true.
Proof.
  unfold querySelector. apply find_present; [exact In_old|].
  intros e He. now rewrite matches_stable.
Qed.

Lemma firstChild_present e :
  present (firstChild D e) = true -> present (firstChild D' e) = true.
Proof. unfold firstChild. apply find_present; [exact In_old|auto]. Qed.

Lemma parentElement_stable e : In e D -> parentElement D' e = parentElement D e.
Proof.
  intros He. destruct (fresh_spec D e He) as [_ Hpath].
  unfold parentElement. destruct (path e) as [|p l]; [reflexivity|].
  apply lookup_stable. apply Hpath. now left.
Qed.

Lemma closest_stable e sel : In e D -> closest D' e sel = closest D e sel.
Proof.
  intros He. unfold closest. rewrite ancestors_stable by exact He.
  apply find_ext_in. intros a [<-|Ha]; apply matches_stable; auto.
  now apply ancestors_In in Ha.
Qed.

End Insertion.


(** *** One injection *)

(** The selectors with which the injector looks for containers and for
    the places of its buttons, apart from the two that ask for the
    tooltip or the label [More]. *)
Definition plain_selectors : list selector :=
  [class "ade"; class "G-atb"; [Just [AttrIs "gh" (lit "mtb")]];
   class "gs"; [Just [HasAttr "data-message-id"]];
   [Inside [Class "gE"] [Class "gD"]; Inside [Class "gH"] [Class "gD"]];
   [Just [Class "gE"; Class "iv"; Class "gt"]]; class "gH"; class "h7";
   class "bGI"; [Just [Class "adf"; Class "ads"]]; class "amn";
   class "g3"; [Inside [Class "gH"] [Class "gK"]]]%string.

Definition more_selectors : list selector :=
  [[Just [AttrIs "data-tooltip" (lit "More")]];
   [Just [AttrIs "aria-label" (lit "More")]]]%string.

(** An element that a toolbar selector matches. *)
Definition toolbar_like (e : node) : bool :=
  matches_compound e [Class "ade"] || matches_compound e [Class "G-atb"]
  || matches_compound e [AttrIs "gh" (lit "mtb")].

Definition hasButton (D : document) (toolbar : node) : bool :=
  present (querySelector D toolbar (class "asana-gmail-btn")).

(** The place where [injectToolbar] puts a button. *)
Definition insertPoint (D : document) (toolbar : node) : option node :=
  or_node (querySelector D toolbar (class "T-I")) (firstChild D toolbar).

(** The trigger [b] is the one of the container with identity [c]: its
    listener opens the composer for [c], or, for the button of a toolbar
    (whose listener is given no container), it lies in [c]. *)
Definition serves (c : nat) (b : node) : Prop :=
  is_trigger b = true /\
  (listener b = Some (Some c) \/
   listener b = Some None /\ descends c b = true).

Section Pass.
Variable label : jsstring.

(** [xs] is what the injector makes for the toolbar [c] in the page [D]:
    a toolbar button and what is in it, for a place in [c]. *)
Definition toolbar_subtree (D : document) (c : node) (xs : list node) : Prop :=
  exists p, xs = createAsanaButton label p (fresh D) /\
            existsb (Nat.eqb (eid c)) p = true.

(** [xs] is what the injector makes for the message container [c]. *)
Definition mini_subtree (D : document) (c : node) (xs : list node) : Prop :=
  exists p, xs = createMiniAsanaButton label c p (fresh D).

Definition subtree (D : document) (c : node) (xs : list node) : Prop :=
  toolbar_subtree D c xs \/ mini_subtree D c xs.

Lemma subtree_fresh D c xs x :
  subtree D c xs -> In x xs -> (fresh D <= eid x)%nat.
Proof.
  intros [(p & -> & _)|(p & ->)] Hx;
    cbn [createAsanaButton createMiniAsanaButton In] in Hx;
    repeat (destruct Hx as [<-|Hx]; [cbn [eid text span]; lia|]);
    destruct Hx.
Qed.

Lemma subtree_not_toolbar D c xs x :
  subtree D c xs -> In x xs -> toolbar_like x = false.
Proof.
  intros [(p & -> & _)|(p & ->)] Hx;
    cbn [createAsanaButton createMiniAsanaButton In] in Hx;
    repeat (destruct Hx as [<-|Hx]; [reflexivity|]); destruct Hx.
Qed.

(** The nodes that the injector makes are invisible to the plain
    selectors. *)
Lemma subtree_blind D c xs x sel :
  subtree D c xs -> In x xs -> In sel plain_selectors -> blind sel x = true.
Proof.
  intros Hxs Hx Hsel. unfold plain_selectors in Hsel. cbn [In] in Hsel.
  destruct Hxs as [(p & -> & _)|(p & ->)]; cbn [createAsanaButton
    createMiniAsanaButton In] in Hx;
    repeat (destruct Hx as [<-|Hx];
            [repeat (destruct Hsel as [<-|Hsel]; [reflexivity|]);
             destruct Hsel|]);
    destruct Hx.
Qed.

(** Of the nodes that the injector makes, the button alone is a trigger,
    and it is the trigger of the container. *)
Lemma subtree_trigger D c xs :
  subtree D c xs ->
  exists b, List.filter is_trigger xs = [b] /\ serves (eid c) b.
Proof.
  intros [(p & -> & Hp)|(p & ->)]; eexists; (split; [reflexivity|]);
    (split; [reflexivity|]); [right|left]; auto.
Qed.

Lemma find_exists (f : node -> bool) l e :
  In e l -> f e = true -> present (find f l) = true.
Proof.
  intros He Hf. destruct (find f l) eqn:E; [reflexivity|].
  rewrite (find_none _ _ E e He) in Hf. discriminate.
Qed.

(** After the button of a message container was added, a container of
    the page holds a button or answers the [More] queries as before. *)
Lemma mini_subtree_query D D' c xs root sel :
  mini_subtree D c xs -> adds xs D D' ->
  In root D -> In sel more_selectors ->
  hasMini D' root = true \/
  querySelector D' root sel = querySelector D root sel.
Proof.
  intros (p & ->) Hadd Hroot Hsel.
  set (b := {| eid := fresh D; path := p; isText := false;
               classes := ["asana-gmail-btn-mini"]%string;
               attributes :=
                 [("role", lit "button"); ("tabindex", lit "0");
                  ("data-tooltip", label); ("aria-label", label);
                  ("title", label)]%string;
               data := []; listener := Some (Some (eid c)) |}).
  destruct (descends (eid root) b) eqn:Hb.
  - left. unfold hasMini, querySelector. apply (find_exists _ _ b).
    + apply (adds_In _ _ _ b Hadd). right. now left.
    + rewrite Hb. reflexivity.
  - right. apply (querySelector_stable _ D D' Hadd).
    + intros x Hx.
      apply (subtree_fresh D c (createMiniAsanaButton label c p (fresh D)) x);
        [|exact Hx].
      right. now exists p.
    + intros x Hx. cbn [createMiniAsanaButton In] in Hx.
      destruct Hx as [<-|[<-|[<-|[]]]]; [right; exact Hb| |];
        left; unfold more_selectors in Hsel; cbn [In] in Hsel;
        destruct Hsel as [<-|[<-|[]]]; reflexivity.
Qed.

(** [st'] is [st] after the injection of [xs] for the container [c]. *)
Definition injection (st st' : injector) (c : node) (xs : list node) : Prop :=
  marked st c = false /\
  adds xs (dom st) (dom st') /\
  injectedButtons st' = injectedButtons st ∪ {[eid c]}.

(** What one step of a pass does: nothing, or one injection. *)
Definition step_toolbar (st st' : injector) : Prop :=
  st' = st \/
  exists c xs, toolbar_subtree (dom st) c xs /\ injection st st' c xs.

Definition step_mini (st st' : injector) : Prop :=
  st' = st \/
  exists c xs, mini_subtree (dom st) c xs /\ injection st st' c xs.

Definition step (st st' : injector) : Prop :=
  st' = st \/
  exists c xs, subtree (dom st) c xs /\ injection st st' c xs.

Lemma step_toolbar_step st st' : step_toolbar st st' -> step st st'.
Proof.
  intros [->|(c & xs & H & Hi)]; [now left|right].
  exists c, xs. split; [now left|exact Hi].
Qed.

Lemma step_mini_step st st' : step_mini st st' -> step st st'.
Proof.
  intros [->|(c & xs & H & Hi)]; [now left|right].
  exists c, xs. split; [now right|exact Hi].
Qed.

Lemma insertPoint_In D toolbar e : insertPoint D toolbar = Some e -> In e D.
Proof.
  unfold insertPoint, or_node. destruct (querySelector _ _ _) eqn:Q.
  - intros [= <-]. now apply querySelector_In in Q.
  - apply firstChild_In.
Qed.

Lemma insertPoint_descends D toolbar e :
  insertPoint D toolbar = Some e -> descends (eid toolbar) e = true.
Proof.
  unfold insertPoint, or_node. destruct (querySelector _ _ _) eqn:Q.
  - intros [= <-]. now apply querySelector_descends in Q.
  - apply firstChild_descends.
Qed.

Lemma injectToolbar_step st toolbar :
  step_toolbar st (injectToolbar label st toolbar).
Proof.
  unfold injectToolbar. destruct (marked st toolbar) eqn:Hm; [now left|].
  destruct (present _); [now left|].
  fold (insertPoint (dom st) toolbar).
  destruct (insertPoint (dom st) toolbar) as [point|] eqn:E; [|now left].
  right. exists toolbar, (createAsanaButton label (path point) (fresh (dom st))).
  split.
  - exists (path point). split; [reflexivity|].
    now apply insertPoint_descends in E.
  - split; [exact Hm|]. split; [|reflexivity].
    apply insertBefore_adds. now apply insertPoint_In in E.
Qed.

Lemma or_node_In (D : document) (a b : option node) e :
  (forall n, a = Some n -> In n D) -> (forall n, b = Some n -> In n D) ->
  or_node a b = Some e -> In e D.
Proof. unfold or_node. destruct a; intros Ha Hb H; auto. Qed.

Lemma parentOf_In D o e : parentOf D o = Some e -> In e D.
Proof. destruct o; simpl; [apply parentElement_In|discriminate]. Qed.

Ltac found_in_page :=
  lazymatch goal with
  | |- or_node _ _ = Some _ -> In _ _ =>
      apply or_node_In; intros ?; found_in_page
  | |- querySelector _ _ _ = Some _ -> In _ _ => apply querySelector_In
  | |- parentOf _ _ = Some _ -> In _ _ => apply parentOf_In
  end.

Lemma actionsAreaOfExpanded_In D c e :
  actionsAreaOfExpanded D c = Some e -> In e D.
Proof.
  unfold actionsAreaOfExpanded. destruct (or_node _ _) as [h|]; [|discriminate].
  destruct (or_node (querySelector D h _) _) as [a|] eqn:E.
  - intros H. injection H as <-. revert E. found_in_page.
  - apply parentOf_In.
Qed.

Lemma actionsAreaOfIdentified_In D c e :
  actionsAreaOfIdentified D c = Some e -> In e D.
Proof. unfold actionsAreaOfIdentified. found_in_page. Qed.

Lemma rowOfSender_In D s e : In s D -> rowOfSender D s = Some e -> In e D.
Proof.
  intros Hs. unfold rowOfSender.
  apply or_node_In; intros n; [now apply closest_In|].
  apply or_node_In; intros n'; [now apply closest_In|].
  apply parentElement_In.
Qed.

Lemma appended_step st c place :
  marked st c = false -> In place (dom st) ->
  step_mini st
    (mark c (appendChild (dom st) (createMiniAsanaButton label c) place) st).
Proof.
  intros Hm Hplace. right.
  exists c, (createMiniAsanaButton label c (eid place :: path place)
               (fresh (dom st))).
  split; [now eexists|]. split; [exact Hm|]. split; [|reflexivity].
  now apply appendChild_adds.
Qed.

Lemma injectExpanded_step st c : step_mini st (injectExpanded label st c).
Proof.
  unfold injectExpanded. destruct (marked st c) eqn:Hm; [now left|].
  destruct (hasMini _ _); [now left|].
  destruct (actionsAreaOfExpanded _ _) as [a|] eqn:E; [|now left].
  apply appended_step; [exact Hm|]. now apply actionsAreaOfExpanded_In in E.
Qed.

Lemma injectIdentified_step st c : step_mini st (injectIdentified label st c).
Proof.
  unfold injectIdentified. destruct (marked st c) eqn:Hm; [now left|].
  destruct (hasMini _ _); [now left|].
  destruct (actionsAreaOfIdentified _ _) as [a|] eqn:E; [|now left].
  apply appended_step; [exact Hm|]. now apply actionsAreaOfIdentified_In in E.
Qed.

Lemma injectSender_step st s :
  In s (dom st) -> step_mini st (injectSender label st s).
Proof.
  intros Hs. unfold injectSender.
  destruct (containerOfSender _ _) as [m|]; [|now left].
  destruct (marked st m) eqn:Hm; [now left|].
  destruct (hasMini _ _); [now left|].
  destruct (rowOfSender _ _) as [r|] eqn:E; [|now left].
  apply appended_step; [exact Hm|]. now apply rowOfSender_In in E.
Qed.

End Pass.


(** *** The loops of a pass *)

(** A loop whose steps are related by a preorder that keeps the nodes of
    the page. *)
Lemma fold_related (R : injector -> injector -> Prop)
    (f : injector -> node -> injector) :
  (forall st, R st st) ->
  (forall a b c, R a b -> R b c -> R a c) ->
  (forall st st' e, R st st' -> In e (dom st) -> In e (dom st')) ->
  (forall st e, In e (dom st) -> R st (f st e)) ->
  forall l st, (forall e, In e l -> In e (dom st)) -> R st (fold_left f l st).
Proof.
  intros Hrefl Htrans Hin Hstep. induction l as [|e l IH]; intros st Hl; simpl.
  - apply Hrefl.
  - assert (H1 : R st (f st e)) by (apply Hstep, Hl; simpl; auto).
    apply (Htrans _ _ _ H1). apply IH. intros e' He'.
    apply (Hin _ _ _ H1), Hl. simpl. auto.
Qed.

(** A loop over the result of a query. *)
Lemma phase_related (R : injector -> injector -> Prop)
    (f : injector -> node -> injector) sel :
  (forall st, R st st) ->
  (forall a b c, R a b -> R b c -> R a c) ->
  (forall st st' e, R st st' -> In e (dom st) -> In e (dom st')) ->
  (forall st e, In e (dom st) -> R st (f st e)) ->
  forall st, R st (fold_left f (querySelectorAll (dom st) sel) st).
Proof.
  intros Hrefl Htrans Hin Hstep st. apply fold_related; auto.
  intros e. apply querySelectorAll_In.
Qed.

Definition toolbarPhase label sel st : injector :=
  fold_left (injectToolbar label) (querySelectorAll (dom st) sel) st.

Definition expandedPhase label st : injector :=
  fold_left (injectExpanded label) (querySelectorAll (dom st) (class "gs")) st.

Definition identifiedPhase label st : injector :=
  fold_left (injectIdentified label)
    (querySelectorAll (dom st) [Just [HasAttr "data-message-id"]]) st.

Definition senderPhase label st : injector :=
  fold_left (injectSender label)
    (querySelectorAll (dom st)
       [Inside [Class "gE"] [Class "gD"]; Inside [Class "gH"] [Class "gD"]])
    st.

Definition toolbarPhases label st : injector :=
  toolbarPhase label [Just [AttrIs "gh" (lit "mtb")]]
    (toolbarPhase label (class "G-atb") (toolbarPhase label (class "ade") st)).

Definition messagePhases label st : injector :=
  senderPhase label (identifiedPhase label (expandedPhase label st)).

Lemma injectButtons_phases label st :
  injectButtons label st = messagePhases label (toolbarPhases label st).
Proof. reflexivity. Qed.

Section Related.
Variable label : jsstring.
Variable R : injector -> injector -> Prop.
Hypothesis R_refl : forall st, R st st.
Hypothesis R_trans : forall a b c, R a b -> R b c -> R a c.
Hypothesis R_In : forall st st' e, R st st' -> In e (dom st) -> In e (dom st').
Hypothesis R_toolbar : forall st st', step_toolbar label st st' -> R st st'.
Hypothesis R_mini : forall st st', step_mini label st st' -> R st st'.

Lemma toolbarPhase_related sel st : R st (toolbarPhase label sel st).
Proof.
  unfold toolbarPhase. apply phase_related; auto.
  intros. apply R_toolbar, injectToolbar_step.
Qed.

Lemma toolbarPhases_related st : R st (toolbarPhases label st).
Proof.
  unfold toolbarPhases.
  eapply R_trans; [|apply toolbarPhase_related].
  eapply R_trans; [|apply toolbarPhase_related].
  apply toolbarPhase_related.
Qed.

Lemma expandedPhase_related st : R st (expandedPhase label st).
Proof.
  unfold expandedPhase. apply phase_related; auto.
  intros. apply R_mini, injectExpanded_step.
Qed.

Lemma identifiedPhase_related st : R st (identifiedPhase label st).
Proof.
  unfold identifiedPhase. apply phase_related; auto.
  intros. apply R_mini, injectIdentified_step.
Qed.

Lemma senderPhase_related st : R st (senderPhase label st).
Proof.
  unfold senderPhase. apply phase_related; auto.
  intros. now apply R_mini, injectSender_step.
Qed.

Lemma messagePhases_related st : R st (messagePhases label st).
Proof.
  unfold messagePhases.
  eapply R_trans; [|apply senderPhase_related].
  eapply R_trans; [|apply identifiedPhase_related].
  apply expandedPhase_related.
Qed.

Lemma injectButtons_related st : R st (injectButtons label st).
Proof.
  rewrite injectButtons_phases.
  eapply R_trans; [|apply messagePhases_related].
  apply toolbarPhases_related.
Qed.

End Related.

(** *** What a pass inserts *)

(** From [st] to [st']: the containers of [ins] were newly marked, each
    once, and each got its trigger, a new node of the page; no other
    trigger was inserted, and the nodes of the page stay. *)
Record served_by (st st' : injector) (ins : list (nat * node)) : Prop :=
  Served {
  served_once : List.NoDup (map fst ins);
  served_distinct : List.NoDup (map snd ins);
  served_new : forall c, In c (map fst ins) -> c ∉ injectedButtons st;
  served_marks :
    injectedButtons st' = injectedButtons st ∪ list_to_set (map fst ins);
  served_triggers :
    Permutation (triggers (dom st')) (triggers (dom st) ++ map snd ins);
  served_added : forall b, In b (map snd ins) ->
    In b (dom st') /\ ~ In b (dom st);
  served_serves : Forall (fun cb => serves (fst cb) (snd cb)) ins;
  served_In : forall e, In e (dom st) -> In e (dom st');
  served_idle : ins = [] -> st' = st
}.

Definition served (st st' : injector) : Prop :=
  exists ins, served_by st st' ins.

Lemma served_refl st : served st st.
Proof.
  exists []. constructor; cbn [map fst snd].
  - constructor.
  - constructor.
  - intros c [].
  - now rewrite list_to_set_nil, union_empty_r_L.
  - now rewrite app_nil_r.
  - intros b [].
  - constructor.
  - auto.
  - reflexivity.
Qed.

Lemma served_trans a b c : served a b -> served b c -> served a c.
Proof.
  intros [ins1 H1] [ins2 H2]. exists (ins1 ++ ins2).
  destruct H1 as [O1 U1 N1 M1 T1 A1 S1 I1 D1],
           H2 as [O2 U2 N2 M2 T2 A2 S2 I2 D2].
  constructor.
  - rewrite map_app. apply List.NoDup_app; [exact O1|exact O2|].
    intros x Hx1 Hx2.
    apply (N2 x Hx2). rewrite M1. apply elem_of_union. right.
    apply elem_of_list_to_set. now apply list_elem_of_In.
  - rewrite map_app. apply List.NoDup_app; [exact U1|exact U2|].
    intros x Hx1 Hx2.
    apply (proj2 (A2 x Hx2)). exact (proj1 (A1 x Hx1)).
  - intros x Hx. rewrite map_app in Hx. apply in_app_iff in Hx.
    destruct Hx as [Hx|Hx]; [now apply N1|].
    intros Hin. apply (N2 x Hx). rewrite M1. apply elem_of_union. now left.
  - rewrite M2, M1, map_app, list_to_set_app_L.
    now rewrite (assoc_L (∪)).
  - rewrite T2, T1, map_app. now rewrite <- app_assoc.
  - intros x Hx. rewrite map_app in Hx. apply in_app_iff in Hx.
    destruct Hx as [Hx|Hx].
    + destruct (A1 x Hx) as [Hin Hout]. split; [now apply I2|exact Hout].
    + destruct (A2 x Hx) as [Hin Hout]. split; [exact Hin|].
      intros Hold. apply Hout. now apply I1.
  - apply Forall_app. now split.
  - auto.
  - intros E. apply app_eq_nil in E. destruct E as [-> ->].
    rewrite (D2 eq_refl). now apply D1.
Qed.

Lemma triggers_adds xs D D' b :
  adds xs D D' -> List.filter is_trigger xs = [b] ->
  Permutation (triggers D') (triggers D ++ [b]).
Proof.
  intros (l1 & l2 & -> & ->) Hb. unfold triggers.
  rewrite !List.filter_app, Hb. rewrite <- app_assoc.
  apply Permutation_app_head. apply Permutation_app_comm.
Qed.

Lemma step_served label st st' : step label st st' -> served st st'.
Proof.
  intros [->|(c & xs & Hxs & Hm & Hadd & Hmarks)]; [apply served_refl|].
  destruct (subtree_trigger label _ _ _ Hxs) as (b & Hb & Hserves).
  assert (Hbxs : In b xs).
  { apply (proj1 (filter_In is_trigger b xs)). rewrite Hb. now left. }
  exists [(eid c, b)]. constructor; cbn [map fst snd].
  - repeat constructor. intros [].
  - repeat constructor. intros [].
  - intros x [<-|[]]. unfold marked in Hm.
    now apply bool_decide_eq_false in Hm.
  - rewrite Hmarks, list_to_set_cons, list_to_set_nil.
    now rewrite union_empty_r_L.
  - now apply (triggers_adds xs).
  - intros x [<-|[]]. split.
    + apply (adds_In xs _ _ b Hadd). now right.
    + intros Hold. pose proof (proj1 (fresh_spec _ _ Hold)) as Hlt.
      pose proof (subtree_fresh label _ _ _ b Hxs Hbxs). lia.
  - apply List.Forall_cons; [exact Hserves|apply List.Forall_nil].
  - intros e He. apply (adds_In xs _ _ e Hadd). now left.
  - discriminate.
Qed.

(** One pass: every container that it newly marks gets exactly one
    trigger, and no other trigger is inserted. *)
Lemma injectButtons_served label st : served st (injectButtons label st).
Proof.
  apply (injectButtons_related label served).
  - apply served_refl.
  - apply served_trans.
  - intros a b e [ins H]. apply (served_In _ _ _ H).
  - intros a b H. now apply (step_served label), step_toolbar_step.
  - intros a b H. now apply (step_served label), step_mini_step.
Qed.


(** *** What a pass leaves unchanged in the page *)

(** From [st] to [st']: nodes and marks stay, and the queries of the
    injector with plain selectors give the same answers. *)
Record grown (st st' : injector) : Prop := Grown {
  grown_In : forall e, In e (dom st) -> In e (dom st');
  grown_marked : forall c, marked st c = true -> marked st' c = true;
  grown_all : forall sel, In sel plain_selectors ->
    querySelectorAll (dom st') sel = querySelectorAll (dom st) sel;
  grown_plain : forall root sel, In sel plain_selectors ->
    querySelector (dom st') root sel = querySelector (dom st) root sel;
  grown_present : forall root sel,
    present (querySelector (dom st) root sel) = true ->
    present (querySelector (dom st') root sel) = true;
  grown_child : forall e,
    present (firstChild (dom st) e) = true ->
    present (firstChild (dom st') e) = true;
  grown_parent : forall e, In e (dom st) ->
    parentElement (dom st') e = parentElement (dom st) e;
  grown_closest : forall e sel, In e (dom st) ->
    closest (dom st') e sel = closest (dom st) e sel
}.

Lemma grown_refl st : grown st st.
Proof. constructor; auto. Qed.

Lemma grown_trans a b c : grown a b -> grown b c -> grown a c.
Proof.
  intros [I1 M1 A1 P1 Q1 C1 E1 L1] [I2 M2 A2 P2 Q2 C2 E2 L2].
  constructor; intros.
  - auto.
  - auto.
  - rewrite A2, A1; auto.
  - rewrite P2, P1; auto.
  - auto.
  - auto.
  - rewrite E2, E1; auto.
  - rewrite L2, L1; auto.
Qed.

(** The same, when only buttons of message containers were added: a
    container then holds a button or answers the [More] queries as
    before. *)
Record grown_mini (st st' : injector) : Prop := GrownMini {
  mini_grown : grown st st';
  mini_more : forall root sel, In root (dom st) -> In sel more_selectors ->
    hasMini (dom st') root = true \/
    querySelector (dom st') root sel = querySelector (dom st) root sel
}.

Lemma grown_mini_refl st : grown_mini st st.
Proof. constructor; [apply grown_refl|auto]. Qed.

Lemma grown_mini_trans a b c : grown_mini a b -> grown_mini b c -> grown_mini a c.
Proof.
  intros [G1 Q1] [G2 Q2]. constructor; [now apply (grown_trans a b c)|].
  intros root sel Hroot Hsel.
  destruct (Q1 root sel Hroot Hsel) as [H1|H1].
  - left. now apply (grown_present _ _ G2).
  - destruct (Q2 root sel (grown_In _ _ G1 _ Hroot) Hsel) as [H2|H2];
      [now left|right]. now rewrite H2.
Qed.

Lemma step_grown label st st' : step label st st' -> grown st st'.
Proof.
  intros [->|(c & xs & Hxs & Hm & Hadd & Hmarks)]; [apply grown_refl|].
  pose proof (fun x => subtree_fresh label _ _ _ x Hxs) as Hfresh.
  constructor.
  - intros e. now apply (In_old xs).
  - intros e. unfold marked. rewrite !bool_decide_eq_true, Hmarks.
    intros He. apply elem_of_union. now left.
  - intros sel Hsel. apply (querySelectorAll_stable xs); auto.
    intros x Hx. now apply (subtree_blind label (dom st) c xs).
  - intros root sel Hsel. apply (querySelector_stable xs); auto.
    intros x Hx. left. now apply (subtree_blind label (dom st) c xs).
  - intros root sel. now apply (querySelector_present xs).
  - intros e. now apply (firstChild_present xs).
  - intros e. now apply (parentElement_stable xs).
  - intros e sel. now apply (closest_stable xs).
Qed.

Lemma step_grown_mini label st st' : step_mini label st st' -> grown_mini st st'.
Proof.
  intros H. constructor; [now apply (step_grown label), step_mini_step|].
  destruct H as [->|(c & xs & Hxs & Hm & Hadd & Hmarks)]; [auto|].
  intros root sel Hroot Hsel.
  now apply (mini_subtree_query label (dom st) (dom st') c xs).
Qed.

(** *** The places of the buttons *)

Section Places.
Variables st st' : injector.

Lemma grown_parentOf o :
  grown st st' -> (forall e, o = Some e -> In e (dom st)) ->
  parentOf (dom st') o = parentOf (dom st) o.
Proof.
  intros Hst Ho. destruct o as [e|]; [|reflexivity].
  apply (grown_parent _ _ Hst). now apply Ho.
Qed.

Ltac plain := unfold plain_selectors, class; cbn [In]; tauto.
Ltac more := unfold more_selectors; cbn [In]; tauto.

(** A message container that has no button after buttons of message
    containers were added offers the same places as before. *)
Lemma mini_actionsAreaOfExpanded c :
  grown_mini st st' -> In c (dom st) -> hasMini (dom st') c = false ->
  actionsAreaOfExpanded (dom st') c = actionsAreaOfExpanded (dom st) c.
Proof.
  intros [Hst Hmore] Hc Hno.
  assert (Hq : forall sel, In sel more_selectors ->
            querySelector (dom st') c sel = querySelector (dom st) c sel).
  { intros sel Hsel. destruct (Hmore c sel Hc Hsel) as [H|H]; [|exact H].
    congruence. }
  unfold actionsAreaOfExpanded.
  rewrite !(fun root => grown_plain _ _ Hst root
              [Just [Class "gE"; Class "iv"; Class "gt"]]) by plain.
  rewrite !(fun root => grown_plain _ _ Hst root (class "gH")) by plain.
  rewrite !(fun root => grown_plain _ _ Hst root (class "h7")) by plain.
  destruct (or_node _ _) as [h|]; [|reflexivity].
  rewrite !(fun root => grown_plain _ _ Hst root (class "bGI")) by plain.
  rewrite !(fun root => grown_plain _ _ Hst root
              [Just [Class "adf"; Class "ads"]]) by plain.
  rewrite !(fun root => grown_plain _ _ Hst root (class "amn")) by plain.
  rewrite !(fun root => grown_plain _ _ Hst root (class "g3")) by plain.
  rewrite !(fun root => grown_plain _ _ Hst root
              [Inside [Class "gH"] [Class "gK"]]) by plain.
  rewrite !(Hq [Just [AttrIs "data-tooltip" (lit "More")]]) by more.
  rewrite !(Hq [Just [AttrIs "aria-label" (lit "More")]]) by more.
  rewrite !(grown_parentOf _ Hst) by (intros e; apply querySelector_In).
  rewrite (grown_parentOf _ Hst); [reflexivity|].
  intros e. apply or_node_In; intros n; apply querySelector_In.
Qed.

Lemma mini_actionsAreaOfIdentified c :
  grown_mini st st' -> In c (dom st) -> hasMini (dom st') c = false ->
  actionsAreaOfIdentified (dom st') c = actionsAreaOfIdentified (dom st) c.
Proof.
  intros [Hst Hmore] Hc Hno.
  assert (Hq : forall sel, In sel more_selectors ->
            querySelector (dom st') c sel = querySelector (dom st) c sel).
  { intros sel Hsel. destruct (Hmore c sel Hc Hsel) as [H|H]; [|exact H].
    congruence. }
  unfold actionsAreaOfIdentified.
  rewrite !(fun root => grown_plain _ _ Hst root (class "bGI")) by plain.
  rewrite !(fun root => grown_plain _ _ Hst root
              [Just [Class "adf"; Class "ads"]]) by plain.
  rewrite (Hq [Just [AttrIs "data-tooltip" (lit "More")]]) by more.
  now rewrite !(grown_parentOf _ Hst) by (intros e; apply querySelector_In).
Qed.

Lemma grown_containerOfSender s :
  grown st st' -> In s (dom st) ->
  containerOfSender (dom st') s = containerOfSender (dom st) s.
Proof.
  intros Hst Hs. unfold containerOfSender.
  now rewrite !(grown_closest _ _ Hst) by exact Hs.
Qed.

Lemma grown_rowOfSender s :
  grown st st' -> In s (dom st) ->
  rowOfSender (dom st') s = rowOfSender (dom st) s.
Proof.
  intros Hst Hs. unfold rowOfSender.
  rewrite !(grown_closest _ _ Hst) by exact Hs.
  now rewrite (grown_parent _ _ Hst) by exact Hs.
Qed.

Lemma grown_insertPoint t :
  grown st st' -> present (insertPoint (dom st) t) = true ->
  present (insertPoint (dom st') t) = true.
Proof.
  intros Hst. unfold insertPoint, or_node.
  destruct (querySelector (dom st) t (class "T-I")) eqn:Q.
  - intros _.
    assert (H : present (querySelector (dom st') t (class "T-I")) = true)
      by (apply (grown_present _ _ Hst); now rewrite Q).
    now destruct (querySelector (dom st') t (class "T-I")).
  - intros H. destruct (querySelector (dom st') t (class "T-I"));
      [reflexivity|]. now apply (grown_child _ _ Hst).
Qed.

End Places.


(** *** Containers that a pass has dealt with *)

(** A toolbar is settled when it is marked or holds a button. *)
Definition settled_toolbar (st : injector) (toolbar : node) : Prop :=
  marked st toolbar = true \/ hasButton (dom st) toolbar = true.

(** A message container is settled for a strategy when it is marked, holds
    a button, or the strategy finds no place for one. *)
Definition settled_expanded (st : injector) (c : node) : Prop :=
  marked st c = true \/ hasMini (dom st) c = true
  \/ actionsAreaOfExpanded (dom st) c = None.

Definition settled_identified (st : injector) (c : node) : Prop :=
  marked st c = true \/ hasMini (dom st) c = true
  \/ actionsAreaOfIdentified (dom st) c = None.

Definition settled_sender (st : injector) (s : node) : Prop :=
  match containerOfSender (dom st) s with
  | None => True
  | Some c =>
      marked st c = true \/ hasMini (dom st) c = true
      \/ rowOfSender (dom st) s = None
  end.

Lemma mark_marked c D st : marked (mark c D st) c = true.
Proof.
  unfold marked, mark. cbn. apply bool_decide_eq_true.
  apply elem_of_union. right. now apply elem_of_singleton.
Qed.

Lemma settled_toolbar_grown st st' e :
  grown st st' -> settled_toolbar st e -> settled_toolbar st' e.
Proof.
  intros Hst [H|H]; [left|right].
  - now apply (grown_marked _ _ Hst).
  - now apply (grown_present _ _ Hst).
Qed.

Lemma settled_expanded_grown st st' c :
  grown_mini st st' -> In c (dom st) ->
  settled_expanded st c -> settled_expanded st' c.
Proof.
  intros Hst Hc [H|[H|H]].
  - left. now apply (grown_marked _ _ (mini_grown _ _ Hst)).
  - right; left. now apply (grown_present _ _ (mini_grown _ _ Hst)).
  - right. destruct (hasMini (dom st') c) eqn:E; [now left|right].
    now rewrite (mini_actionsAreaOfExpanded st st' c Hst Hc E).
Qed.

Lemma settled_identified_grown st st' c :
  grown_mini st st' -> In c (dom st) ->
  settled_identified st c -> settled_identified st' c.
Proof.
  intros Hst Hc [H|[H|H]].
  - left. now apply (grown_marked _ _ (mini_grown _ _ Hst)).
  - right; left. now apply (grown_present _ _ (mini_grown _ _ Hst)).
  - right. destruct (hasMini (dom st') c) eqn:E; [now left|right].
    now rewrite (mini_actionsAreaOfIdentified st st' c Hst Hc E).
Qed.

Lemma settled_sender_grown st st' s :
  grown st st' -> In s (dom st) ->
  settled_sender st s -> settled_sender st' s.
Proof.
  intros Hst Hs. unfold settled_sender.
  rewrite (grown_containerOfSender _ _ _ Hst Hs).
  destruct (containerOfSender (dom st) s) as [c|]; [|auto].
  intros [H|[H|H]]; [left|right; left|right; right].
  - now apply (grown_marked _ _ Hst).
  - now apply (grown_present _ _ Hst).
  - now rewrite (grown_rowOfSender _ _ _ Hst Hs).
Qed.

(** *** A loop that settles the elements it visits *)

Section Saturation.
Variable R : injector -> injector -> Prop.
Variable f : injector -> node -> injector.
Variable settled : injector -> node -> Prop.
Variable ready : injector -> node -> Prop.
Hypothesis R_refl : forall st, R st st.
Hypothesis R_trans : forall a b c, R a b -> R b c -> R a c.
Hypothesis R_In : forall st st' e, R st st' -> In e (dom st) -> In e (dom st').
Hypothesis f_R : forall st e, In e (dom st) -> R st (f st e).
Hypothesis settled_R : forall st st' e,
  R st st' -> In e (dom st) -> settled st e -> settled st' e.
Hypothesis ready_R : forall st st' e, R st st' -> ready st e -> ready st' e.
Hypothesis f_settles : forall st e,
  In e (dom st) -> ready st e -> settled (f st e) e.

Lemma fold_settles l : forall st,
  (forall e, In e l -> In e (dom st)) ->
  forall e, In e l -> ready st e -> settled (fold_left f l st) e.
Proof.
  induction l as [|a l IH]; intros st Hl e He Hready; [easy|].
  simpl. assert (Ha : In a (dom st)) by (apply Hl; now left).
  assert (H1 : R st (f st a)) by now apply f_R.
  assert (Hl1 : forall e', In e' l -> In e' (dom (f st a))).
  { intros e' He'. apply (R_In _ _ _ H1), Hl. now right. }
  destruct He as [<-|He].
  - apply (settled_R (f st a)).
    + apply fold_related; auto.
    + now apply (R_In _ _ _ H1).
    + now apply f_settles.
  - apply IH; auto. now apply (ready_R st).
Qed.

End Saturation.

Lemma fold_idle (f : injector -> node -> injector) l st :
  (forall e, In e l -> f st e = st) -> fold_left f l st = st.
Proof.
  induction l as [|a l IH]; intros Hl; [reflexivity|].
  simpl. rewrite Hl by (now left). apply IH. intros e He. apply Hl. now right.
Qed.

(** *** The four loops *)

Section Loops.
Variable label : jsstring.

Lemma injectToolbar_settles st e :
  present (insertPoint (dom st) e) = true ->
  settled_toolbar (injectToolbar label st e) e.
Proof.
  intros Hpoint. unfold injectToolbar, settled_toolbar.
  destruct (marked st e) eqn:Hm; [now left|].
  fold (hasButton (dom st) e).
  destruct (hasButton (dom st) e) eqn:Hb; [now right|].
  fold (insertPoint (dom st) e).
  destruct (insertPoint (dom st) e) as [p|]; [|discriminate].
  left. apply mark_marked.
Qed.

Lemma injectExpanded_settles st c :
  settled_expanded (injectExpanded label st c) c.
Proof.
  unfold injectExpanded, settled_expanded.
  destruct (marked st c) eqn:Hm; [now left|].
  destruct (hasMini (dom st) c) eqn:Hb; [now right; left|].
  destruct (actionsAreaOfExpanded (dom st) c) as [a|] eqn:Ha.
  - left. apply mark_marked.
  - now right; right.
Qed.

Lemma injectExpanded_idle st c :
  settled_expanded st c -> injectExpanded label st c = st.
Proof.
  unfold injectExpanded, settled_expanded. intros [H|[H|H]].
  - now rewrite H.
  - rewrite H. now destruct (marked st c).
  - rewrite H. now destruct (marked st c), (hasMini (dom st) c).
Qed.

Lemma injectIdentified_settles st c :
  settled_identified (injectIdentified label st c) c.
Proof.
  unfold injectIdentified, settled_identified.
  destruct (marked st c) eqn:Hm; [now left|].
  destruct (hasMini (dom st) c) eqn:Hb; [now right; left|].
  destruct (actionsAreaOfIdentified (dom st) c) as [a|] eqn:Ha.
  - left. apply mark_marked.
  - now right; right.
Qed.

Lemma injectIdentified_idle st c :
  settled_identified st c -> injectIdentified label st c = st.
Proof.
  unfold injectIdentified, settled_identified. intros [H|[H|H]].
  - now rewrite H.
  - rewrite H. now destruct (marked st c).
  - rewrite H. now destruct (marked st c), (hasMini (dom st) c).
Qed.

Lemma injectSender_settles st s :
  In s (dom st) -> settled_sender (injectSender label st s) s.
Proof.
  intros Hs.
  pose proof (step_grown label _ _
                (step_mini_step label _ _ (injectSender_step label st s Hs)))
    as Hst.
  revert Hst. unfold injectSender, settled_sender.
  destruct (containerOfSender (dom st) s) as [c|] eqn:Hc.
  2: { intros _. now rewrite Hc. }
  destruct (marked st c) eqn:Hm.
  { intros _. rewrite Hc. now left. }
  destruct (hasMini (dom st) c) eqn:Hb.
  { intros _. rewrite Hc. now right; left. }
  destruct (rowOfSender (dom st) s) as [r|] eqn:Hr.
  2: { intros _. rewrite Hc. now right; right. }
  intros Hst.
  rewrite (grown_containerOfSender _ _ _ Hst Hs).
  rewrite Hc. left. apply mark_marked.
Qed.

Lemma injectSender_idle st s :
  settled_sender st s -> injectSender label st s = st.
Proof.
  unfold injectSender, settled_sender.
  destruct (containerOfSender (dom st) s) as [c|]; [|reflexivity].
  intros [H|[H|H]].
  - now rewrite H.
  - rewrite H. now destruct (marked st c).
  - rewrite H. now destruct (marked st c), (hasMini (dom st) c).
Qed.

(** The relations of the loops. *)
Lemma toolbarPhase_grown sel st : grown st (toolbarPhase label sel st).
Proof.
  unfold toolbarPhase. apply phase_related.
  - apply grown_refl.
  - apply grown_trans.
  - intros a b e H. apply (grown_In _ _ H).
  - intros a e _. apply (step_grown label), step_toolbar_step,
      injectToolbar_step.
Qed.

Lemma toolbarPhases_grown st : grown st (toolbarPhases label st).
Proof.
  unfold toolbarPhases.
  eapply grown_trans; [|apply toolbarPhase_grown].
  eapply grown_trans; [|apply toolbarPhase_grown].
  apply toolbarPhase_grown.
Qed.

Lemma grown_mini_In a b e : grown_mini a b -> In e (dom a) -> In e (dom b).
Proof. intros H. apply (grown_In _ _ (mini_grown _ _ H)). Qed.

Lemma expandedPhase_grown st : grown_mini st (expandedPhase label st).
Proof.
  unfold expandedPhase. apply phase_related.
  - apply grown_mini_refl.
  - apply grown_mini_trans.
  - apply grown_mini_In.
  - intros a e _. apply (step_grown_mini label), injectExpanded_step.
Qed.

Lemma identifiedPhase_grown st : grown_mini st (identifiedPhase label st).
Proof.
  unfold identifiedPhase. apply phase_related.
  - apply grown_mini_refl.
  - apply grown_mini_trans.
  - apply grown_mini_In.
  - intros a e _. apply (step_grown_mini label), injectIdentified_step.
Qed.

Lemma senderPhase_grown st : grown_mini st (senderPhase label st).
Proof.
  unfold senderPhase. apply phase_related.
  - apply grown_mini_refl.
  - apply grown_mini_trans.
  - apply grown_mini_In.
  - intros a e He. now apply (step_grown_mini label), injectSender_step.
Qed.

Lemma messagePhases_grown st : grown_mini st (messagePhases label st).
Proof.
  unfold messagePhases.
  eapply grown_mini_trans; [|apply senderPhase_grown].
  eapply grown_mini_trans; [|apply identifiedPhase_grown].
  apply expandedPhase_grown.
Qed.

Lemma injectButtons_grown st : grown st (injectButtons label st).
Proof.
  rewrite injectButtons_phases.
  eapply grown_trans; [apply toolbarPhases_grown|].
  apply mini_grown, messagePhases_grown.
Qed.

(** After its loop, every toolbar that had an insertion point is
    settled. *)
Lemma toolbarPhase_settles sel st t :
  In t (querySelectorAll (dom st) sel) ->
  present (insertPoint (dom st) t) = true ->
  settled_toolbar (toolbarPhase label sel st) t.
Proof.
  unfold toolbarPhase.
  apply (fold_settles grown (injectToolbar label) settled_toolbar
           (fun st t => present (insertPoint (dom st) t) = true)).
  - apply grown_refl.
  - apply grown_trans.
  - intros a b e H. apply (grown_In _ _ H).
  - intros a e _. apply (step_grown label), step_toolbar_step,
      injectToolbar_step.
  - intros a b e H _. now apply settled_toolbar_grown.
  - intros a b e H. now apply grown_insertPoint.
  - intros a e _. apply injectToolbar_settles.
  - intros e. apply querySelectorAll_In.
Qed.

Lemma expandedPhase_settles st c :
  In c (querySelectorAll (dom st) (class "gs")) ->
  settled_expanded (expandedPhase label st) c.
Proof.
  intros Hc. unfold expandedPhase.
  apply (fold_settles grown_mini (injectExpanded label) settled_expanded
           (fun _ _ => True)); auto.
  - apply grown_mini_refl.
  - apply grown_mini_trans.
  - apply grown_mini_In.
  - intros a e _. apply (step_grown_mini label), injectExpanded_step.
  - intros a b e H. now apply settled_expanded_grown.
  - intros a e _ _. apply injectExpanded_settles.
  - intros e. apply querySelectorAll_In.
Qed.

Lemma identifiedPhase_settles st c :
  In c (querySelectorAll (dom st) [Just [HasAttr "data-message-id"]]) ->
  settled_identified (identifiedPhase label st) c.
Proof.
  intros Hc. unfold identifiedPhase.
  apply (fold_settles grown_mini (injectIdentified label) settled_identified
           (fun _ _ => True)); auto.
  - apply grown_mini_refl.
  - apply grown_mini_trans.
  - apply grown_mini_In.
  - intros a e _. apply (step_grown_mini label), injectIdentified_step.
  - intros a b e H. now apply settled_identified_grown.
  - intros a e _ _. apply injectIdentified_settles.
  - intros e. apply querySelectorAll_In.
Qed.

Lemma senderPhase_settles st s :
  In s (querySelectorAll (dom st)
          [Inside [Class "gE"] [Class "gD"]; Inside [Class "gH"] [Class "gD"]]) ->
  settled_sender (senderPhase label st) s.
Proof.
  intros Hs. unfold senderPhase.
  apply (fold_settles grown_mini (injectSender label) settled_sender
           (fun _ _ => True)); auto.
  - apply grown_mini_refl.
  - apply grown_mini_trans.
  - apply grown_mini_In.
  - intros a e He. now apply (step_grown_mini label), injectSender_step.
  - intros a b e H. apply settled_sender_grown, H.
  - intros a e He _. now apply injectSender_settles.
  - intros e. apply querySelectorAll_In.
Qed.

End Loops.

(** *** Two passes on the same page *)

(** A toolbar that a pass leaves alone. *)
Definition idle_toolbar (st : injector) (toolbar : node) : Prop :=
  marked st toolbar = true \/ hasButton (dom st) toolbar = true
  \/ insertPoint (dom st) toolbar = None.

(** Every toolbar of the page is marked, holds a button, or has neither a
    [.T-I] descendant nor a child. *)
Definition toolbars_settled (st : injector) : Prop :=
  forall e, In e (dom st) -> toolbar_like e = true -> idle_toolbar st e.

(** The selector of the sender elements. *)
Definition senderSelector : selector :=
  [Inside [Class "gE"] [Class "gD"]; Inside [Class "gH"] [Class "gD"]]%string.

Lemma toolbar_like_selected D e :
  In e D -> toolbar_like e = true ->
  exists sel, In sel toolbarSelectors /\ In e (querySelectorAll D sel).
Proof.
  intros He Ht. unfold toolbar_like in Ht.
  apply orb_true_iff in Ht. destruct Ht as [Ht|Ht];
    [apply orb_true_iff in Ht; destruct Ht as [Ht|Ht]|].
  - exists (class "ade"). split; [now left|].
    apply filter_In. split; [exact He|].
    unfold matches, class. cbn [existsb matches_complex]. now rewrite Ht.
  - exists (class "G-atb"). split; [right; now left|].
    apply filter_In. split; [exact He|].
    unfold matches, class. cbn [existsb matches_complex]. now rewrite Ht.
  - exists [Just [AttrIs "gh" (lit "mtb")]]. split; [right; right; now left|].
    apply filter_In. split; [exact He|].
    unfold matches. cbn [existsb matches_complex]. now rewrite Ht.
Qed.

Lemma selected_toolbar_like D sel e :
  In sel toolbarSelectors -> In e (querySelectorAll D sel) ->
  toolbar_like e = true.
Proof.
  intros Hsel He. apply filter_In in He. destruct He as [_ Hm].
  unfold toolbar_like.
  destruct Hsel as [<-|[<-|[<-|[]]]];
    unfold matches, class in Hm; cbn [existsb matches_complex] in Hm;
    rewrite orb_false_r in Hm; rewrite Hm;
    now rewrite ?orb_true_r.
Qed.

Section Twice.
Variable label : jsstring.

Lemma injectToolbar_idle st e :
  idle_toolbar st e -> injectToolbar label st e = st.
Proof.
  unfold injectToolbar, idle_toolbar, hasButton, insertPoint.
  intros [H|[H|H]].
  - now rewrite H.
  - rewrite H. now destruct (marked st e).
  - rewrite H. now destruct (marked st e),
      (present (querySelector (dom st) e (class "asana-gmail-btn"))).
Qed.

Lemma toolbarPhase_idle sel st :
  In sel toolbarSelectors -> toolbars_settled st ->
  toolbarPhase label sel st = st.
Proof.
  intros Hsel Hst. unfold toolbarPhase. apply fold_idle.
  intros e He. apply injectToolbar_idle, Hst.
  - now apply (querySelectorAll_In _ sel).
  - now apply (selected_toolbar_like (dom st) sel).
Qed.

Lemma toolbarPhases_idle st :
  toolbars_settled st -> toolbarPhases label st = st.
Proof.
  intros Hst. unfold toolbarPhases.
  rewrite (toolbarPhase_idle (class "ade") st); [|now left|exact Hst].
  rewrite (toolbarPhase_idle (class "G-atb") st); [|right; now left|exact Hst].
  apply toolbarPhase_idle; [right; right; now left|exact Hst].
Qed.

(** After the toolbar loops, every toolbar that had an insertion point is
    marked or holds a button. *)
Lemma toolbarPhases_settle st t :
  In t (dom st) -> toolbar_like t = true ->
  present (insertPoint (dom st) t) = true ->
  settled_toolbar (toolbarPhases label st) t.
Proof.
  intros Ht Hlike Hpoint.
  destruct (toolbar_like_selected (dom st) t Ht Hlike) as (sel & Hsel & Hq).
  unfold toolbarPhases.
  set (s1 := toolbarPhase label (class "ade") st).
  set (s2 := toolbarPhase label (class "G-atb") s1).
  set (s3 := toolbarPhase label [Just [AttrIs "gh" (lit "mtb")]] s2).
  assert (S01 : grown st s1) by apply toolbarPhase_grown.
  assert (S12 : grown s1 s2) by apply toolbarPhase_grown.
  assert (S23 : grown s2 s3) by apply toolbarPhase_grown.
  assert (S02 : grown st s2) by exact (grown_trans _ _ _ S01 S12).
  assert (S13 : grown s1 s3) by exact (grown_trans _ _ _ S12 S23).
  destruct Hsel as [<-|[<-|[<-|[]]]].
  - apply (settled_toolbar_grown s1 s3 t S13).
    now apply toolbarPhase_settles.
  - apply (settled_toolbar_grown s2 s3 t S23).
    apply toolbarPhase_settles.
    + rewrite (grown_all _ _ S01); [exact Hq|].
      unfold plain_selectors. cbn [In]. tauto.
    + now apply (grown_insertPoint st s1).
  - apply toolbarPhase_settles.
    + rewrite (grown_all _ _ S02); [exact Hq|].
      unfold plain_selectors. cbn [In]. tauto.
    + now apply (grown_insertPoint st s2).
Qed.

(** What the message loops leave: every container that a strategy visits
    is settled for it. *)
Lemma messagePhases_settle st :
  let st' := messagePhases label st in
  (forall c, In c (querySelectorAll (dom st) (class "gs")) ->
     settled_expanded st' c) /\
  (forall c, In c (querySelectorAll (dom st)
                     [Just [HasAttr "data-message-id"]]) ->
     settled_identified st' c) /\
  (forall s, In s (querySelectorAll (dom st) senderSelector) ->
     settled_sender st' s).
Proof.
  unfold messagePhases.
  set (s1 := expandedPhase label st).
  set (s2 := identifiedPhase label s1).
  set (s3 := senderPhase label s2).
  assert (S01 : grown_mini st s1) by apply expandedPhase_grown.
  assert (S12 : grown_mini s1 s2) by apply identifiedPhase_grown.
  assert (S23 : grown_mini s2 s3) by apply senderPhase_grown.
  assert (S02 : grown_mini st s2) by exact (grown_mini_trans _ _ _ S01 S12).
  assert (S13 : grown_mini s1 s3) by exact (grown_mini_trans _ _ _ S12 S23).
  cbv zeta. split; [|split].
  - intros c Hc.
    apply (settled_expanded_grown s1 s3 c S13).
    + apply (grown_mini_In _ _ _ S01). now apply (querySelectorAll_In _ (class "gs")).
    + now apply expandedPhase_settles.
  - intros c Hc.
    apply (settled_identified_grown s2 s3 c S23).
    + apply (grown_mini_In _ _ _ S02).
      now apply (querySelectorAll_In _ [Just [HasAttr "data-message-id"]]).
    + apply identifiedPhase_settles.
      rewrite (grown_all _ _ (mini_grown _ _ S01)); [exact Hc|].
      unfold plain_selectors. cbn [In]. tauto.
  - intros s Hs. apply senderPhase_settles.
    fold senderSelector.
    rewrite (grown_all _ _ (mini_grown _ _ S02)); [exact Hs|].
    unfold plain_selectors, senderSelector. cbn [In]. tauto.
Qed.

(** A state in which every container that a strategy visits is settled
    for it is left as it is by the message loops. *)
Lemma messagePhases_idle st :
  (forall c, In c (querySelectorAll (dom st) (class "gs")) ->
     settled_expanded st c) ->
  (forall c, In c (querySelectorAll (dom st)
                     [Just [HasAttr "data-message-id"]]) ->
     settled_identified st c) ->
  (forall s, In s (querySelectorAll (dom st) senderSelector) ->
     settled_sender st s) ->
  messagePhases label st = st.
Proof.
  intros H1 H2 H3. unfold messagePhases.
  assert (E1 : expandedPhase label st = st).
  { unfold expandedPhase. apply fold_idle. intros e He.
    now apply injectExpanded_idle, H1. }
  rewrite E1.
  assert (E2 : identifiedPhase label st = st).
  { unfold identifiedPhase. apply fold_idle. intros e He.
    now apply injectIdentified_idle, H2. }
  rewrite E2.
  unfold senderPhase. apply fold_idle. intros e He.
  now apply injectSender_idle, H3.
Qed.

Lemma injectMessageButtons_phases st :
  injectMessageButtons label st = messagePhases label st.
Proof. reflexivity. Qed.

Lemma injectToolbarButtons_phases st :
  injectToolbarButtons label st = toolbarPhases label st.
Proof. reflexivity. Qed.

(** After a pass every container of the page is settled. *)
Lemma injectButtons_settles st :
  let st1 := injectButtons label st in
  (forall t, In t (dom st) -> toolbar_like t = true ->
     insertPoint (dom st) t <> None -> settled_toolbar st1 t) /\
  (forall c, In c (querySelectorAll (dom st) (class "gs")) ->
     settled_expanded st1 c) /\
  (forall c, In c (querySelectorAll (dom st)
                     [Just [HasAttr "data-message-id"]]) ->
     settled_identified st1 c) /\
  (forall s, In s (querySelectorAll (dom st) senderSelector) ->
     settled_sender st1 s).
Proof.
  cbv zeta. rewrite injectButtons_phases.
  set (s1 := toolbarPhases label st).
  assert (S01 : grown st s1) by apply toolbarPhases_grown.
  assert (S12 : grown_mini s1 (messagePhases label s1))
    by apply messagePhases_grown.
  destruct (messagePhases_settle s1) as (H1 & H2 & H3).
  split; [|split; [|split]].
  - intros t Ht Hlike Hpoint.
    apply (settled_toolbar_grown s1 _ t (mini_grown _ _ S12)).
    apply toolbarPhases_settle; auto.
    now destruct (insertPoint (dom st) t).
  - intros c Hc. apply H1.
    rewrite (grown_all _ _ S01); [exact Hc|].
    unfold plain_selectors. cbn [In]. tauto.
  - intros c Hc. apply H2.
    rewrite (grown_all _ _ S01); [exact Hc|].
    unfold plain_selectors. cbn [In]. tauto.
  - intros s Hs. apply H3.
    rewrite (grown_all _ _ S01); [exact Hs|].
    unfold plain_selectors, senderSelector. cbn [In]. tauto.
Qed.

(** The message loops of a second pass find nothing to do on the page
    that a pass left. *)
Lemma injectMessageButtons_idle st :
  injectMessageButtons label (injectButtons label st)
  = injectButtons label st.
Proof.
  rewrite injectMessageButtons_phases.
  pose proof (injectButtons_grown label st) as Hg.
  destruct (injectButtons_settles st) as (_ & H1 & H2 & H3).
  apply messagePhases_idle.
  - intros c Hc. apply H1.
    rewrite <- (grown_all _ _ Hg); [exact Hc|].
    unfold plain_selectors. cbn [In]. tauto.
  - intros c Hc. apply H2.
    rewrite <- (grown_all _ _ Hg); [exact Hc|].
    unfold plain_selectors. cbn [In]. tauto.
  - intros s Hs. apply H3.
    rewrite <- (grown_all _ _ Hg); [exact Hs|].
    unfold plain_selectors, senderSelector. cbn [In]. tauto.
Qed.

(** A pass on the page that a pass left changes nothing exactly when the
    toolbars of that page are settled. *)
Lemma injectButtons_idle_iff st :
  let st1 := injectButtons label st in
  injectButtons label st1 = st1 <-> toolbars_settled st1.
Proof.
  cbv zeta. set (st1 := injectButtons label st). split.
  - intros Hidle e He Hlike.
    destruct (insertPoint (dom st1) e) as [p|] eqn:Hp.
    2: { right; right. exact Hp. }
    destruct (injectButtons_settles st1) as (H & _).
    cbv zeta in H. rewrite Hidle in H.
    destruct (H e He Hlike) as [Hm|Hb].
    + now rewrite Hp.
    + now left.
    + right; now left.
  - intros Hst. rewrite injectButtons_phases.
    rewrite (toolbarPhases_idle st1 Hst).
    rewrite <- injectMessageButtons_phases.
    apply injectMessageButtons_idle.
Qed.

Lemma injectButtons_count_iff st :
  let st1 := injectButtons label st in
  length (triggers (dom (injectButtons label st1)))
  = length (triggers (dom st1)) <-> toolbars_settled st1.
Proof.
  cbv zeta. pose proof (injectButtons_idle_iff st) as Hiff.
  cbv zeta in Hiff. set (st1 := injectButtons label st) in *. split.
  - intros Hlen. apply Hiff.
    destruct (injectButtons_served label st1) as [ins H].
    pose proof (Permutation_length (served_triggers _ _ _ H)) as Hp.
    rewrite length_app, length_map in Hp.
    apply (served_idle _ _ _ H).
    destruct ins as [|p ins]; [reflexivity|].
    change (length (p :: ins)) with (S (length ins)) in Hp. lia.
  - intros Hst. now rewrite (proj2 Hiff Hst).
Qed.

End Twice.

(** A message container whose actions area is an empty element that also
    carries a toolbar class. *)
Definition emptyToolbarPage : injector :=
  {| dom :=
       [{| eid := 1; path := []; isText := false; classes := [];
           attributes := [("data-message-id", lit "m1")]%string;
           data := []; listener := None |};
        {| eid := 2; path := [1%nat]; isText := false;
           classes := ["ade"; "bGI"]%string; attributes := [];
           data := []; listener := None |}];
     injectedButtons := ∅ |}.

(** A message container whose actions area carries a toolbar class and
    already holds a host button. *)
Definition filledToolbarPage : injector :=
  {| dom :=
       [{| eid := 1; path := []; isText := false; classes := [];
           attributes := [("data-message-id", lit "m1")]%string;
           data := []; listener := None |};
        {| eid := 2; path := [1%nat]; isText := false;
           classes := ["ade"; "bGI"]%string; attributes := [];
           data := []; listener := None |};
        {| eid := 3; path := [2%nat; 1%nat]; isText := false;
           classes := ["T-I"]%string;
           attributes := [("data-tooltip", lit "More")]%string;
           data := []; listener := None |}];
     injectedButtons := ∅ |}.




End InjectorFacts.

(** ** The service worker: the upload cases and the preferences *)

Module GatewayCases.
Import Binary Gateway Relay.

(** Decides the comparisons of the [switch] at a known type. *)
Ltac decide_cases :=
  repeat match goal with
  | |- context [str_eqb ?a ?b] =>
      let v := eval vm_compute in (str_eqb a b) in
      change (str_eqb a b) with v; cbv iota
  end.

Lemma handleMessage_upload P message :
  get "type" message = Ok (VStr (lit "UPLOAD_ATTACHMENT")) ->
  handleMessage P message
  = (blob ← downloadGmailAttachment P (prop "attachmentUrl" message);
     uploadAttachment P (prop "taskId" message) blob (prop "filename" message)).
Proof.
  intros Hty. unfold handleMessage. rewrite Hty. cbn [mbind result_bind].
  decide_cases. reflexivity.
Qed.

Lemma handleMessage_upload_base64 P message :
  get "type" message = Ok (VStr (lit "UPLOAD_ATTACHMENT_BASE64")) ->
  handleMessage P message
  = (blob ← blobOfMessage (prop "base64Data" message) (prop "mimeType" message);
     uploadAttachment P (prop "taskId" message) blob (prop "filename" message)).
Proof.
  intros Hty. unfold handleMessage. rewrite Hty. cbn [mbind result_bind].
  decide_cases. reflexivity.
Qed.

Lemma handleMessage_get_preferences P message :
  get "type" message = Ok (VStr (lit "GET_PREFERENCES")) ->
  handleMessage P message
  = (data ← storage_get P (lit "preferences");
     let preferences := prop "preferences" data in
     Ok (if is_truthy preferences then preferences else VObj [])).
Proof.
  intros Hty. unfold handleMessage. rewrite Hty. cbn [mbind result_bind].
  decide_cases. reflexivity.
Qed.


(** A platform that records nothing and accepts every upload. *)
Definition accepting_platform : platform :=
  {| checkSession := Ok VNull; getWorkspaces := Ok VNull;
     getProjects := fun _ => Ok VNull; getUsers := fun _ => Ok VNull;
     getTags := fun _ => Ok VNull; createTask := fun _ => Ok VNull;
     uploadAttachment := fun _ b _ =>
       Ok (VNum (Z.of_nat (length (blob_bytes b))));
     searchTasks := fun _ _ => Ok VNull; addComment := fun _ _ _ => Ok VNull;
     getProjectCustomFields := fun _ => Ok VNull; getTask := fun _ => Ok VNull;
     showNotification := fun _ _ _ => Ok tt;
     fetch := fun _ => Ok {| ok := false; status := 404; body := Ok (Blob [] []) |};
     storage_get := fun _ => Ok (VObj []); storage_set := fun _ _ => Ok tt |}.


(** X2.  When the download of an [UPLOAD_ATTACHMENT] message is answered
    with a status that is not ok, the listener responds with the error
    [Failed to download attachment: <status>]; the response does not depend
    on [asanaClient.uploadAttachment], which is not reached. *)
Theorem upload_stops_at_failed_download P message r :
  get "type" message = Ok (VStr (lit "UPLOAD_ATTACHMENT")) ->
  fetch P (prop "attachmentUrl" message) = Ok r ->
  ok r = false ->
  onMessage P message
  = {| sent := [VObj [(lit "error",
                       VStr (lit "Failed to download attachment: "
                             ++ decimal (Z.of_N (status r))))]];
       chain := Ok tt |}.
Proof.
  intros Hty Hfetch Hok. unfold onMessage.
  rewrite handleMessage_upload by exact Hty.
  unfold downloadGmailAttachment. rewrite Hfetch. cbn [mbind result_bind].
  rewrite Hok. reflexivity.
Qed.

Lemma upload_stops_at_failed_download_witness :
  onMessage accepting_platform
    (VObj [(lit "type", VStr (lit "UPLOAD_ATTACHMENT"));
           (lit "attachmentUrl", VStr (lit "https://mail.example/a"))])
  = {| sent := [VObj [(lit "error",
                       VStr (lit "Failed to download attachment: 404"))]];
       chain := Ok tt |}.
Proof.
  apply (upload_stops_at_failed_download accepting_platform _
           {| ok := false; status := 404; body := Ok (Blob [] []) |});
    reflexivity.
Defined.

(** X3.  When the [base64Data] of an [UPLOAD_ATTACHMENT_BASE64] message is
    not something [atob] decodes (for one, when the field is missing), the
    listener responds with an error object and
    [asanaClient.uploadAttachment] is not reached. *)
Theorem upload_rejects_undecodable_data P message :
  get "type" message = Ok (VStr (lit "UPLOAD_ATTACHMENT_BASE64")) ->
  Base64.atob (toString (prop "base64Data" message)) = None ->
  (exists text,
     sent (onMessage P message) = [VObj [(lit "error", VStr text)]]) /\
  forall P', onMessage P' message = onMessage P message.
Proof.
  intros Hty Hdata.
  assert (H : forall Q, handleMessage Q message
                        = Throw (Error (lit "Failed to execute 'atob'"))).
  { intros Q. rewrite handleMessage_upload_base64 by exact Hty.
    unfold blobOfMessage. now rewrite Hdata. }
  unfold onMessage. split.
  - rewrite H. eexists. reflexivity.
  - intros P'. now rewrite !H.
Qed.

Lemma upload_rejects_undecodable_data_witness :
  (exists text,
     sent (onMessage accepting_platform
             (VObj [(lit "type", VStr (lit "UPLOAD_ATTACHMENT_BASE64"));
                    (lit "taskId", VStr (lit "7"))]))
     = [VObj [(lit "error", VStr text)]]) /\
  forall P',
    onMessage P'
      (VObj [(lit "type", VStr (lit "UPLOAD_ATTACHMENT_BASE64"));
             (lit "taskId", VStr (lit "7"))])
    = onMessage accepting_platform
        (VObj [(lit "type", VStr (lit "UPLOAD_ATTACHMENT_BASE64"));
               (lit "taskId", VStr (lit "7"))]).
Proof.
  apply (upload_rejects_undecodable_data accepting_platform); reflexivity.
Defined.

(** X4.  The answer to [GET_PREFERENCES] is never a falsy value: it is the
    stored preferences when there are some, and the empty object when the
    storage holds none. *)
Theorem preferences_answer_is_an_object P message data :
  get "type" message = Ok (VStr (lit "GET_PREFERENCES")) ->
  storage_get P (lit "preferences") = Ok data ->
  exists v,
    sent (onMessage P message) = [v] /\ is_truthy v = true /\
    (is_truthy (prop "preferences" data) = true -> v = prop "preferences" data) /\
    (prop "preferences" data = VUndefined -> v = VObj []).
Proof.
  intros Hty Hdata. unfold onMessage.
  rewrite handleMessage_get_preferences by exact Hty.
  rewrite Hdata. cbn [mbind result_bind]. cbv zeta.
  destruct (is_truthy (prop "preferences" data)) eqn:E.
  - exists (prop "preferences" data). repeat split; auto.
    intros H. rewrite H in E. discriminate.
  - exists (VObj []). repeat split; auto. discriminate.
Qed.

Lemma preferences_answer_is_an_object_witness :
  exists v,
    sent (onMessage accepting_platform
            (VObj [(lit "type", VStr (lit "GET_PREFERENCES"))])) = [v] /\
    is_truthy v = true /\
    (is_truthy (prop "preferences" (VObj [])) = true ->
     v = prop "preferences" (VObj [])) /\
    (prop "preferences" (VObj []) = VUndefined -> v = VObj []).
Proof.
  apply (preferences_answer_is_an_object accepting_platform); reflexivity.
Defined.

End GatewayCases.

(** ** The Asana client: token, requests, failures *)

Module ClientFacts.
Import Binary Gateway Client.

(** The request that [asanaFetch] makes with a token. *)
Definition apiRequest (token : value) (endpoint method : jsstring)
    (body : content) : request :=
  {| req_url := ASANA_API_BASE ++ endpoint;
     req_method := method;
     authorization := lit "Bearer " ++ toString token;
     contentType := Some (lit "application/json");
     payload := body |}.

(** A request that goes to the API with the stored token. *)
Definition authorized (net : network) (r : request) : Prop :=
  exists token endpoint,
    asanaToken net = Ok token /\ is_truthy token = true /\
    authorization r = lit "Bearer " ++ toString token /\
    req_url r = ASANA_API_BASE ++ endpoint.

(** What a computation of the client may have requested: nothing, or one
    authorized request. *)
Definition at_most_one (net : network) {A} (m : C A) : Prop :=
  fst m = [] \/ exists r, fst m = [r] /\ authorized net r.

Lemma fst_bind_quiet {A B} (m : C A) (k : A -> C B) :
  (forall a, fst (k a) = []) -> fst (m ≫= k) = fst m.
Proof.
  intros Hk. destruct m as [made [a|e]]; unfold mbind, C_bind; [|reflexivity].
  specialize (Hk a). destruct (k a) as [more r]. cbn [fst] in *. subst.
  apply app_nil_r.
Qed.

Lemma snd_bind_throw {A B} (m : C A) (k : A -> C B) e :
  snd m = Throw e -> snd (m ≫= k) = Throw e.
Proof.
  destruct m as [made [a|e']]; cbn [snd]; intros H; [discriminate|].
  injection H as ->. reflexivity.
Qed.

Lemma bind_lift_quiet {A B} (r : result A) (k : A -> C B) :
  (forall a, fst (k a) = []) -> fst (lift r ≫= k) = [].
Proof. intros Hk. now rewrite fst_bind_quiet. Qed.

Lemma fst_lift {A} (r : result A) : fst (lift r) = [].
Proof. reflexivity. Qed.

Section Net.
Variable net : network.

Lemma asanaFetch_unfold endpoint method body :
  asanaFetch net endpoint method body
  = match asanaToken net with
    | Throw e => ([], Throw e)
    | Ok token =>
        if is_truthy token then
          ([apiRequest token endpoint method body],
           match http net (apiRequest token endpoint method body) with
           | Throw e => Throw e
           | Ok response =>
               if reply_ok response then json response
               else
                 match firstErrorMessage
                         (match json response with
                          | Ok v => v
                          | Throw _ => VObj []
                          end) with
                 | Throw e => Throw e
                 | Ok text =>
                     Throw (Error (if is_truthy text then toString text
                                   else lit "Asana API error: "
                                        ++ decimal (Z.of_N (reply_status response))))
                 end
           end)
        else ([], Throw (Error tokenMissing))
    end.
Proof.
  unfold asanaFetch, getToken, lift, send, raise, apiRequest.
  unfold mbind, C_bind.
  destruct (asanaToken net) as [token|e]; [|reflexivity].
  destruct (is_truthy token); cbn [negb]; [|reflexivity].
  destruct (http net _) as [response|e]; [|reflexivity].
  destruct (reply_ok response); cbn [negb].
  - destruct (json response); reflexivity.
  - destruct (json response) as [v|e];
      destruct (firstErrorMessage _) as [text|e']; reflexivity.
Qed.

Lemma uploadAttachment_unfold taskId file filename :
  uploadAttachment net taskId file filename
  = match asanaToken net with
    | Throw e => ([], Throw e)
    | Ok token =>
        if is_truthy token then
          let r :=
            {| req_url := ASANA_API_BASE ++ lit "/tasks/" ++ toString taskId
                          ++ lit "/attachments";
               req_method := lit "POST";
               authorization := lit "Bearer " ++ toString token;
               contentType := None;
               payload := FormFile file filename |} in
          ([r],
           match http net r with
           | Throw e => Throw e
           | Ok response =>
               if reply_ok response then json response
               else
                 match firstErrorMessage
                         (match json response with
                          | Ok v => v
                          | Throw _ => VObj []
                          end) with
                 | Throw e => Throw e
                 | Ok text =>
                     Throw (Error (if is_truthy text then toString text
                                   else lit "Upload error: "
                                        ++ decimal (Z.of_N (reply_status response))))
                 end
           end)
        else ([], Throw (Error (lit "Token Asana non configur" ++ [233])))
    end.
Proof.
  unfold uploadAttachment, getToken, lift, send, raise.
  unfold mbind, C_bind.
  destruct (asanaToken net) as [token|e]; [|reflexivity].
  destruct (is_truthy token); cbn [negb]; [|reflexivity].
  cbv zeta. destruct (http net _) as [response|e]; [|reflexivity].
  destruct (reply_ok response); cbn [negb].
  - destruct (json response); reflexivity.
  - destruct (json response) as [v|e];
      destruct (firstErrorMessage _) as [text|e']; reflexivity.
Qed.

Lemma lift_bind {A B} (r : result A) (k : A -> C B) :
  lift r ≫= k = match r with Ok a => k a | Throw e => ([], Throw e) end.
Proof.
  unfold lift, mbind, C_bind. destruct r as [a|e]; [|reflexivity].
  now destruct (k a).
Qed.

Lemma asanaFetch_at_most_one endpoint method body :
  at_most_one net (asanaFetch net endpoint method body).
Proof.
  unfold at_most_one. rewrite asanaFetch_unfold.
  destruct (asanaToken net) as [token|e] eqn:Htoken; [|now left].
  destruct (is_truthy token) eqn:Htruthy; [|now left].
  right. eexists. split; [reflexivity|].
  exists token, endpoint. unfold apiRequest. cbn. auto.
Qed.

Lemma uploadAttachment_at_most_one taskId file filename :
  at_most_one net (uploadAttachment net taskId file filename).
Proof.
  unfold at_most_one. rewrite uploadAttachment_unfold.
  destruct (asanaToken net) as [token|e] eqn:Htoken; [|now left].
  destruct (is_truthy token) eqn:Htruthy; [|now left].
  right. eexists. split; [reflexivity|].
  exists token, (lit "/tasks/" ++ toString taskId ++ lit "/attachments").
  cbn. auto.
Qed.

Lemma bind_at_most_one {A B} (m : C A) (k : A -> C B) :
  at_most_one net m -> (forall a, fst (k a) = []) ->
  at_most_one net (m ≫= k).
Proof.
  unfold at_most_one. intros H Hk. now rewrite fst_bind_quiet.
Qed.

Lemma quiet_data (result : value) : fst (lift (A:=value) (get "data" result)) = [].
Proof. reflexivity. Qed.

Lemma getProjects_quiet (result : value) :
  fst (data ← lift (get "data" result);
       match data with
       | VArr items => items' ← lift (keepActive items); mret (VArr items')
       | _ => raise (Error (lit "result.data.filter is not a function"))
       end) = [].
Proof.
  rewrite lift_bind. destruct (get "data" result) as [data|e]; [|reflexivity].
  destruct data; try reflexivity. rewrite lift_bind.
  now destruct (keepActive items).
Qed.

Lemma getProjectCustomFields_quiet (result : value) :
  fst (data ← lift (get "data" result);
       settings ← lift (get "custom_field_settings" data);
       if negb (is_truthy settings) then mret (VArr [])
       else
         match settings with
         | VArr items =>
             fields ← lift (fieldsOfSettings items); mret (VArr fields)
         | _ => raise (Error (lit "custom_field_settings.map is not a function"))
         end) = [].
Proof.
  rewrite lift_bind. destruct (get "data" result) as [data|e]; [|reflexivity].
  rewrite lift_bind.
  destruct (get "custom_field_settings" data) as [settings|e]; [|reflexivity].
  destruct (negb (is_truthy settings)); [reflexivity|].
  destruct settings; try reflexivity. rewrite lift_bind.
  now destruct (fieldsOfSettings items).
Qed.

Lemma checkSession_at_most_one : at_most_one net (checkSession net).
Proof.
  unfold checkSession, getToken. rewrite lift_bind.
  destruct (asanaToken net) as [token|e] eqn:Htoken; [|now left].
  destruct (is_truthy token) eqn:Htruthy; cbn [negb]; [|now left].
  pose proof (asanaFetch_at_most_one (lit "/users/me") (lit "GET") NoBody) as H.
  apply (bind_at_most_one _
           (fun result => user ← lift (get "data" result);
                          mret (VObj [(lit "loggedIn", VBool true);
                                      (lit "user", user)]))) in H.
  2: { intros result. rewrite lift_bind. now destruct (get "data" result). }
  unfold at_most_one in *. unfold attempt.
  destruct (_ ≫= _) as [made [a|e]]; [exact H|].
  cbn [mret C_ret fst] in *. now rewrite app_nil_r.
Qed.

Lemma run_at_most_one c : at_most_one net (run net c).
Proof.
  destruct c; cbn [run].
  - apply checkSession_at_most_one.
  - apply bind_at_most_one; [apply asanaFetch_at_most_one|reflexivity].
  - apply bind_at_most_one; [apply asanaFetch_at_most_one|].
    apply getProjects_quiet.
  - apply bind_at_most_one; [apply asanaFetch_at_most_one|reflexivity].
  - apply bind_at_most_one; [apply asanaFetch_at_most_one|reflexivity].
  - apply bind_at_most_one; [apply asanaFetch_at_most_one|reflexivity].
  - apply uploadAttachment_at_most_one.
  - unfold searchTasks. destruct (_ || _); [now left|].
    rewrite lift_bind. destruct (encodeURIComponent net query); [|now left].
    apply bind_at_most_one; [apply asanaFetch_at_most_one|reflexivity].
  - apply bind_at_most_one; [apply asanaFetch_at_most_one|reflexivity].
  - apply bind_at_most_one; [apply asanaFetch_at_most_one|].
    apply getProjectCustomFields_quiet.
  - apply bind_at_most_one; [apply asanaFetch_at_most_one|reflexivity].
Qed.

Lemma asanaFetch_no_token token endpoint method body :
  asanaToken net = Ok token -> is_truthy token = false ->
  asanaFetch net endpoint method body = ([], Throw (Error tokenMissing)).
Proof. intros H1 H2. now rewrite asanaFetch_unfold, H1, H2. Qed.

Lemma throw_bind {A B} (e : exn) (k : A -> C B) :
  (([], Throw e) : C A) ≫= k = ([], Throw e).
Proof. reflexivity. Qed.

(** With replies that are never ok, [asanaFetch] throws. *)
Lemma asanaFetch_rejected endpoint method body :
  (forall r rep, http net r = Ok rep -> reply_ok rep = false) ->
  exists e, snd (asanaFetch net endpoint method body) = Throw e.
Proof.
  intros Hrej. rewrite asanaFetch_unfold.
  destruct (asanaToken net) as [token|e]; [|now exists e].
  destruct (is_truthy token); [|eexists; reflexivity].
  cbn [snd]. destruct (http net _) as [rep|e] eqn:Hrep; [|now exists e].
  rewrite (Hrej _ _ Hrep).
  destruct (firstErrorMessage _) as [text|e]; eexists; reflexivity.
Qed.

Lemma uploadAttachment_rejected taskId file filename :
  (forall r rep, http net r = Ok rep -> reply_ok rep = false) ->
  exists e, snd (uploadAttachment net taskId file filename) = Throw e.
Proof.
  intros Hrej. rewrite uploadAttachment_unfold.
  destruct (asanaToken net) as [token|e]; [|now exists e].
  destruct (is_truthy token); [|eexists; reflexivity].
  cbv zeta. cbn [snd]. destruct (http net _) as [rep|e] eqn:Hrep; [|now exists e].
  rewrite (Hrej _ _ Hrep).
  destruct (firstErrorMessage _) as [text|e]; eexists; reflexivity.
Qed.

Lemma bind_rejected {A B} (m : C A) (k : A -> C B) :
  (exists e, snd m = Throw e) -> exists e, snd (m ≫= k) = Throw e.
Proof. intros [e He]. exists e. now apply snd_bind_throw. Qed.

End Net.

Lemma starts_with_app p s : starts_with p (p ++ s) = true.
Proof.
  induction p as [|c p IH]; simpl; [reflexivity|].
  now rewrite N.eqb_refl, IH.
Qed.

(** X5.  Whatever the network answers, a call of the client makes at most
    one request, and a request it makes goes to the Asana API and bears
    the stored token, which is then a truthy value. *)
Theorem client_requests_bear_the_token (net : network) (c : call) :
  (length (fst (run net c)) <= 1)%nat /\
  forall r, In r (fst (run net c)) ->
    exists token,
      asanaToken net = Ok token /\ is_truthy token = true /\
      authorization r = lit "Bearer " ++ toString token /\
      starts_with ASANA_API_BASE (req_url r) = true.
Proof.
  destruct (run_at_most_one net c) as [H|(r & H & token & endpoint & Hr)];
    rewrite H; cbn [length In].
  - split; [lia|tauto].
  - split; [lia|]. intros r' [<-|[]]. exists token.
    destruct Hr as (H1 & H2 & H3 & H4). rewrite H4.
    split; [exact H1|split; [exact H2|split; [exact H3|]]].
    apply starts_with_app.
Qed.

(** X6.  While no token is stored, no call of the client makes a request:
    [checkSession] reports that the setup is needed, a search for a query
    of fewer than two units gives the empty list, and every other call
    throws. *)
Theorem no_token_no_request (net : network) (token : value) (c : call) :
  asanaToken net = Ok token -> is_truthy token = false ->
  fst (run net c) = [] /\
  match c with
  | CheckSession =>
      snd (run net c)
      = Ok (VObj [(lit "loggedIn", VBool false);
                  (lit "error", VStr (lit "Token non configur" ++ [233]));
                  (lit "needsSetup", VBool true)])
  | SearchTasks _ query =>
      if (length query <? 2)%nat then snd (run net c) = Ok (VArr [])
      else exists e, snd (run net c) = Throw e
  | _ => exists e, snd (run net c) = Throw e
  end.
Proof.
  intros Htoken Hfalsy.
  pose proof (fun e m b => asanaFetch_no_token net token e m b Htoken Hfalsy)
    as Hfetch.
  destruct c; cbn [run].
  - unfold checkSession, getToken. rewrite lift_bind, Htoken, Hfalsy.
    split; reflexivity.
  - unfold getWorkspaces. rewrite Hfetch. split; [reflexivity|eexists; reflexivity].
  - unfold getProjects. rewrite Hfetch. split; [reflexivity|eexists; reflexivity].
  - unfold getUsers. rewrite Hfetch. split; [reflexivity|eexists; reflexivity].
  - unfold getTags. rewrite Hfetch. split; [reflexivity|eexists; reflexivity].
  - unfold createTask. rewrite Hfetch. split; [reflexivity|eexists; reflexivity].
  - rewrite uploadAttachment_unfold, Htoken, Hfalsy.
    split; [reflexivity|eexists; reflexivity].
  - unfold searchTasks.
    replace (negb (truthy query) || (length query <? 2)%nat)
      with (length query <? 2)%nat by (now destruct query).
    destruct (length query <? 2)%nat; [split; reflexivity|].
    rewrite lift_bind. destruct (encodeURIComponent net query) as [encoded|e].
    + rewrite Hfetch. split; [reflexivity|eexists; reflexivity].
    + split; [reflexivity|eexists; reflexivity].
  - unfold addComment. cbv zeta. rewrite Hfetch.
    split; [reflexivity|eexists; reflexivity].
  - unfold getProjectCustomFields. rewrite Hfetch.
    split; [reflexivity|eexists; reflexivity].
  - unfold getTask. rewrite Hfetch. split; [reflexivity|eexists; reflexivity].
Qed.

(** A network without a token, where requests would succeed. *)
Definition tokenless : network :=
  {| asanaToken := Ok VUndefined;
     http := fun _ => Ok {| reply_ok := true; reply_status := 200;
                            json := Ok (VObj [(lit "data", VArr [])]) |};
     encodeURIComponent := fun s => Ok s |}.

Lemma no_token_no_request_witness :
  fst (run tokenless (GetProjects (VStr (lit "12")))) = [] /\
  exists e, snd (run tokenless (GetProjects (VStr (lit "12")))) = Throw e.
Proof.
  apply (no_token_no_request tokenless VUndefined (GetProjects (VStr (lit "12"))));
    reflexivity.
Defined.

(** X7.  When no reply is ok, a call that has made a request gives no
    data: [checkSession] reports that the user is not logged in, with the
    text of an error, and every other call throws. *)
Theorem rejected_request_gives_no_data (net : network) (c : call) :
  (forall r rep, http net r = Ok rep -> reply_ok rep = false) ->
  fst (run net c) <> [] ->
  match c with
  | CheckSession =>
      exists text,
        snd (run net c)
        = Ok (VObj [(lit "loggedIn", VBool false); (lit "error", VStr text)])
  | _ => exists e, snd (run net c) = Throw e
  end.
Proof.
  intros Hrej Hmade.
  pose proof (asanaFetch_rejected net) as Hfetch.
  destruct c; cbn [run] in *.
  - revert Hmade. unfold checkSession, getToken. rewrite lift_bind.
    destruct (asanaToken net) as [token|e]; [|now intros []].
    destruct (is_truthy token); cbn [negb]; [|now intros []].
    intros _. destruct (Hfetch (lit "/users/me") (lit "GET") NoBody Hrej)
      as [e He].
    unfold attempt.
    rewrite (surjective_pairing (asanaFetch net _ _ _ ≫= _)).
    rewrite (snd_bind_throw _ _ e He). cbn [mret C_ret snd].
    now exists (message e).
  - apply bind_rejected; auto.
  - apply bind_rejected; auto.
  - apply bind_rejected; auto.
  - apply bind_rejected; auto.
  - apply bind_rejected; auto.
  - now apply uploadAttachment_rejected.
  - revert Hmade. unfold searchTasks. destruct (_ || _); [now intros []|].
    rewrite lift_bind. destruct (encodeURIComponent net query); [|now intros []].
    intros _. apply bind_rejected; auto.
  - apply bind_rejected; auto.
  - apply bind_rejected; auto.
  - apply bind_rejected; auto.
Qed.

(** A network with a token, where the API refuses every request. *)
Definition refusing : network :=
  {| asanaToken := Ok (VStr (lit "secret"));
     http := fun _ => Ok {| reply_ok := false; reply_status := 401;
                            json := Ok (VObj []) |};
     encodeURIComponent := fun s => Ok s |}.

Lemma rejected_request_gives_no_data_witness :
  exists e, snd (run refusing GetWorkspaces) = Throw e.
Proof.
  apply (rejected_request_gives_no_data refusing GetWorkspaces).
  - intros r rep H. injection H as <-. reflexivity.
  - discriminate.
Defined.

Lemma snd_bind_ok {A B} (m : C A) (k : A -> C B) v :
  snd (m ≫= k) = Ok v -> exists a, snd m = Ok a /\ snd (k a) = Ok v.
Proof.
  destruct m as [made [a|e]]; unfold mbind, C_bind; [|discriminate].
  destruct (k a) as [more r] eqn:E. cbn [snd]. intros ->.
  exists a. now rewrite E.
Qed.

Lemma keepActive_active items items' :
  keepActive items = Ok items' ->
  Forall (fun p => is_truthy (prop "archived" p) = false) items'.
Proof.
  revert items'. induction items as [|p items IH]; intros items'; simpl.
  - intros [= <-]. constructor.
  - unfold get. destruct p; try discriminate;
      cbn [mbind result_bind];
      (destruct (keepActive items) as [rest|e]; [|discriminate]);
      cbn [mbind result_bind];
      match goal with
      | |- context [is_truthy ?a] => destruct (is_truthy a) eqn:E
      end;
      intros [= <-]; auto.
Qed.

Lemma made_bind {A B} (made : list request) (a : A) (k : A -> C B) :
  ((made, Ok a) : C A) ≫= k = (made ++ fst (k a), snd (k a)).
Proof. unfold mbind, C_bind. now destruct (k a). Qed.

(** X8.  [checkSession] never throws: it always gives an object whose
    [loggedIn] is a boolean, and that boolean is [true] only when one
    request was made, its reply was ok and carried JSON, of which [user]
    is the [data]. *)
Theorem checkSession_never_throws (net : network) :
  exists fields b,
    snd (checkSession net) = Ok (VObj fields) /\
    assoc (lit "loggedIn") fields = VBool b /\
    (b = true ->
     exists r rep result,
       fst (checkSession net) = [r] /\ http net r = Ok rep /\
       reply_ok rep = true /\ json rep = Ok result /\
       assoc (lit "user") fields = prop "data" result).
Proof.
  unfold checkSession, getToken. rewrite lift_bind.
  destruct (asanaToken net) as [token|e] eqn:Htoken.
  2: { eexists _, false. repeat split; try reflexivity. discriminate. }
  destruct (is_truthy token) eqn:Htruthy; cbn [negb].
  2: { eexists _, false. repeat split; try reflexivity. discriminate. }
  rewrite asanaFetch_unfold, Htoken, Htruthy.
  set (r := apiRequest token (lit "/users/me") (lit "GET") NoBody).
  destruct (http net r) as [rep|e] eqn:Hrep.
  2: { eexists _, false. repeat split; try reflexivity. discriminate. }
  destruct (reply_ok rep) eqn:Hok.
  - destruct (json rep) as [result|e] eqn:Hjson.
    2: { eexists _, false. repeat split; try reflexivity. discriminate. }
    rewrite made_bind, lift_bind.
    destruct (get "data" result) as [user|e] eqn:Hdata.
    + eexists _, true. split; [reflexivity|]. split; [reflexivity|].
      intros _. exists r, rep, result. repeat split; auto.
      unfold get in Hdata. destruct result; try discriminate;
        now injection Hdata as <-.
    + eexists _, false. repeat split; try reflexivity. discriminate.
  - destruct (firstErrorMessage _) as [text|e];
      eexists _, false; repeat split; try reflexivity; discriminate.
Qed.

(** Decides the comparisons of keys. *)
Ltac decide_keys :=
  repeat match goal with
  | |- context [str_eqb ?a ?b] =>
      let v := eval vm_compute in (str_eqb a b) in
      change (str_eqb a b) with v; cbv iota
  end.

(** X9.  With a token, [createTask] makes one [POST] request to [/tasks]
    whose body is [{data: taskData}], where [taskData] never carries both
    [html_notes] and [notes], and carries none of the optional fields with
    a falsy value. *)
Theorem createTask_payload (net : network) (token : value) (i : taskInput) :
  asanaToken net = Ok token -> is_truthy token = true ->
  exists r data,
    fst (createTask net i) = [r] /\
    req_method r = lit "POST" /\
    req_url r = ASANA_API_BASE ++ lit "/tasks" /\
    payload r = Json (VObj [(lit "data", VObj data)]) /\
    (assoc (lit "html_notes") data = VUndefined
     \/ assoc (lit "notes") data = VUndefined) /\
    Forall (fun k =>
              assoc (lit k) data = VUndefined
              \/ is_truthy (assoc (lit k) data) = true)
      ["html_notes"; "notes"; "assignee"; "due_on"; "tags";
       "custom_fields"]%string.
Proof.
  intros Htoken Htruthy. unfold createTask.
  rewrite fst_bind_quiet by reflexivity.
  rewrite asanaFetch_unfold, Htoken, Htruthy. cbn [fst].
  eexists _, (taskDataOf i). split; [reflexivity|].
  split; [reflexivity|]. split; [reflexivity|]. split; [reflexivity|].
  unfold taskDataOf.
  destruct (is_truthy (htmlNotes i)) eqn:E1;
    destruct (is_truthy (notes i)) eqn:E2;
    destruct (is_truthy (assignee i)) eqn:E3;
    destruct (is_truthy (dueDate i)) eqn:E4;
    destruct (tags i) as [[|t ts]|];
    destruct (customFields i) as [[|f fs]|];
    cbn [app assoc]; decide_keys;
    (split; [auto|]);
    repeat (apply List.Forall_cons; [cbn [assoc]; decide_keys; auto|]);
    apply List.Forall_nil.
Qed.

(** A network with a token, where the API accepts every request. *)
Definition accepting : network :=
  {| asanaToken := Ok (VStr (lit "secret"));
     http := fun _ =>
       Ok {| reply_ok := true; reply_status := 200;
             json := Ok (VObj [(lit "data",
                                VArr [VObj [(lit "gid", VStr (lit "1"));
                                            (lit "archived", VBool true)];
                                      VObj [(lit "gid", VStr (lit "2"))]])]) |};
     encodeURIComponent := fun s => Ok s |}.

Lemma createTask_payload_witness :
  exists r data,
    fst (createTask accepting
           (TaskInput (VStr (lit "9")) (VStr (lit "Call back")) VUndefined
              (VStr (lit "<body></body>")) (VStr (lit "3")) VNull VNull
              None None)) = [r] /\
    req_method r = lit "POST" /\
    req_url r = ASANA_API_BASE ++ lit "/tasks" /\
    payload r = Json (VObj [(lit "data", VObj data)]) /\
    (assoc (lit "html_notes") data = VUndefined
     \/ assoc (lit "notes") data = VUndefined) /\
    Forall (fun k =>
              assoc (lit k) data = VUndefined
              \/ is_truthy (assoc (lit k) data) = true)
      ["html_notes"; "notes"; "assignee"; "due_on"; "tags";
       "custom_fields"]%string.
Proof.
  apply (createTask_payload accepting (VStr (lit "secret"))); reflexivity.
Defined.

(** X10.  What [getProjects] returns is an array that holds no archived
    project. *)
Theorem getProjects_returns_active_projects (net : network)
    (workspaceId v : value) :
  snd (getProjects net workspaceId) = Ok v ->
  exists items,
    v = VArr items /\
    Forall (fun p => is_truthy (prop "archived" p) = false) items.
Proof.
  unfold getProjects. intros H.
  apply snd_bind_ok in H. destruct H as (result & _ & H).
  rewrite lift_bind in H. destruct (get "data" result) as [data|e];
    [|discriminate].
  destruct data; try discriminate.
  rewrite lift_bind in H. destruct (keepActive items) as [items'|e] eqn:E;
    [|discriminate].
  injection H as <-. exists items'. split; [reflexivity|].
  now apply (keepActive_active items).
Qed.

Lemma getProjects_returns_active_projects_witness :
  exists items,
    VArr [VObj [(lit "gid", VStr (lit "2"))]] = VArr items /\
    Forall (fun p => is_truthy (prop "archived" p) = false) items.
Proof.
  apply (getProjects_returns_active_projects accepting (VStr (lit "3"))).
  reflexivity.
Defined.

End ClientFacts.

(** ** Notifications: the URL of a notification is opened once *)

Module NotificationFacts.
Import Gateway Notifications.

Lemma notificationKey_inj a b : notificationKey a = notificationKey b -> a = b.
Proof. unfold notificationKey. apply app_inv_head. Qed.

(** X11.  A click on a notification that was shown with a URL (a string
    that is not empty) opens that URL in a tab, forgets it and clears the
    notification; a second click on the same notification opens nothing
    more. *)
Theorem clicked_notification_opens_its_url_once (b : browser)
    (notificationId address : jsstring) (title message : value) :
  address <> [] ->
  exists b1 b2,
    onClicked notificationId
      (showNotification notificationId title message (VStr address) b)
    = Ok b1 /\
    tabs b1 = tabs b ++ [address] /\
    storage b1 = delete (notificationKey notificationId) (storage b) /\
    cleared b1 = cleared b ++ [notificationId] /\
    onClicked notificationId b1 = Ok b2 /\
    tabs b2 = tabs b1.
Proof.
  intros Haddress. unfold onClicked at 1, showNotification.
  cbn [storage tabs notifications cleared].
  assert (Htruthy : is_truthy (VStr address) = true) by now destruct address.
  rewrite Htruthy, lookup_insert_eq, Htruthy.
  eexists _, _. split; [reflexivity|]. cbn [tabs storage cleared].
  split; [reflexivity|]. split; [apply delete_insert_eq|].
  split; [reflexivity|].
  unfold onClicked. cbn [storage tabs notifications cleared].
  rewrite delete_insert_eq, lookup_delete_eq. cbn [is_truthy].
  split; reflexivity.
Qed.

Definition emptyBrowser : browser :=
  {| storage := ∅; tabs := []; notifications := []; cleared := [] |}.

Lemma clicked_notification_opens_its_url_once_witness :
  exists b1 b2,
    onClicked (lit "n1")
      (showNotification (lit "n1") (VStr (lit "Task created"))
         (VStr (lit "Call back")) (VStr (lit "https://app.asana.com/0/0/7"))
         emptyBrowser)
    = Ok b1 /\
    tabs b1 = tabs emptyBrowser ++ [lit "https://app.asana.com/0/0/7"] /\
    storage b1 = delete (notificationKey (lit "n1")) (storage emptyBrowser) /\
    cleared b1 = cleared emptyBrowser ++ [lit "n1"] /\
    onClicked (lit "n1") b1 = Ok b2 /\
    tabs b2 = tabs b1.
Proof.
  apply (clicked_notification_opens_its_url_once emptyBrowser (lit "n1")
           (lit "https://app.asana.com/0/0/7")).
  discriminate.
Defined.

(** X12.  Notifications do not interfere: showing a notification changes
    nothing of what a click on a notification with another identifier
    does to the tabs. *)
Theorem other_notification_is_untouched (b : browser)
    (shownId clickedId : jsstring) (title message url : value) :
  shownId <> clickedId ->
  match onClicked clickedId b,
        onClicked clickedId (showNotification shownId title message url b) with
  | Ok b1, Ok b2 => tabs b2 = tabs b1
  | Throw _, Throw _ => True
  | _, _ => False
  end.
Proof.
  intros Hne. unfold onClicked, showNotification.
  cbn [storage tabs notifications cleared].
  assert (Hkey : notificationKey shownId <> notificationKey clickedId)
    by (intros H; now apply notificationKey_inj in H).
  replace ((if is_truthy url
            then <[notificationKey shownId := url]> (storage b)
            else storage b) !! notificationKey clickedId)
    with (storage b !! notificationKey clickedId).
  2: { destruct (is_truthy url); [|reflexivity].
       now rewrite lookup_insert_ne. }
  destruct (storage b !! notificationKey clickedId) as [v|]; [|reflexivity].
  destruct (is_truthy v); [|reflexivity].
  destruct v; auto.
Qed.

Lemma other_notification_is_untouched_witness :
  match onClicked (lit "n2") emptyBrowser,
        onClicked (lit "n2")
          (showNotification (lit "n1") VNull VNull (VStr (lit "https://a"))
             emptyBrowser) with
  | Ok b1, Ok b2 => tabs b2 = tabs b1
  | Throw _, Throw _ => True
  | _, _ => False
  end.
Proof.
  apply (other_notification_is_untouched emptyBrowser (lit "n1") (lit "n2")).
  discriminate.
Defined.

End NotificationFacts.

(** ** The modal of the composer: tags, names, file names and bodies *)

Module WidgetFacts.
Import Composer Widgets.

(** *** The tag picker *)

Lemma hasTag_false gid selectedTags :
  hasTag gid selectedTags = false -> ~ In gid (map tag_gid selectedTags).
Proof.
  unfold hasTag. induction selectedTags as [|t l IH]; simpl; [tauto|].
  intros H. apply orb_false_elim in H. destruct H as [Ht Hl].
  intros [E|Hin]; [|now apply IH].
  unfold str_eqb in Ht. apply bool_decide_eq_false in Ht. congruence.
Qed.

Lemma addTag_distinct chosen selectedTags :
  List.NoDup (map tag_gid selectedTags) ->
  List.NoDup (map tag_gid (addTag chosen selectedTags)).
Proof.
  intros Hnd. unfold addTag.
  destruct (hasTag (tag_gid chosen) selectedTags) eqn:E; [exact Hnd|].
  rewrite map_app. simpl.
  apply ExtractorFacts.NoDup_snoc; [exact Hnd|now apply hasTag_false].
Qed.

Lemma filter_distinct (keep : tag -> bool) selectedTags :
  List.NoDup (map tag_gid selectedTags) ->
  List.NoDup (map tag_gid (List.filter keep selectedTags)).
Proof.
  induction selectedTags as [|t l IH]; simpl; [auto|].
  intros H. apply List.NoDup_cons_iff in H. destruct H as [Ht Hl].
  destruct (keep t); simpl; [|auto].
  apply List.NoDup_cons; [|auto].
  intros Hin. apply Ht. apply in_map_iff in Hin.
  destruct Hin as (x & Hx & Hin). apply List.filter_In in Hin.
  apply in_map_iff. exists x. tauto.
Qed.

Lemma tagStep_distinct tags selectedTags a :
  List.NoDup (map tag_gid selectedTags) ->
  List.NoDup (map tag_gid (tagStep tags selectedTags a)).
Proof.
  intros Hnd. destruct a; cbn [tagStep].
  - destruct (find _ tags); [now apply addTag_distinct|exact Hnd].
  - destruct (find _ selectedTags); [now apply filter_distinct|exact Hnd].
  - destruct (_ && _); [|exact Hnd].
    destruct (last selectedTags); [now apply filter_distinct|exact Hnd].
  - constructor.
Qed.

(** X13.  Whatever the user does in the tag picker and whatever tags are
    loaded at each action, the selected tags never hold the same
    identifier twice (so neither does the list of tags of a created
    task). *)
Theorem selected_tags_stay_distinct (steps : list (list tag * tagAction)) :
  List.NoDup
    (map tag_gid
       (fold_left (fun selectedTags step =>
                     tagStep (fst step) selectedTags (snd step))
          steps [])).
Proof.
  apply (ExtractorFacts.fold_left_invariant
           (fun selectedTags => List.NoDup (map tag_gid selectedTags))).
  - constructor.
  - intros selectedTags step. apply tagStep_distinct.
Qed.

Lemma hasTag_app gid a b : hasTag gid (a ++ b) = hasTag gid a || hasTag gid b.
Proof. unfold hasTag. apply existsb_app. Qed.

Lemma removeTag_absent chosen selectedTags :
  hasTag (tag_gid chosen) selectedTags = false ->
  removeTag chosen selectedTags = selectedTags.
Proof.
  unfold hasTag, removeTag. induction selectedTags as [|t l IH]; simpl;
    [reflexivity|].
  intros H. apply orb_false_elim in H. destruct H as [Ht Hl].
  rewrite Ht. simpl. now rewrite IH.
Qed.

(** X14.  In the tag picker, a tag that was added is selected and adding
    it again changes nothing; a tag that was removed is not selected; and
    removing a tag just added to a selection that did not hold it gives
    that selection back. *)
Theorem addTag_removeTag (chosen : tag) (selectedTags : list tag) :
  hasTag (tag_gid chosen) (addTag chosen selectedTags) = true /\
  addTag chosen (addTag chosen selectedTags) = addTag chosen selectedTags /\
  hasTag (tag_gid chosen) (removeTag chosen selectedTags) = false /\
  (hasTag (tag_gid chosen) selectedTags = false ->
   removeTag chosen (addTag chosen selectedTags) = selectedTags).
Proof.
  assert (Hself : str_eqb (tag_gid chosen) (tag_gid chosen) = true)
    by (apply bool_decide_eq_true; reflexivity).
  assert (Hadded : hasTag (tag_gid chosen) (addTag chosen selectedTags) = true).
  { unfold addTag. destruct (hasTag _ selectedTags) eqn:E; [exact E|].
    rewrite hasTag_app. simpl. rewrite Hself. now rewrite orb_true_r. }
  split; [exact Hadded|]. split; [|split].
  - unfold addTag at 1. now rewrite Hadded.
  - clear Hadded. unfold hasTag, removeTag.
    induction selectedTags as [|t l IH]; simpl; [reflexivity|].
    destruct (str_eqb (tag_gid t) (tag_gid chosen)) eqn:E; simpl; [exact IH|].
    now rewrite E, IH.
  - intros Hnew. unfold addTag. rewrite Hnew. unfold removeTag.
    rewrite List.filter_app. simpl. rewrite Hself. simpl.
    rewrite app_nil_r. now apply removeTag_absent.
Qed.

End WidgetFacts.

(** ** Texts: trimming, cleaning, file names *)

Module TextFacts.
Import Composer Widgets.

Lemma trim_start_suffix s : exists pre, s = pre ++ trim_start s.
Proof.
  induction s as [|c r [pre IH]]; simpl; [now exists []|].
  destruct (is_space c); [|now exists []].
  exists (c :: pre). simpl. now rewrite <- IH.
Qed.

Lemma trim_start_hd s c r : trim_start s = c :: r -> is_space c = false.
Proof.
  induction s as [|d s IH]; simpl; [discriminate|].
  destruct (is_space d) eqn:E; [exact IH|]. now intros [= <- _].
Qed.

Lemma trim_start_stops c r : is_space c = false -> trim_start (c :: r) = c :: r.
Proof. intros H. simpl. now rewrite H. Qed.

Lemma trim_start_app_stops a c r :
  is_space c = false ->
  exists a', trim_start (a ++ c :: r) = a' ++ c :: r.
Proof.
  intros Hc. induction a as [|d a [a' IH]]; simpl.
  - rewrite Hc. now exists [].
  - destruct (is_space d); [now exists a'|]. now exists (d :: a).
Qed.

Lemma trim_end_prefix s : exists post, s = trim_end s ++ post.
Proof.
  unfold trim_end. destruct (trim_start_suffix (rev s)) as [pre H].
  exists (rev pre). rewrite <- rev_app_distr, <- H. now rewrite rev_involutive.
Qed.

Lemma trim_infix s : exists pre post, s = pre ++ trim s ++ post.
Proof.
  unfold trim. destruct (trim_start_suffix s) as [pre H].
  destruct (trim_end_prefix (trim_start s)) as [post H'].
  exists pre, post. now rewrite <- H', <- H.
Qed.

(** A text with no white space at either end. *)
Definition tidy (s : jsstring) : Prop :=
  (forall c r, s = c :: r -> is_space c = false) /\
  (forall r c, s = r ++ [c] -> is_space c = false).

Lemma trim_end_last s r c : trim_end s = r ++ [c] -> is_space c = false.
Proof.
  unfold trim_end. intros H. apply (f_equal (@rev N)) in H.
  rewrite rev_involutive, rev_app_distr in H. simpl in H.
  now apply trim_start_hd in H.
Qed.

Lemma trim_end_hd c r :
  is_space c = false -> exists r', trim_end (c :: r) = c :: r'.
Proof.
  intros Hc. unfold trim_end. simpl.
  destruct (trim_start_app_stops (rev r) c [] Hc) as [a' H].
  rewrite H. rewrite rev_app_distr. simpl. eauto.
Qed.

Lemma trim_tidy s : tidy (trim s).
Proof.
  unfold trim. split.
  - intros c r H. destruct (trim_start s) as [|d s'] eqn:E.
    + discriminate.
    + pose proof (trim_start_hd _ _ _ E) as Hd.
      destruct (trim_end_hd d s' Hd) as [r' H'].
      rewrite H' in H. now injection H as <- _.
  - intros r c. apply trim_end_last.
Qed.

(** *** The quoted body *)

(** No line feed of [s] is the third of a run, [k] line feeds coming just
    before [s]. *)
Fixpoint runs_below (k : nat) (s : jsstring) : bool :=
  match s with
  | [] => true
  | c :: r =>
      if c =? 10 then (k <? 2)%nat && runs_below (S k) r
      else runs_below 0 r
  end.

Lemma runs_below_flush p c r :
  (c =? 10) = false ->
  runs_below 0 (flush_newlines p ++ c :: r) = runs_below 0 r.
Proof.
  intros Hc. unfold flush_newlines.
  destruct p as [|[|[|p]]]; cbn [Nat.leb repeat app runs_below];
    rewrite ?N.eqb_refl, ?Hc; reflexivity.
Qed.

Lemma runs_below_flush_end p : runs_below 0 (flush_newlines p) = true.
Proof.
  unfold flush_newlines.
  destruct p as [|[|[|p]]]; cbn [Nat.leb repeat app runs_below];
    rewrite ?N.eqb_refl; reflexivity.
Qed.

Lemma collapse_runs p s : runs_below 0 (collapse_newlines_from p s) = true.
Proof.
  revert p. induction s as [|c r IH]; intros p; cbn [collapse_newlines_from].
  - apply runs_below_flush_end.
  - destruct (c =? 10) eqn:Hc; [apply IH|].
    rewrite runs_below_flush by exact Hc. apply IH.
Qed.

Lemma runs_below_no_triple k s :
  runs_below k s = true -> forall a b, s <> a ++ [10; 10; 10] ++ b.
Proof.
  revert k. induction s as [|c r IH]; intros k H a b E.
  - now destruct a.
  - destruct a as [|d a]; cbn [app] in E.
    + injection E as -> ->. cbn [runs_below] in H.
      rewrite !N.eqb_refl in H.
      destruct k as [|[|k]]; cbn in H; discriminate.
    + injection E as -> ->. cbn [runs_below] in H.
      destruct (d =? 10).
      * apply andb_true_iff in H. destruct H as [_ H].
        now apply (IH _ H a b).
      * now apply (IH _ H a b).
Qed.

(** X15.  The body quoted in a note or in a comment has no white space
    at either end, never holds three line feeds in a row, and holds
    neither [<] nor [>]. *)
Theorem cleanBody_tidy (body : jsstring) :
  tidy (cleanBody body) /\
  (forall a b, cleanBody body <> a ++ [10; 10; 10] ++ b) /\
  Forall (fun c => c <> 60 /\ c <> 62) (cleanBody body).
Proof.
  split; [apply trim_tidy|]. split; [|apply ComposerFacts.cleanBody_no_angle].
  intros a b E. unfold cleanBody in E.
  destruct (trim_infix (collapse_newlines (escapeHtml body)))
    as (pre & post & H).
  rewrite E in H.
  apply (runs_below_no_triple 0 _ (collapse_runs 0 (escapeHtml body))
           (pre ++ a) (b ++ post)).
  unfold collapse_newlines in H. rewrite H.
  now rewrite <- !app_assoc.
Qed.

(** *** The name of the attached message file *)

(** X16.  The name under which the message is attached is [.eml] after a
    stem of one to fifty units, each a letter or a digit of ASCII or an
    underscore. *)
Theorem emlFilename_safe (subject : jsstring) :
  exists stem,
    emlFilename subject = stem ++ lit ".eml" /\
    (0 < length stem <= 50)%nat /\
    Forall (fun c => is_alnum c = true \/ c = 95) stem.
Proof.
  unfold emlFilename. eexists. split; [reflexivity|]. split.
  - rewrite length_map, length_firstn. split; [|lia].
    unfold or_else. destruct subject as [|c r]; simpl; lia.
  - apply Forall_map. apply Forall_forall. intros c _.
    destruct (is_alnum c) eqn:E; auto.
Qed.

(** *** The name shown for a sender *)

Lemma beforeAngle_no_angle s : Forall (fun c => c <> 60) (beforeAngle s).
Proof.
  induction s as [|c r IH]; simpl; [constructor|].
  destruct (c =? 60) eqn:E; [constructor|].
  constructor; [|exact IH]. now apply N.eqb_neq.
Qed.

Lemma tidy_nil : tidy [].
Proof. split; intros ? ? H; [discriminate|now destruct r]. Qed.

(** X17.  The name that [extractSenderName] gives for a sender holds no
    [<] and has no white space at either end. *)
Theorem extractSenderName_plain (sender : jsstring) :
  Forall (fun c => c <> 60) (extractSenderName sender) /\
  tidy (extractSenderName sender).
Proof.
  unfold extractSenderName. destruct (negb (truthy sender)).
  - split; [constructor|apply tidy_nil].
  - cbv zeta. destruct (_ && _).
    + split; [|apply trim_tidy].
      apply ComposerFacts.trim_keeps, beforeAngle_no_angle.
    + split; [|apply trim_tidy]. apply ComposerFacts.trim_keeps.
      apply List.Forall_forall. intros c Hc. apply List.filter_In in Hc.
      destruct Hc as [_ Hc]. apply negb_true_iff, orb_false_elim in Hc.
      now apply N.eqb_neq.
Qed.

Lemma beforeAngle_app name rest :
  Forall (fun c => c <> 60) name ->
  beforeAngle (name ++ 60 :: rest) = name.
Proof.
  induction 1 as [|c name Hc _ IH]; simpl; [reflexivity|].
  apply N.eqb_neq in Hc. now rewrite Hc, IH.
Qed.

Lemma trim_start_app x y :
  trim_start x <> [] -> trim_start (x ++ y) = trim_start x ++ y.
Proof.
  induction x as [|c x IH]; simpl; [tauto|].
  destruct (is_space c); [exact IH|reflexivity].
Qed.

Lemma trim_start_spaces x y :
  trim_start x = [] -> trim_start (x ++ y) = trim_start y.
Proof.
  induction x as [|c x IH]; simpl; [reflexivity|].
  destruct (is_space c); [exact IH|discriminate].
Qed.

Lemma trim_end_space y c : is_space c = true -> trim_end (y ++ [c]) = trim_end y.
Proof.
  intros Hc. unfold trim_end. rewrite rev_app_distr. simpl. now rewrite Hc.
Qed.

Lemma trim_app_space x c : is_space c = true -> trim (x ++ [c]) = trim x.
Proof.
  intros Hc. unfold trim. destruct (trim_start x) as [|d r] eqn:E.
  - rewrite trim_start_spaces by exact E. simpl. now rewrite Hc.
  - rewrite trim_start_app by (rewrite E; discriminate).
    rewrite E. now apply trim_end_space.
Qed.

(** X18.  For a message whose sender element carries an address and a
    name (an attribute [name], or else its trimmed text) that holds no
    [<] and is not blank, the header of the message in the attachment
    list shows that name, trimmed: [extractSenderName] undoes the
    [name <address>] that [getSenderFromMessage] builds. *)
Theorem header_shows_sender_name (container : Extractor.messageNode)
    (element : Extractor.senderElement) (address : jsstring) :
  Extractor.senderEl container = Some element ->
  Extractor.emailAttr element = Some address ->
  address <> [] ->
  let name :=
    or_else (Extractor.attr_string (Extractor.nameAttr element))
      (trim (Extractor.senderText element)) in
  trim name <> [] ->
  Forall (fun c => c <> 60) name ->
  extractSenderName (Extractor.getSenderFromMessage container) = trim name.
Proof.
  intros Hel Hmail Haddress name Hname Hplain.
  unfold Extractor.getSenderFromMessage. rewrite Hel, Hmail.
  cbn [Extractor.attr_string]. fold name.
  assert (Ht : truthy address = true) by now destruct address.
  assert (Hn : truthy name = true).
  { destruct name; [|reflexivity]. now destruct Hname. }
  rewrite Ht, Hn. unfold extractSenderName.
  assert (Hs : truthy (name ++ lit " <" ++ address ++ lit ">") = true).
  { destruct name; [discriminate|reflexivity]. }
  rewrite Hs. cbn [negb]. cbv zeta.
  change (name ++ lit " <" ++ address ++ lit ">")
    with (name ++ [32] ++ 60 :: address ++ lit ">").
  rewrite app_assoc, beforeAngle_app.
  2: { apply Forall_app. split; [exact Hplain|]. repeat constructor. lia. }
  rewrite trim_app_space by reflexivity.
  assert (H1 : truthy (name ++ [32]) = true) by (now destruct name).
  assert (H2 : truthy (trim name) = true).
  { destruct (trim name); [now destruct Hname|reflexivity]. }
  now rewrite H1, H2.
Qed.

Lemma header_shows_sender_name_witness :
  extractSenderName
    (Extractor.getSenderFromMessage
       (Extractor.MessageNode
          (Some (Extractor.SenderElement (Some (lit "ada@example.org"))
                   (Some (lit "Ada Lovelace")) (lit " ada ")))
          [] None None None None))
  = trim (lit "Ada Lovelace").
Proof.
  apply (header_shows_sender_name _
           (Extractor.SenderElement (Some (lit "ada@example.org"))
              (Some (lit "Ada Lovelace")) (lit " ada "))
           (lit "ada@example.org")).
  - reflexivity.
  - reflexivity.
  - discriminate.
  - vm_compute. discriminate.
  - vm_compute. repeat (apply List.Forall_cons; [discriminate|]).
    apply List.Forall_nil.
Defined.

End TextFacts.

(** ** The composer: refused creations, custom fields, the request *)

Module SubmissionFacts.
Import Binary Gateway Relay Composer Wire.

(** The service worker refuses the creation: its promise rejects, or it
    answers with an error object. *)
Definition refused {A} (r : result (answer A)) (text : jsstring) : Prop :=
  r = Throw (Error text) \/ (r = Ok (ErrorObject text) /\ text <> []).

(** X19.  When the service worker refuses the creation of the task (its
    promise rejects, or it answers with an error object), the submission
    stops there: the creation message is the only event added, so nothing
    is downloaded, uploaded or notified; the status shows the error text
    after the localized prefix, with type [error]; the draft is kept and
    the submit button is enabled again with its initial text. *)
Theorem createTask_reports_refusal (t : jsstring -> list jsstring -> jsstring)
    (env : environment) (w : world) (project : project)
    (data : list (jsstring * value)) (text : jsstring) :
  mode (this w) = create ->
  trim (name_input (form w)) <> [] ->
  selectedProject (this w) = Some project ->
  customFieldsData (customFields (this w))
    (map_to_list (customFieldValues (this w))) = Ok data ->
  (forall td,
     refused (gateway env createdTask (length (trace w)) (CREATE_TASK td)) text) ->
  exists td w',
    createTask t env w = (Ok tt, w') /\
    this w' = this w /\
    trace w' = trace w ++ [Sent (CREATE_TASK td)] /\
    td_name td = trim (name_input (form w)) /\
    td_projectId td = project_gid project /\
    status (form w')
    = (t (lit "errorCreateTask") [] ++ lit " " ++ text, lit "error") /\
    create_disabled (form w') = false /\
    create_text (form w') = t (lit "createTask") [].
Proof.
  destruct w as [s f tr]. cbn [this form trace].
  intros Hmode Hname Hproject Hdata Hrefused.
  assert (Htruthy : truthy (trim (name_input f)) = true).
  { destruct (trim (name_input f)); [now destruct Hname|reflexivity]. }
  unfold createTask.
  cbv beta iota delta [mbind M_bind get_this get_form this form trace].
  rewrite Hmode. cbv zeta. rewrite Htruthy. cbn [negb]. rewrite Hproject.
  cbv beta iota delta [setCreateButton set_form try_catch showStatus
    completes sendMessage clock emit mret M_ret await throw
    this form trace mbind M_bind].
  rewrite Hdata.
  match goal with
  | |- context [gateway env createdTask (length tr) (CREATE_TASK ?d)] =>
      exists d; destruct (Hrefused d) as [E|[E Htext]]; rewrite E
  end.
  - eexists. split; [reflexivity|]. cbn. repeat split; reflexivity.
  - assert (Ht : truthy text = true) by (now destruct text).
    cbn [error_of]. rewrite Ht.
    eexists. split; [reflexivity|]. cbn. repeat split; reflexivity.
Qed.

Lemma createTask_reports_refusal_witness :
  exists td w',
    createTask (fun k _ => k) ComposerFacts.deadEnvironment
      {| this := with_selection (Some (Project (lit "P1") (lit "Invoices")))
                   [] None (Data []) ∅ ComposerFacts.blankSelector;
         form := ComposerFacts.blankModal; trace := [] |}
    = (Ok tt, w') /\
    this w'
    = with_selection (Some (Project (lit "P1") (lit "Invoices")))
        [] None (Data []) ∅ ComposerFacts.blankSelector /\
    trace w' = [] ++ [Sent (CREATE_TASK td)] /\
    td_name td = trim (lit "X") /\
    td_projectId td = lit "P1" /\
    status (form w') = (lit "errorCreateTask" ++ lit " " ++ lit "offline",
                        lit "error") /\
    create_disabled (form w') = false /\
    create_text (form w') = lit "createTask".
Proof.
  apply (createTask_reports_refusal (fun k _ => k)
           ComposerFacts.deadEnvironment
           {| this := with_selection
                        (Some (Project (lit "P1") (lit "Invoices")))
                        [] None (Data []) ∅ ComposerFacts.blankSelector;
              form := ComposerFacts.blankModal; trace := [] |}
           (Project (lit "P1") (lit "Invoices")) [] (lit "offline")).
  - reflexivity.
  - vm_compute. discriminate.
  - reflexivity.
  - reflexivity.
  - intros td. left. reflexivity.
Defined.

(** *** Custom fields *)

(** X20.  The custom-field data of a creation is built without a throw
    when the fields of the project were loaded, and each of its keys is
    both a field for which the draft holds a value and the identifier of
    a field of the selected project: a value left over for an unknown
    field is not sent. *)
Theorem customFieldsData_known_fields (fields : list customField)
    (entries : list (jsstring * jsstring)) :
  exists data,
    customFieldsData (Data fields) entries = Ok data /\
    Forall (fun kv =>
              In (fst kv) (map fst entries) /\
              exists field, In field fields /\ field_gid field = fst kv)
      data.
Proof.
  induction entries as [|[fieldId text] rest (data & IH & Hdata)].
  - exists []. split; [reflexivity|constructor].
  - cbn [customFieldsData]. rewrite IH. cbn [mbind result_bind].
    assert (Hrest : Forall (fun kv =>
                       In (fst kv) (map fst ((fieldId, text) :: rest)) /\
                       exists field, In field fields /\ field_gid field = fst kv)
                      data).
    { eapply List.Forall_impl; [|exact Hdata]. intros kv [H1 H2].
      split; [now right|exact H2]. }
    destruct (find _ fields) as [field|] eqn:E.
    + eexists. split; [reflexivity|].
      apply List.Forall_cons; [|exact Hrest]. cbn [fst].
      split; [now left|]. exists field.
      apply find_some in E. destruct E as [Hin Heq].
      split; [exact Hin|]. unfold str_eqb in Heq.
      now apply bool_decide_eq_true in Heq.
    + exists data. split; [reflexivity|exact Hrest].
Qed.

(** *** From the draft to the request *)

Lemma htmlNotes_truthy t e includeBody includeLink :
  truthy (htmlNotes t e includeBody includeLink) = true.
Proof.
  unfold htmlNotes. cbv zeta.
  destruct (truthy (sender e)), (truthy (date e)),
    (includeLink && truthy (emailUrl e)), (includeBody && truthy (body e));
    reflexivity.
Qed.

(** X21.  The request that the client makes for a task drafted in the
    composer carries the note body as [html_notes] and no [notes], with
    the name, the project and the workspace of the draft. *)
Theorem created_task_carries_html_notes (net : Client.network)
    (token : value) (t : jsstring -> list jsstring -> jsstring)
    (e : emailData) (includeBody includeLink : bool) (td : taskData) :
  Client.asanaToken net = Ok token -> is_truthy token = true ->
  td_htmlNotes td = htmlNotes t e includeBody includeLink ->
  exists r data,
    fst (Client.createTask net (wireTaskData td)) = [r] /\
    Client.payload r = Client.Json (VObj [(lit "data", VObj data)]) /\
    assoc (lit "html_notes") data
    = VStr (htmlNotes t e includeBody includeLink) /\
    assoc (lit "notes") data = VUndefined /\
    assoc (lit "name") data = VStr (td_name td) /\
    assoc (lit "projects") data = VArr [VStr (td_projectId td)] /\
    assoc (lit "workspace") data = VStr (td_workspaceId td).
Proof.
  intros Htoken Htruthy Hnotes. unfold Client.createTask.
  rewrite ClientFacts.fst_bind_quiet by reflexivity.
  rewrite ClientFacts.asanaFetch_unfold, Htoken, Htruthy. cbn [fst].
  eexists _, (Client.taskDataOf (wireTaskData td)).
  split; [reflexivity|]. split; [reflexivity|].
  unfold Client.taskDataOf, wireTaskData.
  cbn [Client.projectId Client.name Client.notes Client.htmlNotes
       Client.workspaceId Client.assignee Client.dueDate Client.tags
       Client.customFields].
  rewrite Hnotes.
  assert (H : is_truthy (VStr (htmlNotes t e includeBody includeLink)) = true).
  { pose proof (htmlNotes_truthy t e includeBody includeLink) as H.
    destruct (htmlNotes t e includeBody includeLink); [discriminate|reflexivity]. }
  rewrite H.
  destruct (td_assignee td) as [[|? ?]|], (td_dueDate td) as [[|? ?]|],
    (td_tags td) as [[|? ?]|], (td_customFields td) as [[|? ?]|];
    cbn [is_truthy option_map map app assoc]; ClientFacts.decide_keys;
    repeat split; reflexivity.
Qed.

Lemma created_task_carries_html_notes_witness :
  exists r data,
    fst (Client.createTask ClientFacts.accepting
           (wireTaskData
              {| td_projectId := lit "P1"; td_workspaceId := lit "W1";
                 td_name := lit "Call back";
                 td_htmlNotes :=
                   htmlNotes (fun k _ => k) ComposerFacts.emptyEmail true true;
                 td_assignee := None; td_dueDate := None; td_tags := None;
                 td_customFields := None |})) = [r] /\
    Client.payload r = Client.Json (VObj [(lit "data", VObj data)]) /\
    assoc (lit "html_notes") data
    = VStr (htmlNotes (fun k _ => k) ComposerFacts.emptyEmail true true) /\
    assoc (lit "notes") data = VUndefined /\
    assoc (lit "name") data = VStr (lit "Call back") /\
    assoc (lit "projects") data = VArr [VStr (lit "P1")] /\
    assoc (lit "workspace") data = VStr (lit "W1").
Proof.
  apply (created_task_carries_html_notes ClientFacts.accepting
           (VStr (lit "secret")) (fun k _ => k) ComposerFacts.emptyEmail
           true true
           {| td_projectId := lit "P1"; td_workspaceId := lit "W1";
              td_name := lit "Call back";
              td_htmlNotes :=
                htmlNotes (fun k _ => k) ComposerFacts.emptyEmail true true;
              td_assignee := None; td_dueDate := None; td_tags := None;
              td_customFields := None |}); reflexivity.
Defined.

Lemma htmlComment_truthy e includeBody includeLink :
  truthy (htmlComment e includeBody includeLink) = true.
Proof.
  unfold htmlComment. cbv zeta.
  destruct (truthy (sender e)), (truthy (date e)),
    (includeLink && truthy (emailUrl e)), (includeBody && truthy (body e));
    reflexivity.
Qed.

(** X29.  The request that the client makes for a comment drafted in the
    composer is a [POST] to the stories of the chosen task whose data is
    the comment body as [html_text] alone: the empty fallback [text] of
    the message is never sent. *)
Theorem comment_carries_html_text (net : Client.network) (token : value)
    (e : emailData) (includeBody includeLink : bool) (taskId : jsstring) :
  Client.asanaToken net = Ok token -> is_truthy token = true ->
  exists r,
    fst (Client.addComment net (VStr taskId) (VStr [])
           (VStr (htmlComment e includeBody includeLink))) = [r] /\
    Client.req_method r = lit "POST" /\
    Client.req_url r
    = Client.ASANA_API_BASE ++ lit "/tasks/" ++ taskId ++ lit "/stories" /\
    Client.payload r
    = Client.Json
        (VObj [(lit "data",
                VObj [(lit "html_text",
                       VStr (htmlComment e includeBody includeLink))])]).
Proof.
  intros Htoken Htruthy. unfold Client.addComment.
  assert (H : is_truthy (VStr (htmlComment e includeBody includeLink)) = true).
  { pose proof (htmlComment_truthy e includeBody includeLink) as H.
    destruct (htmlComment e includeBody includeLink);
      [discriminate|reflexivity]. }
  rewrite H. cbv zeta.
  rewrite ClientFacts.fst_bind_quiet by reflexivity.
  rewrite ClientFacts.asanaFetch_unfold, Htoken, Htruthy. cbn [fst].
  eexists. repeat split; reflexivity.
Qed.

Lemma comment_carries_html_text_witness :
  exists r,
    fst (Client.addComment ClientFacts.accepting (VStr (lit "7")) (VStr [])
           (VStr (htmlComment ComposerFacts.emptyEmail true true))) = [r] /\
    Client.req_method r = lit "POST" /\
    Client.req_url r
    = Client.ASANA_API_BASE ++ lit "/tasks/" ++ lit "7" ++ lit "/stories" /\
    Client.payload r
    = Client.Json
        (VObj [(lit "data",
                VObj [(lit "html_text",
                       VStr (htmlComment ComposerFacts.emptyEmail true true))])]).
Proof.
  apply (comment_carries_html_text ClientFacts.accepting
           (VStr (lit "secret"))); reflexivity.
Defined.

End SubmissionFacts.

(** ** The extractor: numbering, indices, counts, recipients *)

Module ListingFacts.
Import Extractor AttachmentList.

(** *** Decimal numerals *)

Lemma lit_inj a b : lit a = lit b -> a = b.
Proof.
  unfold lit. intros H.
  assert (Hinj : forall x y : list ascii,
            map N_of_ascii x = map N_of_ascii y -> x = y).
  { induction x as [|c x IH]; destruct y as [|d y]; simpl; try discriminate;
      [reflexivity|].
    intros [= Hc Hr]. f_equal; [|now apply IH].
    rewrite <- (ascii_N_embedding c), <- (ascii_N_embedding d). now f_equal. }
  apply Hinj in H.
  rewrite <- (string_of_list_ascii_of_string a),
          <- (string_of_list_ascii_of_string b). now f_equal.
Qed.

Lemma to_int_proper z :
  Z.to_int z <> Decimal.Pos Decimal.Nil /\ Z.to_int z <> Decimal.Neg Decimal.Nil.
Proof.
  pose proof (DecimalZ.to_of (Z.to_int z)) as H.
  rewrite DecimalZ.of_to in H.
  split; intros E; rewrite E in H; discriminate H.
Qed.

Lemma decimal_inj a b : decimal a = decimal b -> a = b.
Proof.
  unfold decimal. intros H. apply lit_inj in H.
  apply DecimalZ.to_int_inj.
  destruct (to_int_proper a) as [Ha1 Ha2], (to_int_proper b) as [Hb1 Hb2].
  pose proof (NilZero.isi _ Ha1 Ha2) as Ia.
  pose proof (NilZero.isi _ Hb1 Hb2) as Ib.
  rewrite H in Ia. rewrite Ia in Ib. now injection Ib.
Qed.

Lemma attachmentId_inj i j : attachmentId i = attachmentId j -> i = j.
Proof.
  unfold attachmentId. intros H. apply app_inv_head in H.
  apply decimal_inj in H. lia.
Qed.

Lemma NoDup_map_seq {A} (f : nat -> A) start len :
  (forall i j, f i = f j -> i = j) -> List.NoDup (map f (seq start len)).
Proof.
  intros Hf. revert start. induction len as [|len IH]; intros start; simpl.
  - constructor.
  - constructor; [|apply IH].
    intros Hin. apply in_map_iff in Hin. destruct Hin as (j & Hj & Hin).
    apply Hf in Hj. apply in_seq in Hin. lia.
Qed.

(** *** Identifiers of the attachments *)

(** The identifier of each entry is [attachment-] and its position. *)
Definition numbered (l : list attachment) : Prop :=
  map id l = map attachmentId (seq 0 (length l)).

Lemma numbered_snoc l a :
  numbered l -> id a = attachmentId (length l) -> numbered (l ++ [a]).
Proof.
  unfold numbered. intros Hl Ha.
  rewrite map_app, length_app, seq_app, map_app. simpl.
  now rewrite Hl, Ha.
Qed.

Definition named (l : list attachment) : Prop :=
  Forall (fun a => name a <> []) l.

Lemma named_snoc l a : named l -> truthy (name a) = true -> named (l ++ [a]).
Proof.
  intros Hl Ha. apply Forall_app. split; [exact Hl|].
  apply List.Forall_cons; [|apply List.Forall_nil].
  now destruct (name a).
Qed.

Lemma addFromMessage_listed l c :
  numbered l /\ named l -> numbered (addFromMessage l c) /\ named (addFromMessage l c).
Proof.
  intros [Hn Hd]. unfold addFromMessage. cbv zeta.
  destruct (truthy _ && _) eqn:E; [|now split].
  apply andb_true_iff in E. destruct E as [E _].
  split; [now apply numbered_snoc|now apply named_snoc].
Qed.

Lemma addFromView_listed l c :
  numbered l /\ named l -> numbered (addFromView l c) /\ named (addFromView l c).
Proof.
  intros [Hn Hd]. unfold addFromView. cbv zeta.
  destruct (truthy _) eqn:E; [|now split].
  split; [now apply numbered_snoc|now apply named_snoc].
Qed.

Lemma addInline_listed l c :
  numbered l /\ named l -> numbered (addInline l c) /\ named (addInline l c).
Proof.
  intros [Hn Hd]. unfold addInline. cbv zeta.
  destruct (truthy _ && _) eqn:E; [|now split].
  apply andb_true_iff in E. destruct E as [E _].
  split; [now apply numbered_snoc|now apply named_snoc].
Qed.

(** X22.  In what the per-message extraction and the whole-view
    extraction return, every entry has a name that is not empty and the
    identifier [attachment-<position>], so that no two entries share an
    identifier. *)
Theorem extracted_attachments_are_numbered
    (containers inlineAttachments : list card) :
  let perMessage := getAttachmentsFromMessage containers in
  let wholeView := getAttachments containers inlineAttachments in
  (map id perMessage = map attachmentId (seq 0 (length perMessage)) /\
   List.NoDup (map id perMessage) /\
   Forall (fun a => name a <> []) perMessage) /\
  (map id wholeView = map attachmentId (seq 0 (length wholeView)) /\
   List.NoDup (map id wholeView) /\
   Forall (fun a => name a <> []) wholeView).
Proof.
  assert (H1 : numbered (getAttachmentsFromMessage containers)
               /\ named (getAttachmentsFromMessage containers)).
  { unfold getAttachmentsFromMessage.
    apply (ExtractorFacts.fold_left_invariant
             (fun l => numbered l /\ named l)).
    - split; [reflexivity|constructor].
    - intros l c. apply addFromMessage_listed. }
  assert (H2 : numbered (getAttachments containers inlineAttachments)
               /\ named (getAttachments containers inlineAttachments)).
  { unfold getAttachments.
    apply (ExtractorFacts.fold_left_invariant
             (fun l => numbered l /\ named l)).
    - apply (ExtractorFacts.fold_left_invariant
               (fun l => numbered l /\ named l)).
      + split; [reflexivity|constructor].
      + intros l c. apply addFromView_listed.
    - intros l c. apply addInline_listed. }
  cbv zeta. destruct H1 as [N1 D1], H2 as [N2 D2].
  unfold numbered in N1, N2.
  split; (split; [assumption|split; [|assumption]]).
  - rewrite N1. apply NoDup_map_seq, attachmentId_inj.
  - rewrite N2. apply NoDup_map_seq, attachmentId_inj.
Qed.

(** *** Indices of the messages of the thread scan *)

(** A message carries its position as index, holds at least one
    attachment, and each of its attachments points back to it. *)
Definition placed (k : nat) (m : threadMessage) : Prop :=
  index m = k /\ attachments m <> [] /\
  Forall (fun a => messageIndex a = Some k) (attachments m).

(** The messages are placed at the positions from [start] on. *)
Fixpoint placed_from (start : nat) (messages : list threadMessage) : Prop :=
  match messages with
  | [] => True
  | m :: rest => placed start m /\ placed_from (S start) rest
  end.

Lemma placed_from_snoc start messages m :
  placed_from start messages -> placed (start + length messages) m ->
  placed_from start (messages ++ [m]).
Proof.
  revert start. induction messages as [|x l IH]; intros start; simpl.
  - rewrite Nat.add_0_r. tauto.
  - intros [Hx Hl] Hm. split; [exact Hx|]. apply IH; [exact Hl|].
    replace (S start + length l)%nat with (start + S (length l))%nat by lia.
    exact Hm.
Qed.

(** The state of the two loops that build the messages: the counter is
    the number of messages. *)
Definition counted_state (state : list threadMessage * nat) : Prop :=
  snd state = length (fst state) /\ placed_from 0 (fst state).

Lemma addIds_not_nil g atts : atts <> [] -> addIds g atts <> [].
Proof. destruct atts; [tauto|discriminate]. Qed.

Lemma addIds_points g atts :
  Forall (fun a => messageIndex a = Some g) (addIds g atts).
Proof.
  unfold addIds.
  apply (ExtractorFacts.Forall_imap (fun _ => True)); [reflexivity|].
  apply Forall_forall. auto.
Qed.

Lemma convertEntry_counted page state data :
  counted_state state -> counted_state (convertEntry page state data).
Proof.
  destruct state as [messages g]. unfold counted_state, convertEntry.
  cbn [fst snd]. intros [Hg Hm]. subst g.
  destruct (entryAttachments data) as [|a l] eqn:E; [now split|].
  destruct (key data); cbn [fst snd];
    (split; [rewrite length_app; simpl; lia|]);
    (apply placed_from_snoc; [exact Hm|]);
    (split; [reflexivity|]); cbn [attachments];
    (split; [discriminate|apply addIds_points]).
Qed.

Lemma scanRow_counted ph state r :
  counted_state state -> counted_state (scanRow ph state r).
Proof.
  destruct state as [messages g]. unfold counted_state, scanRow.
  cbn [fst snd]. intros [Hg Hm]. subst g.
  destruct (present (countBadge r) || hasClipIcon r); [|now split].
  destruct (find _ messages); [now split|]. cbn [fst snd].
  split; [rewrite length_app; simpl; lia|].
  apply placed_from_snoc; [exact Hm|].
  split; [reflexivity|]. cbn [attachments].
  split; [discriminate|]. repeat constructor.
Qed.

Lemma getAllThreadAttachments_placed ph page :
  placed_from 0 (getAllThreadAttachments ph page).
Proof.
  unfold getAllThreadAttachments. cbv zeta.
  destruct (fold_left groupCard (allAttachmentContainers page) ([], []))
    as [entries processed].
  apply (ExtractorFacts.fold_left_invariant counted_state).
  - apply (ExtractorFacts.fold_left_invariant counted_state).
    + split; [reflexivity|exact I].
    + intros state data. apply convertEntry_counted.
  - intros state r. apply scanRow_counted.
Qed.

Lemma placed_from_indices start messages :
  placed_from start messages ->
  map index messages = seq start (length messages) /\
  Forall (fun m =>
            attachments m <> [] /\
            Forall (fun a => messageIndex a = Some (index m)) (attachments m))
    messages.
Proof.
  revert start. induction messages as [|m l IH]; intros start; simpl.
  - intros _. split; [reflexivity|constructor].
  - intros [(Hi & Hne & Hp) Hl]. destruct (IH _ Hl) as [IH1 IH2].
    split; [now rewrite Hi, IH1|].
    apply List.Forall_cons; [|exact IH2]. rewrite Hi. now split.
Qed.

Lemma thread_messages_are_indexed_aux ph page :
  map index (getAllThreadAttachments ph page)
  = seq 0 (length (getAllThreadAttachments ph page)) /\
  Forall (fun m =>
            attachments m <> [] /\
            Forall (fun a => messageIndex a = Some (index m)) (attachments m))
    (getAllThreadAttachments ph page).
Proof. apply placed_from_indices, getAllThreadAttachments_placed. Qed.

(** X23.  The messages that the thread scan returns carry their positions
    [0, 1, 2, ...] as indices; each holds at least one attachment, and
    the [messageIndex] of each attachment is the index of its message. *)
Theorem thread_messages_are_indexed (placeholderText : jsstring)
    (page : thread) :
  let messages := getAllThreadAttachments placeholderText page in
  map index messages = seq 0 (length messages) /\
  Forall (fun m =>
            attachments m <> [] /\
            Forall (fun a => messageIndex a = Some (index m)) (attachments m))
    messages.
Proof.
  cbv zeta. apply thread_messages_are_indexed_aux.
Qed.

(** *** What the modal counts *)

Lemma fold_sum {A} (f : A -> nat) l a :
  fold_left (fun sum x => (sum + f x)%nat) l a = (a + list_sum (map f l))%nat.
Proof.
  revert a. induction l as [|x l IH]; intros a; simpl; [lia|].
  rewrite IH. lia.
Qed.

Lemma filter_all {A} (p : A -> bool) l :
  Forall (fun a => p a = true) l -> List.filter p l = l.
Proof.
  induction 1 as [|a l Ha _ IH]; simpl; [reflexivity|].
  now rewrite Ha, IH.
Qed.

(** X24.  For what the thread scan returns, the total that the modal
    counts is the number of real attachments plus one for each collapsed
    message; the total is zero only when the scan returns no message, and
    the two counts agree exactly when the label shows no [+]. *)
Theorem modal_counts (placeholderText : jsstring) (page : thread) :
  let messages := getAllThreadAttachments placeholderText page in
  totalAttachments messages
  = (realAttachmentCount messages
     + length (List.filter (fun m => negb (expanded m)) messages))%nat /\
  (totalAttachments messages = 0%nat <-> messages = []) /\
  (hasCollapsedWithAttachments messages = false <->
   realAttachmentCount messages = totalAttachments messages).
Proof.
  cbv zeta.
  pose proof (ExtractorFacts.getAllThreadAttachments_shaped
                placeholderText page) as Hshape.
  pose proof (proj2 (thread_messages_are_indexed_aux placeholderText page))
    as Hfull.
  unfold totalAttachments, realAttachmentCount, hasCollapsedWithAttachments.
  rewrite !fold_sum. cbn [Nat.add].
  assert (Hcons : forall (f : threadMessage -> nat) m l,
            list_sum (map f (m :: l)) = (f m + list_sum (map f l))%nat)
    by reflexivity.
  induction (getAllThreadAttachments placeholderText page) as [|m l IH].
  - simpl. repeat split; auto.
  - apply List.Forall_cons_iff in Hshape. destruct Hshape as [Hm Hl].
    apply List.Forall_cons_iff in Hfull. destruct Hfull as [[Hne _] Hfl].
    destruct (IH Hl Hfl) as (IH1 & IH2 & IH3). clear IH.
    rewrite !Hcons. cbn [List.filter existsb].
    unfold ExtractorFacts.shaped in Hm.
    assert (Hlen : (0 < length (attachments m))%nat).
    { destruct (attachments m); [now destruct Hne|simpl; lia]. }
    destruct (expanded m) eqn:Hexp; cbn [negb orb length].
    + rewrite filter_all.
      2: { eapply List.Forall_impl; [|exact Hm]. intros a Ha.
           unfold ExtractorFacts.real in Ha. now rewrite Ha. }
      split; [lia|]. split.
      * split; [lia|discriminate].
      * rewrite IH3. split; lia.
    + destruct Hm as (count & _ & Hatt). rewrite Hatt.
      cbn [length List.filter isCollapsedPlaceholder negb].
      split; [lia|]. split; [split; [lia|discriminate]|].
      split; [discriminate|lia].
Qed.

(** *** The flat list *)

Lemma flatten_length messages :
  length (flatten messages) = totalAttachments messages.
Proof.
  unfold totalAttachments. rewrite fold_sum. cbn [Nat.add]. unfold flatten.
  induction messages as [|m l IH]; [reflexivity|].
  cbn [flat_map map]. rewrite length_app, length_map, IH. reflexivity.
Qed.

(** X25.  The flat list of the attachments of a thread has one entry for
    each attachment that the modal counts, and each entry carries the
    sender, the date and the identifier of a message of the scan that
    holds the attachment and whose index is the [messageIndex] of the
    attachment. *)
Theorem flat_entries_point_to_their_message (placeholderText : jsstring)
    (page : thread) :
  let messages := getAllThreadAttachments placeholderText page in
  let flat := getAllAttachmentsFlat placeholderText page in
  length flat = totalAttachments messages /\
  Forall (fun f =>
            exists m,
              In m messages /\ In (flatEntry f) (attachments m) /\
              messageIndex (flatEntry f) = Some (index m) /\
              flatSender f = sender m /\ flatDate f = date m /\
              flatMessageId f = messageId m)
    flat.
Proof.
  cbv zeta. unfold getAllAttachmentsFlat. split; [apply flatten_length|].
  pose proof (proj2 (thread_messages_are_indexed_aux placeholderText page))
    as Hfull.
  apply List.Forall_forall. intros f Hf. unfold flatten in Hf.
  apply in_flat_map in Hf. destruct Hf as (m & Hm & Hf).
  apply in_map_iff in Hf. destruct Hf as (a & <- & Ha).
  exists m. cbn [flatEntry flatSender flatDate flatMessageId].
  rewrite List.Forall_forall in Hfull. destruct (Hfull m Hm) as [_ Hpoint].
  rewrite List.Forall_forall in Hpoint.
  repeat split; auto.
Qed.

(** *** Recipients *)

Lemma has_email_false email recipients :
  has_email email recipients = false ->
  ~ In email (map recipientEmail recipients).
Proof.
  unfold has_email. induction recipients as [|r l IH]; simpl; [tauto|].
  intros H. apply orb_false_elim in H. destruct H as [Hr Hl].
  intros [E|Hin]; [|now apply IH].
  unfold str_eqb in Hr. apply bool_decide_eq_false in Hr. congruence.
Qed.

Lemma has_email_true email recipients :
  has_email email recipients = true ->
  In email (map recipientEmail recipients).
Proof.
  unfold has_email. intros H. apply existsb_exists in H.
  destruct H as (r & Hin & Hr). unfold str_eqb in Hr.
  apply bool_decide_eq_true in Hr. subst email. now apply in_map.
Qed.

(** What holds of the recipients gathered so far from the elements
    [seen]: their addresses are distinct and are exactly the addresses,
    not empty, that the elements carry. *)
Definition gathered (seen : list senderElement) (recipients : list recipient)
  : Prop :=
  List.NoDup (map recipientEmail recipients) /\
  forall email,
    In email (map recipientEmail recipients) <->
    email <> [] /\
    exists el, In el seen /\ attr_string (emailAttr el) = email.

Lemma addRecipient_gathered seen recipients el :
  gathered seen recipients ->
  gathered (seen ++ [el]) (addRecipient recipients el).
Proof.
  intros [Hnd Hiff]. unfold addRecipient. cbv zeta.
  set (email := attr_string (emailAttr el)).
  assert (Hseen : forall e,
            (exists x, In x (seen ++ [el]) /\ attr_string (emailAttr x) = e)
            <-> (exists x, In x seen /\ attr_string (emailAttr x) = e)
                \/ e = email).
  { intros e. split.
    - intros (x & Hx & He). apply in_app_iff in Hx.
      destruct Hx as [Hx|[<-|[]]]; [left; eauto|right; now symmetry].
    - intros [(x & Hx & He)| ->].
      + exists x. split; [apply in_app_iff; now left|exact He].
      + exists el. split; [apply in_app_iff; right; now left|reflexivity]. }
  destruct (truthy email) eqn:Ht; cbn [andb].
  - destruct (has_email email recipients) eqn:Hhas; cbn [negb].
    + split; [exact Hnd|]. intros e. rewrite Hiff, Hseen.
      apply has_email_true in Hhas. apply Hiff in Hhas.
      split; [tauto|]. intros [He [H| ->]]; tauto.
    + split.
      * rewrite map_app. simpl.
        apply ExtractorFacts.NoDup_snoc; [exact Hnd|].
        now apply has_email_false.
      * intros e. rewrite map_app, in_app_iff, Hiff, Hseen. simpl.
        assert (Hne : email <> []) by (now destruct email).
        split.
        -- intros [H|[<-|[]]]; [tauto|]. split; [exact Hne|now right].
        -- intros [He [H| ->]]; [left; tauto|right; now left].
  - split; [exact Hnd|]. intros e. rewrite Hiff, Hseen.
    assert (Hnil : email = []) by (now destruct email).
    split; [tauto|]. intros [He [H| ->]]; [tauto|]. now destruct He.
Qed.

Lemma fold_addRecipient_gathered elements seen recipients :
  gathered seen recipients ->
  gathered (seen ++ elements) (fold_left addRecipient elements recipients).
Proof.
  revert seen recipients.
  induction elements as [|el l IH]; intros seen recipients H; simpl.
  - now rewrite app_nil_r.
  - replace (seen ++ el :: l) with ((seen ++ [el]) ++ l)
      by (now rewrite <- app_assoc).
    apply IH. now apply addRecipient_gathered.
Qed.

Lemma getRecipients_gathered matched seen recipients :
  gathered seen recipients ->
  gathered (seen ++ concat matched)
    (fold_left (fun recipients elements =>
                  fold_left addRecipient elements recipients)
       matched recipients).
Proof.
  revert seen recipients.
  induction matched as [|els l IH]; intros seen recipients H; simpl.
  - now rewrite app_nil_r.
  - rewrite app_assoc. apply IH. now apply fold_addRecipient_gathered.
Qed.

(** X26.  The recipients that [getRecipients] returns have pairwise
    distinct addresses, and these are exactly the addresses, not empty,
    that the matched elements carry in their attribute [email]. *)
Theorem getRecipients_distinct_addresses (matched : list (list senderElement)) :
  List.NoDup (map recipientEmail (getRecipients matched)) /\
  forall email,
    In email (map recipientEmail (getRecipients matched)) <->
    email <> [] /\
    exists el, In el (concat matched) /\ attr_string (emailAttr el) = email.
Proof.
  unfold getRecipients.
  apply (getRecipients_gathered matched [] []).
  split; [constructor|]. intros email. simpl. split; [tauto|].
  intros [_ (el & [] & _)].
Qed.

(** *** The whole-view extraction, again *)

(** The name that the whole-view extraction gives to a card. *)
Definition viewName (c : card) : jsstring :=
  or_else (trimmed (nameText c)) (lit "attachment").

Lemma fold_addFromView_names containers l :
  map name (fold_left addFromView containers l)
  = map name l ++ map viewName containers.
Proof.
  revert l. induction containers as [|c cs IH]; intros l; simpl.
  - now rewrite app_nil_r.
  - rewrite IH. unfold addFromView. cbv zeta. fold (viewName c).
    assert (Ht : truthy (viewName c) = true).
    { unfold viewName, or_else. now destruct (truthy (trimmed (nameText c))) eqn:E. }
    rewrite Ht. rewrite map_app. simpl. now rewrite <- app_assoc.
Qed.

(** X27.  When the attachment cards of the view have pairwise distinct
    names, the whole-view extraction returns no two entries with the same
    name: its second loop never repeats a name. *)
Theorem getAttachments_distinct_names
    (containers inlineAttachments : list card) :
  List.NoDup (map viewName containers) ->
  List.NoDup (map name (getAttachments containers inlineAttachments)).
Proof.
  intros Hnd. unfold getAttachments.
  apply (ExtractorFacts.fold_left_invariant
           (fun l => List.NoDup (map name l))).
  - now rewrite fold_addFromView_names.
  - intros l c Hl. unfold addInline. cbv zeta.
    destruct (truthy _); [|exact Hl].
    destruct (has_name _ l) eqn:Hnew; [exact Hl|].
    cbn [andb negb]. now apply ExtractorFacts.NoDup_names_snoc.
Qed.

Lemma getAttachments_distinct_names_witness :
  List.NoDup
    (map name
       (getAttachments
          [{| node := 1%nat; message := None; nameText := Some (lit "a.pdf");
              tooltip := None; ariaLabel := None; downloadHref := None;
              dataId := None; innerDataId := None; sizeText := None |}]
          [{| node := 2%nat; message := None; nameText := Some (lit "a.pdf");
              tooltip := None; ariaLabel := None; downloadHref := None;
              dataId := None; innerDataId := None; sizeText := None |}])).
Proof.
  apply getAttachments_distinct_names.
  apply List.NoDup_cons; [simpl; tauto|apply List.NoDup_nil].
Defined.

End ListingFacts.

(** ** The injector: the host page is kept *)

Module PassFacts.
Import Dom Injector InjectorFacts.

(** The node [e] belongs to a button of the page [D]: it is a trigger, or
    it lies inside a trigger of [D] (the spans and the text nodes that
    [innerHTML] gives a button). *)
Definition of_button (D : document) (e : node) : Prop :=
  is_trigger e = true \/
  exists b, In b D /\ is_trigger b = true /\ descends (eid b) e = true.

(** From [st] to [st']: the page before is a subsequence of the page
    after, what was added belongs to a button, and the marks only grow. *)
Definition extends (st st' : injector) : Prop :=
  sublist (dom st) (dom st') /\
  injectedButtons st ⊆ injectedButtons st' /\
  Forall (fun e => In e (dom st) \/ of_button (dom st') e) (dom st').

Lemma extends_refl st : extends st st.
Proof.
  split; [reflexivity|]. split; [reflexivity|].
  apply List.Forall_forall. auto.
Qed.

Lemma sublist_In (l1 l2 : document) e : sublist l1 l2 -> In e l1 -> In e l2.
Proof.
  intros Hsub Hin. apply list_elem_of_In.
  apply (elem_of_sublist l1 l2 e); [now apply list_elem_of_In|exact Hsub].
Qed.

Lemma extends_trans a b c : extends a b -> extends b c -> extends a c.
Proof.
  intros (S1 & M1 & N1) (S2 & M2 & N2).
  split; [now transitivity (dom b)|]. split; [set_solver|].
  apply List.Forall_forall. intros e He.
  rewrite List.Forall_forall in N1, N2.
  destruct (N2 e He) as [H|H]; [|now right].
  destruct (N1 e H) as [H1|[H1|(x & Hx & Ht & Hd)]];
    [now left|right; now left|].
  right; right. exists x. split; [|now split]. now apply (sublist_In (dom b)).
Qed.

(** What the injector makes is a button and what is in it. *)
Lemma subtree_of_button label D c xs e :
  subtree label D c xs -> In e xs -> of_button xs e.
Proof.
  intros [(p & -> & _)|(p & ->)] He;
    cbn [createAsanaButton createMiniAsanaButton In] in He.
  - destruct He as [<-|He]; [now left|].
    right. eexists. split; [now left|]. split; [reflexivity|].
    repeat (destruct He as [<-|He];
            [cbn [descends path text span eid existsb];
             rewrite ?Nat.eqb_refl, ?orb_true_r; reflexivity|]).
    destruct He.
  - destruct He as [<-|He]; [now left|].
    right. eexists. split; [now left|]. split; [reflexivity|].
    repeat (destruct He as [<-|He];
            [cbn [descends path text span eid existsb];
             rewrite ?Nat.eqb_refl, ?orb_true_r; reflexivity|]).
    destruct He.
Qed.

Lemma step_extends label st st' : step label st st' -> extends st st'.
Proof.
  intros [->|(c & xs & Hxs & Hm & Hadd & Hmarks)]; [apply extends_refl|].
  split; [|split].
  - now apply (adds_sublist xs).
  - rewrite Hmarks. apply union_subseteq_l.
  - apply List.Forall_forall. intros e He.
    apply (adds_In xs _ _ e Hadd) in He.
    destruct He as [He|He]; [now left|right].
    destruct (subtree_of_button label _ _ _ e Hxs He)
      as [H|(b & Hb & Ht & Hd)]; [now left|].
    right. exists b. split; [|now split].
    apply (adds_In xs _ _ b Hadd). now right.
Qed.


End PassFacts.
